(** * cosmic-mcp: the tool handlers and the request dispatcher

    A shallow embedding of the TypeScript sources of the Cosmic MCP server
    ([src/client.ts], [src/tools/objects.ts], [src/tools/media.ts],
    [src/tools/object-types.ts], [src/tools/ai.ts], [src/index.ts]) and the
    properties of its specification that concern them.

    Conventions of the embedding:
    - a JavaScript string is the list of its UTF-16 code units ([jsstring]);
      literals of the source are written [js "..."];
    - a JavaScript object used as a record of named properties is a
      [gmap jsstring JsVal]; a property holding [undefined] is a key mapped
      to [JUndefined], an absent property is a key that is not in the map;
    - an [async] function that reads the environment, memoizes the client,
      calls the backend and may throw is a computation in the monad [M]:
      state passing over [World], with a completion that is normal or a
      thrown value. *)

From Stdlib Require Import String Ascii NArith ZArith QArith.
From stdpp Require Import base option list gmap.

Set Warnings "-register-all".
Close Scope Q_scope.
Open Scope list_scope.

(** ** JavaScript values *)

Abbreviation jsstring := (list N).

Fixpoint js (s : string) : jsstring :=
  match s with
  | EmptyString => []
  | String a s' => N_of_ascii a :: js s'
  end.
Arguments js s%_string.

Inductive JsVal : Type :=
| JUndefined
| JNull
| JBool (b : bool)
| JNum (q : Q)
| JStr (s : jsstring)
| JArr (l : list JsVal)
| JObj (o : gmap jsstring JsVal)
| JBuffer (bytes : list N).

(** [o.k] for an object [o]: a missing property reads as [undefined]. *)
Definition prop (o : gmap jsstring JsVal) (k : jsstring) : JsVal :=
  default JUndefined (o !! k).

(** An optional parameter of type [T | undefined] as a JavaScript value. *)
Definition opt_val {A} (f : A -> JsVal) (o : option A) : JsVal :=
  match o with
  | Some a => f a
  | None => JUndefined
  end.

Definition JStrs (l : list jsstring) : JsVal := JArr (JStr <$> l).

(** Truthiness of the values the handlers test: [if (x)], [!x], [x || y]. *)
Definition truthy_string (o : option jsstring) : bool :=
  match o with
  | Some (_ :: _) => true
  | _ => false
  end.

Definition truthy_number (q : Q) : bool := negb (Qeq_bool q 0).

(** ** Thrown values, completions and the monad of handlers *)

Inductive Thrown : Type :=
| ErrorObj (message : jsstring)   (* an instance of Error *)
| NonError (v : JsVal).           (* any other thrown value *)

(** [error instanceof Error ? error.message : 'Unknown error'] *)
Definition error_message (error : Thrown) : jsstring :=
  match error with
  | ErrorObj message => message
  | NonError _ => js "Unknown error"
  end.

Inductive Completion (A : Type) : Type :=
| Normal (a : A)
| Throw (e : Thrown).
Arguments Normal {A} a.
Arguments Throw {A} e.

(** *** The backend client boundary *)

Inductive Resource := objects_ | media_ | objectTypes_ | ai_.
Inductive Method :=
| find | findOne | insertOne | updateOne | deleteOne
| generateText | generateImage | generateVideo.
Inductive Refiner := props_ | limit_ | skip_ | sort_ | status_ | depth_.

(** One awaited request of the SDK: [cosmic.<resource>.<method>(args)]
    followed by the chained refiners, in the order they were applied. *)
Record BackendCall := mkCall {
  resource : Resource;
  method : Method;
  args : list JsVal;
  chain : list (Refiner * JsVal)
}.

(** [src/types.ts], [CosmicConfig] *)
Record CosmicConfig := mkConfig {
  bucketSlug : jsstring;
  readKey : jsstring;
  writeKey : option jsstring
}.

(** The SDK client is the configuration it was created from. *)
Definition CosmicClient := CosmicConfig.
Definition createBucketClient (config : CosmicConfig) : CosmicClient := config.

(** The process state a call can read or change: [process.env], the
    module-level [cosmicClient] of [client.ts], and the requests the
    backend client has performed so far. *)
Record World := mkWorld {
  env : gmap jsstring jsstring;
  cosmicClient : option CosmicClient;
  calls : list BackendCall
}.

(** What lies outside the repository: the backend behind the SDK (what
    an awaited request resolves to, or is rejected with, given the
    requests made before); [JSON.stringify(value, null, 2)] on a value
    other than [undefined] (its text, or what it throws); the message zod
    puts in the [ZodError] of a schema on an input; and the stack of the
    runtime, as the number of nested metafields that it lets a parse
    descend. *)
Record Externals := mkExternals {
  backend : list BackendCall -> BackendCall -> Completion JsVal;
  stringify : JsVal -> Completion jsstring;
  zodMessage : jsstring -> JsVal -> jsstring;
  stack : nat
}.

Definition M (A : Type) : Type := World -> Completion A * World.

Definition ret {A} (a : A) : M A := fun w => (Normal a, w).

Definition throw {A} (e : Thrown) : M A := fun w => (Throw e, w).

Definition bind {A B} (m : M A) (k : A -> M B) : M B :=
  fun w =>
    match m w with
    | (Normal a, w') => k a w'
    | (Throw e, w') => (Throw e, w')
    end.

(** [try { body } catch (error) { handler }] *)
Definition try_catch {A} (body : M A) (handler : Thrown -> M A) : M A :=
  fun w =>
    match body w with
    | (Normal a, w') => (Normal a, w')
    | (Throw e, w') => handler e w'
    end.

Definition gets {A} (f : World -> A) : M A := fun w => (Normal (f w), w).

(** A step that neither reads nor changes the state. *)
Definition lift {A} (c : Completion A) : M A := fun w => (c, w).

Declare Scope js_scope.
Delimit Scope js_scope with js.
Notation "x <- m ;; k" := (bind m (fun x => k))
  (at level 100, m at next level, right associativity) : js_scope.
Notation "m ;;; k" := (bind m (fun _ => k))
  (at level 100, right associativity) : js_scope.
Open Scope js_scope.

(** ** [src/client.ts] *)

Module client.

Definition getConfig : M CosmicConfig :=
  bucketSlug <- gets (fun w => env w !! js "COSMIC_BUCKET_SLUG") ;;
  readKey <- gets (fun w => env w !! js "COSMIC_READ_KEY") ;;
  writeKey <- gets (fun w => env w !! js "COSMIC_WRITE_KEY") ;;
  match bucketSlug with
  | Some (c :: s) =>
      match readKey with
      | Some (c' :: s') => ret (mkConfig (c :: s) (c' :: s') writeKey)
      | _ => throw (ErrorObj (js "COSMIC_READ_KEY environment variable is required"))
      end
  | _ => throw (ErrorObj (js "COSMIC_BUCKET_SLUG environment variable is required"))
  end.

Definition getCosmicClient : M CosmicClient :=
  memo <- gets cosmicClient ;;
  match memo with
  | Some c => ret c
  | None =>
      config <- getConfig ;;
      let c := createBucketClient
                 (mkConfig (bucketSlug config) (readKey config) (writeKey config)) in
      fun w => (Normal c, mkWorld (env w) (Some c) (calls w))
  end.

Definition hasWriteAccess : M bool :=
  gets (fun w => truthy_string (env w !! js "COSMIC_WRITE_KEY")).

Definition requireWriteAccess : M unit :=
  ok <- hasWriteAccess ;;
  if negb ok
  then throw (ErrorObj
         (js "Write operations require COSMIC_WRITE_KEY environment variable to be set"))
  else ret tt.

Definition resetClient : M unit :=
  fun w => (Normal tt, mkWorld (env w) None (calls w)).

End client.

(** ** [src/types.ts]: the result envelope *)

(** A content block; its [type] is the constant ['text']. Its [text] is
    declared a string, and holds what the handler puts there: a string, or
    the [undefined] that [JSON.stringify] returns for [undefined]
    ([None]). *)
Record ContentBlock := mkContent { text : option jsstring }.

Definition mkText (t : jsstring) : ContentBlock := mkContent (Some t).

(** [ToolResult]; [isError?: boolean] is absent on success. *)
Record ToolResult := mkResult {
  content : list ContentBlock;
  isError : option bool
}.

Definition success (t : option jsstring) : ToolResult :=
  mkResult [mkContent t] None.
Definition failure (t : jsstring) : ToolResult := mkResult [mkText t] (Some true).

(** A tool descriptor of a catalog: its name, its description, and of its
    declarative [inputSchema] the declared property names and the
    [required] list. *)
Record Tool := mkTool {
  name : jsstring;
  description : jsstring;
  properties : list jsstring;
  required : list jsstring
}.

(** ** The SDK request builders used by the handlers *)

Definition sdk (r : Resource) (m : Method) (a : list JsVal) : BackendCall :=
  mkCall r m a [].

(** [request = request.<refiner>(value)] *)
Definition refine (rq : BackendCall) (r : Refiner) (v : JsVal) : BackendCall :=
  mkCall (resource rq) (method rq) (args rq) (chain rq ++ [(r, v)]).

(** [await request]: the request is performed through the client, recorded,
    and answered (or rejected) by the backend. *)
Definition await (X : Externals) (cosmic : CosmicClient) (rq : BackendCall)
  : M JsVal :=
  fun w => (backend X (calls w) rq, mkWorld (env w) (cosmicClient w) (calls w ++ [rq])).

(** [response.k], for the properties that the handlers read of an answer:
    a [TypeError] on [null] and on [undefined], with the message of the
    engine of Node; the property of an object, [undefined] when it has
    none of that name; and [undefined] on a primitive, an array or a
    [Buffer], which have no property of any of these names. *)
Definition member (response : JsVal) (k : jsstring) : M JsVal :=
  match response with
  | JUndefined =>
      throw (ErrorObj (js "Cannot read properties of undefined (reading '"
                       ++ k ++ js "')"))
  | JNull =>
      throw (ErrorObj (js "Cannot read properties of null (reading '"
                       ++ k ++ js "')"))
  | JObj o => ret (prop o k)
  | _ => ret JUndefined
  end.

(** [JSON.stringify(value, null, 2)]: [undefined] for [undefined]; for any
    other value the text, unless the serialisation throws. *)
Definition JSON_stringify (X : Externals) (value : JsVal) : M (option jsstring) :=
  match value with
  | JUndefined => ret None
  | _ => lift (match stringify X value with
               | Normal t => Normal (Some t)
               | Throw e => Throw e
               end)
  end.

(** An object literal [{ k1: v1, ..., kn: vn }]. *)
Definition obj (fields : list (jsstring * JsVal)) : gmap jsstring JsVal :=
  list_to_map fields.

(** ** zod, as far as the schemas of the tools use it

    A schema is its [safeParse]: the parsed output, or [None] where zod
    reports issues. Objects strip the keys that the shape does not declare;
    a declared key is kept when its parsed value is defined. The arguments
    of a call arrive as JSON, so they hold no [Buffer]. *)

Module z.

Definition string (v : JsVal) : option jsstring :=
  match v with JStr s => Some s | _ => None end.

Definition boolean (v : JsVal) : option bool :=
  match v with JBool b => Some b | _ => None end.

Definition number (v : JsVal) : option Q :=
  match v with JNum q => Some q | _ => None end.

(** [.min(lo)] and [.max(hi)] on a number schema *)
Definition min (lo : Q) (s : JsVal -> option Q) (v : JsVal) : option Q :=
  q ← s v; if Qle_bool lo q then Some q else None.

Definition max (hi : Q) (s : JsVal -> option Q) (v : JsVal) : option Q :=
  q ← s v; if Qle_bool q hi then Some q else None.

Definition enum {A} (values : list (jsstring * A)) (v : JsVal) : option A :=
  match v with
  | JStr s => snd <$> List.find (fun p => bool_decide (fst p = s)) values
  | _ => None
  end.

Definition array {A} (elt : JsVal -> option A) (v : JsVal) : option (list A) :=
  match v with JArr l => mapM elt l | _ => None end.

(** [z.record(z.unknown())]: every key of the object is kept with its
    value as it is, except a key named [__proto__], which zod leaves out
    of the output. *)
Definition record (v : JsVal) : option (gmap jsstring JsVal) :=
  match v with JObj o => Some (delete (js "__proto__") o) | _ => None end.

Definition unknown (v : JsVal) : option JsVal := Some v.

Definition optional {A} (s : JsVal -> option A) (v : JsVal) : option (option A) :=
  match v with
  | JUndefined => Some None
  | _ => Some <$> s v
  end.

(** [.default(d)] around an optional schema *)
Definition default {A} (d : A) (s : JsVal -> option (option A)) (v : JsVal)
  : option A :=
  match v with
  | JUndefined => Some d
  | _ => match s v with Some (Some a) => Some a | _ => None end
  end.

Definition object {A} (shape : gmap jsstring JsVal -> option A) (v : JsVal)
  : option A :=
  match v with JObj o => shape o | _ => None end.

(** A parsed property of an output object: set when it is defined. *)
Definition keep (k : jsstring) (v : JsVal) (o : gmap jsstring JsVal)
  : gmap jsstring JsVal :=
  match v with
  | JUndefined => o
  | _ => <[k := v]> o
  end.

(** [schema.parse(args)]: the output, or a thrown [ZodError]. *)
Definition parse {A} (X : Externals) (schema : jsstring)
    (safeParse : JsVal -> option A) (v : JsVal) : Completion A :=
  match safeParse v with
  | Some a => Normal a
  | None => Throw (ErrorObj (zodMessage X schema v))
  end.

End z.

(** The publication status enumerations of the schemas. *)
Inductive Status := published | draft.
Inductive StatusAny := published' | draft' | any.

Definition Status_str (s : Status) : jsstring :=
  match s with published => js "published" | draft => js "draft" end.

Definition StatusAny_str (s : StatusAny) : jsstring :=
  match s with
  | published' => js "published"
  | draft' => js "draft"
  | any => js "any"
  end.

(** ** [src/tools/objects.ts] *)

Module objects.

Module listObjectsSchema.
Record infer := mk {
  type : option jsstring;
  status : StatusAny;
  limit : Q;
  skip : Q;
  props : option (list jsstring);
  sort : option jsstring;
  depth : option Q;
  query : option (gmap jsstring JsVal)
}.
Definition safeParse : JsVal -> option infer :=
  z.object (fun o =>
    type ← z.optional z.string (prop o (js "type"));
    status ← z.default any
               (z.optional (z.enum [(js "published", published');
                                    (js "draft", draft'); (js "any", any)]))
               (prop o (js "status"));
    limit ← z.default 10%Q (z.optional (z.max 100 (z.min 1 z.number)))
              (prop o (js "limit"));
    skip ← z.default 0%Q (z.optional (z.min 0 z.number)) (prop o (js "skip"));
    props ← z.optional (z.array z.string) (prop o (js "props"));
    sort ← z.optional z.string (prop o (js "sort"));
    depth ← z.optional (z.max 3 (z.min 0 z.number)) (prop o (js "depth"));
    query ← z.optional z.record (prop o (js "query"));
    Some (mk type status limit skip props sort depth query)).
End listObjectsSchema.

Module getObjectSchema.
Record infer := mk {
  id : option jsstring;
  slug : option jsstring;
  type : option jsstring;
  props : option (list jsstring);
  status : StatusAny
}.
Definition safeParse : JsVal -> option infer :=
  z.object (fun o =>
    id ← z.optional z.string (prop o (js "id"));
    slug ← z.optional z.string (prop o (js "slug"));
    type ← z.optional z.string (prop o (js "type"));
    props ← z.optional (z.array z.string) (prop o (js "props"));
    status ← z.default any
               (z.optional (z.enum [(js "published", published');
                                    (js "draft", draft'); (js "any", any)]))
               (prop o (js "status"));
    Some (mk id slug type props status)).
End getObjectSchema.

Module createObjectSchema.
Record infer := mk {
  title : jsstring;
  type : jsstring;
  slug : option jsstring;
  content : option jsstring;
  status : Status;
  metadata : option (gmap jsstring JsVal);
  locale : option jsstring
}.
Definition safeParse : JsVal -> option infer :=
  z.object (fun o =>
    title ← z.string (prop o (js "title"));
    type ← z.string (prop o (js "type"));
    slug ← z.optional z.string (prop o (js "slug"));
    content ← z.optional z.string (prop o (js "content"));
    status ← z.default draft
               (z.optional (z.enum [(js "published", published);
                                    (js "draft", draft)]))
               (prop o (js "status"));
    metadata ← z.optional z.record (prop o (js "metadata"));
    locale ← z.optional z.string (prop o (js "locale"));
    Some (mk title type slug content status metadata locale)).
End createObjectSchema.

Module updateObjectSchema.
Record infer := mk {
  id : jsstring;
  title : option jsstring;
  slug : option jsstring;
  content : option jsstring;
  status : option Status;
  metadata : option (gmap jsstring JsVal)
}.
Definition safeParse : JsVal -> option infer :=
  z.object (fun o =>
    id ← z.string (prop o (js "id"));
    title ← z.optional z.string (prop o (js "title"));
    slug ← z.optional z.string (prop o (js "slug"));
    content ← z.optional z.string (prop o (js "content"));
    status ← z.optional (z.enum [(js "published", published);
                                 (js "draft", draft)])
               (prop o (js "status"));
    metadata ← z.optional z.record (prop o (js "metadata"));
    Some (mk id title slug content status metadata)).
End updateObjectSchema.

Module deleteObjectSchema.
Record infer := mk {
  id : jsstring;
  trigger_webhook : bool
}.
Definition safeParse : JsVal -> option infer :=
  z.object (fun o =>
    id ← z.string (prop o (js "id"));
    trigger_webhook ← z.default true (z.optional z.boolean)
                        (prop o (js "trigger_webhook"));
    Some (mk id trigger_webhook)).
End deleteObjectSchema.

Definition objectTools : list Tool :=
  [mkTool (js "cosmic_objects_list")
     (js "List objects from the Cosmic bucket with optional filters for type, status, and pagination. Returns an array of objects with their metadata.")
     [js "type"; js "status"; js "limit"; js "skip"; js "props"; js "sort"; js "depth"; js "query"]
     [];
   mkTool (js "cosmic_objects_get")
     (js "Get a single object by ID or by slug+type. Returns the full object with all metadata.")
     [js "id"; js "slug"; js "type"; js "props"; js "status"]
     [];
   mkTool (js "cosmic_objects_create")
     (js "Create a new object in the Cosmic bucket. Requires write access.")
     [js "title"; js "type"; js "slug"; js "content"; js "status"; js "metadata"; js "locale"]
     [js "title"; js "type"];
   mkTool (js "cosmic_objects_update")
     (js "Update an existing object by ID. Only provided fields will be updated. Requires write access.")
     [js "id"; js "title"; js "slug"; js "content"; js "status"; js "metadata"]
     [js "id"];
   mkTool (js "cosmic_objects_delete")
     (js "Delete an object by ID. This action is permanent. Requires write access.")
     [js "id"; js "trigger_webhook"]
     [js "id"]].

Section handlers.
Context (X : Externals).

Definition handleListObjects (params : listObjectsSchema.infer) : M ToolResult :=
  try_catch
    (cosmic <- client.getCosmicClient ;;
     let query := default ∅ (listObjectsSchema.query params) in
     let query := match listObjectsSchema.type params with
                  | Some (c :: s) => <[js "type" := JStr (c :: s)]> query
                  | _ => query
                  end in
     let request := sdk objects_ find [JObj query] in
     let request := match listObjectsSchema.props params with
                    | Some p => refine request props_ (JStrs p)
                    | None => request
                    end in
     let request := if truthy_number (listObjectsSchema.limit params)
                    then refine request limit_ (JNum (listObjectsSchema.limit params))
                    else request in
     let request := if truthy_number (listObjectsSchema.skip params)
                    then refine request skip_ (JNum (listObjectsSchema.skip params))
                    else request in
     let request := match listObjectsSchema.sort params with
                    | Some (c :: s) => refine request sort_ (JStr (c :: s))
                    | _ => request
                    end in
     let request := if truthy_string (Some (StatusAny_str (listObjectsSchema.status params)))
                    then refine request status_
                           (JStr (StatusAny_str (listObjectsSchema.status params)))
                    else request in
     let request := match listObjectsSchema.depth params with
                    | Some d => refine request depth_ (JNum d)
                    | None => request
                    end in
     response <- await X cosmic request ;;
     objects <- member response (js "objects") ;;
     total <- member response (js "total") ;;
     json <- JSON_stringify X (JObj (obj
            [(js "objects", objects);
             (js "total", total)])) ;;
     ret (success json))
    (fun error =>
       let message := error_message error in
       ret (failure (js "Error listing objects: " ++ message))).

Definition handleGetObject (params : getObjectSchema.infer) : M ToolResult :=
  try_catch
    (if negb (truthy_string (getObjectSchema.id params))
        && negb (truthy_string (getObjectSchema.slug params))
     then ret (failure (js "Error: Either id or slug must be provided"))
     else
     if truthy_string (getObjectSchema.slug params)
        && negb (truthy_string (getObjectSchema.type params))
     then ret (failure (js "Error: type is required when using slug to get an object"))
     else
     cosmic <- client.getCosmicClient ;;
     let request :=
       match getObjectSchema.id params with
       | Some (c :: s) => sdk objects_ findOne [JObj (obj [(js "id", JStr (c :: s))])]
       | _ => sdk objects_ findOne
                [JObj (obj [(js "type", opt_val JStr (getObjectSchema.type params));
                            (js "slug", opt_val JStr (getObjectSchema.slug params))])]
       end in
     let request := match getObjectSchema.props params with
                    | Some p => refine request props_ (JStrs p)
                    | None => request
                    end in
     let request := if truthy_string (Some (StatusAny_str (getObjectSchema.status params)))
                    then refine request status_
                           (JStr (StatusAny_str (getObjectSchema.status params)))
                    else request in
     response <- await X cosmic request ;;
     object <- member response (js "object") ;;
     json <- JSON_stringify X object ;;
     ret (success json))
    (fun error =>
       let message := error_message error in
       ret (failure (js "Error getting object: " ++ message))).

Definition handleCreateObject (params : createObjectSchema.infer) : M ToolResult :=
  try_catch
    (client.requireWriteAccess ;;;
     cosmic <- client.getCosmicClient ;;
     response <- await X cosmic (sdk objects_ insertOne [JObj (obj
       [(js "title", JStr (createObjectSchema.title params));
        (js "type", JStr (createObjectSchema.type params));
        (js "slug", opt_val JStr (createObjectSchema.slug params));
        (js "content", opt_val JStr (createObjectSchema.content params));
        (js "status", JStr (Status_str (createObjectSchema.status params)));
        (js "metadata", opt_val JObj (createObjectSchema.metadata params));
        (js "locale", opt_val JStr (createObjectSchema.locale params))])]) ;;
     object <- member response (js "object") ;;
     json <- JSON_stringify X (JObj (obj
            [(js "message", JStr (js "Object created successfully"));
             (js "object", object)])) ;;
     ret (success json))
    (fun error =>
       let message := error_message error in
       ret (failure (js "Error creating object: " ++ message))).

Definition handleUpdateObject (params : updateObjectSchema.infer) : M ToolResult :=
  try_catch
    (client.requireWriteAccess ;;;
     cosmic <- client.getCosmicClient ;;
     let updates : gmap jsstring JsVal := ∅ in
     let updates := match updateObjectSchema.title params with
                    | Some v => <[js "title" := JStr v]> updates
                    | None => updates
                    end in
     let updates := match updateObjectSchema.slug params with
                    | Some v => <[js "slug" := JStr v]> updates
                    | None => updates
                    end in
     let updates := match updateObjectSchema.content params with
                    | Some v => <[js "content" := JStr v]> updates
                    | None => updates
                    end in
     let updates := match updateObjectSchema.status params with
                    | Some v => <[js "status" := JStr (Status_str v)]> updates
                    | None => updates
                    end in
     let updates := match updateObjectSchema.metadata params with
                    | Some v => <[js "metadata" := JObj v]> updates
                    | None => updates
                    end in
     response <- await X cosmic
       (sdk objects_ updateOne [JStr (updateObjectSchema.id params); JObj updates]) ;;
     object <- member response (js "object") ;;
     json <- JSON_stringify X (JObj (obj
            [(js "message", JStr (js "Object updated successfully"));
             (js "object", object)])) ;;
     ret (success json))
    (fun error =>
       let message := error_message error in
       ret (failure (js "Error updating object: " ++ message))).

Definition handleDeleteObject (params : deleteObjectSchema.infer) : M ToolResult :=
  try_catch
    (client.requireWriteAccess ;;;
     cosmic <- client.getCosmicClient ;;
     _ <- await X cosmic
       (sdk objects_ deleteOne [JStr (deleteObjectSchema.id params);
                                JBool (deleteObjectSchema.trigger_webhook params)]) ;;
     json <- JSON_stringify X (JObj (obj
            [(js "message", JStr (js "Object deleted successfully"));
             (js "id", JStr (deleteObjectSchema.id params))])) ;;
     ret (success json))
    (fun error =>
       let message := error_message error in
       ret (failure (js "Error deleting object: " ++ message))).

End handlers.

End objects.

(** ** [src/tools/media.ts] *)

Module media.

Module listMediaSchema.
Record infer := mk {
  folder : option jsstring;
  limit : Q;
  skip : Q;
  props : option (list jsstring)
}.
Definition safeParse : JsVal -> option infer :=
  z.object (fun o =>
    folder ← z.optional z.string (prop o (js "folder"));
    limit ← z.default 10%Q (z.optional (z.max 100 (z.min 1 z.number)))
              (prop o (js "limit"));
    skip ← z.default 0%Q (z.optional (z.min 0 z.number)) (prop o (js "skip"));
    props ← z.optional (z.array z.string) (prop o (js "props"));
    Some (mk folder limit skip props)).
End listMediaSchema.

Module getMediaSchema.
Record infer := mk {
  id : jsstring;
  props : option (list jsstring)
}.
Definition safeParse : JsVal -> option infer :=
  z.object (fun o =>
    id ← z.string (prop o (js "id"));
    props ← z.optional (z.array z.string) (prop o (js "props"));
    Some (mk id props)).
End getMediaSchema.

Module uploadMediaSchema.
Record infer := mk {
  media : jsstring;
  folder : option jsstring;
  metadata : option (gmap jsstring JsVal);
  trigger_webhook : bool
}.
Definition safeParse : JsVal -> option infer :=
  z.object (fun o =>
    media ← z.string (prop o (js "media"));
    folder ← z.optional z.string (prop o (js "folder"));
    metadata ← z.optional z.record (prop o (js "metadata"));
    trigger_webhook ← z.default true (z.optional z.boolean)
                        (prop o (js "trigger_webhook"));
    Some (mk media folder metadata trigger_webhook)).
End uploadMediaSchema.

Module deleteMediaSchema.
Record infer := mk {
  id : jsstring;
  trigger_webhook : bool
}.
Definition safeParse : JsVal -> option infer :=
  z.object (fun o =>
    id ← z.string (prop o (js "id"));
    trigger_webhook ← z.default true (z.optional z.boolean)
                        (prop o (js "trigger_webhook"));
    Some (mk id trigger_webhook)).
End deleteMediaSchema.

(** *** The data-URI test of [handleUploadMedia] *)

(** [s.startsWith(p)], which is also how a literal of a pattern is
    consumed: the rest of [s] after [p], when [s] starts with [p]. *)
Fixpoint after (p s : jsstring) : option jsstring :=
  match p, s with
  | [], _ => Some s
  | a :: p', b :: s' => if N.eqb a b then after p' s' else None
  | _ :: _, [] => None
  end.

Definition startsWith (s p : jsstring) : bool :=
  match after p s with Some _ => true | None => false end.

Definition semicolon : N := 59.

(** The line terminators, which [.] does not match: LF, CR, LS and PS. *)
Definition lineTerminator (c : N) : bool :=
  N.eqb c 10 || N.eqb c 13 || N.eqb c 8232 || N.eqb c 8233.

(** [[^;]+] is greedy and cannot step over a [;]: it takes the longest
    run of other code units. *)
Fixpoint run (s : jsstring) : jsstring * jsstring :=
  match s with
  | [] => ([], [])
  | c :: s' =>
      if N.eqb c semicolon then ([], s)
      else let (r, t) := run s' in (c :: r, t)
  end.

(** [media.match(/^data:([^;]+);base64,(.+)$/)]: the two groups. *)
Definition matchDataUri (s : jsstring) : option (jsstring * jsstring) :=
  match after (js "data:") s with
  | None => None
  | Some s1 =>
      match run s1 with
      | ([], _) => None
      | (mime, s2) =>
          match after (js ";base64,") s2 with
          | None => None
          | Some [] => None
          | Some data =>
              if forallb (fun c => negb (lineTerminator c)) data
              then Some (mime, data)
              else None
          end
      end
  end.

(** *** [Buffer.from(data, 'base64')]

    The decoder of the runtime reads each code unit of the string through
    its low byte. Both base64 alphabets are accepted, a byte outside them
    is skipped, decoding stops at the first [=], and trailing bits that
    do not fill a byte are dropped. *)

Definition lowByte (c : N) : N := N.land c 255.

Definition unbase64 (c : N) : option N :=
  if N.leb 65 c && N.leb c 90 then Some (c - 65)%N
  else if N.leb 97 c && N.leb c 122 then Some (c - 71)%N
  else if N.leb 48 c && N.leb c 57 then Some (c + 4)%N
  else if N.eqb c 43 || N.eqb c 45 then Some 62%N
  else if N.eqb c 47 || N.eqb c 95 then Some 63%N
  else None.

Fixpoint sextets (s : jsstring) : list N :=
  match s with
  | [] => []
  | c :: s' =>
      if N.eqb (lowByte c) 61 then []
      else match unbase64 (lowByte c) with
           | Some v => v :: sextets s'
           | None => sextets s'
           end
  end.

Fixpoint octets (l : list N) : list N :=
  match l with
  | a :: b :: c :: d :: l' =>
      (a * 4 + b / 16)%N :: ((b mod 16) * 16 + c / 4)%N
        :: ((c mod 4) * 64 + d)%N :: octets l'
  | [a; b; c] => [(a * 4 + b / 16)%N; ((b mod 16) * 16 + c / 4)%N]
  | [a; b] => [(a * 4 + b / 16)%N]
  | _ => []
  end.

Definition Buffer_from_base64 (data : jsstring) : list N :=
  octets (sextets data).

Definition mediaTools : list Tool :=
  [mkTool (js "cosmic_media_list")
     (js "List media files from the Cosmic bucket with optional folder filter and pagination.")
     [js "folder"; js "limit"; js "skip"; js "props"]
     [];
   mkTool (js "cosmic_media_get")
     (js "Get details of a single media file by ID. Returns the full media object with URL and metadata.")
     [js "id"; js "props"]
     [js "id"];
   mkTool (js "cosmic_media_upload")
     (js "Upload a media file to the Cosmic bucket from a URL or base64-encoded data. Requires write access.")
     [js "media"; js "folder"; js "metadata"; js "trigger_webhook"]
     [js "media"];
   mkTool (js "cosmic_media_delete")
     (js "Delete a media file by ID. This action is permanent. Requires write access.")
     [js "id"; js "trigger_webhook"]
     [js "id"]].

Section handlers.
Context (X : Externals).

Definition handleListMedia (params : listMediaSchema.infer) : M ToolResult :=
  try_catch
    (cosmic <- client.getCosmicClient ;;
     let query : gmap jsstring JsVal := ∅ in
     let query := match listMediaSchema.folder params with
                  | Some (c :: s) => <[js "folder" := JStr (c :: s)]> query
                  | _ => query
                  end in
     let request := sdk media_ find [JObj query] in
     let request := match listMediaSchema.props params with
                    | Some p => refine request props_ (JStrs p)
                    | None => request
                    end in
     let request := if truthy_number (listMediaSchema.limit params)
                    then refine request limit_ (JNum (listMediaSchema.limit params))
                    else request in
     let request := if truthy_number (listMediaSchema.skip params)
                    then refine request skip_ (JNum (listMediaSchema.skip params))
                    else request in
     response <- await X cosmic request ;;
     media <- member response (js "media") ;;
     total <- member response (js "total") ;;
     json <- JSON_stringify X (JObj (obj
            [(js "media", media);
             (js "total", total)])) ;;
     ret (success json))
    (fun error =>
       let message := error_message error in
       ret (failure (js "Error listing media: " ++ message))).

Definition handleGetMedia (params : getMediaSchema.infer) : M ToolResult :=
  try_catch
    (cosmic <- client.getCosmicClient ;;
     let request :=
       sdk media_ findOne [JObj (obj [(js "id", JStr (getMediaSchema.id params))])] in
     let request := match getMediaSchema.props params with
                    | Some p => refine request props_ (JStrs p)
                    | None => request
                    end in
     response <- await X cosmic request ;;
     media <- member response (js "media") ;;
     json <- JSON_stringify X media ;;
     ret (success json))
    (fun error =>
       let message := error_message error in
       ret (failure (js "Error getting media: " ++ message))).

(** [mediaInput] of [handleUploadMedia]: the decoded bytes of an inline
    payload, the string itself for a URL, and [None] where the handler
    returns its format error. *)
Definition mediaInput (media : jsstring) : option JsVal :=
  if startsWith media (js "data:")
  then match matchDataUri media with
       | None => None
       | Some (_, data) => Some (JBuffer (Buffer_from_base64 data))
       end
  else Some (JStr media).

Definition handleUploadMedia (params : uploadMediaSchema.infer) : M ToolResult :=
  try_catch
    (client.requireWriteAccess ;;;
     cosmic <- client.getCosmicClient ;;
     match mediaInput (uploadMediaSchema.media params) with
     | None =>
         ret (failure (js
           "Error: Invalid base64 data URI format. Expected format: data:<mimetype>;base64,<data>"))
     | Some mediaInput =>
         response <- await X cosmic (sdk media_ insertOne [JObj (obj
           [(js "media", mediaInput);
            (js "folder", opt_val JStr (uploadMediaSchema.folder params));
            (js "metadata", opt_val JObj (uploadMediaSchema.metadata params));
            (js "trigger_webhook",
               JBool (uploadMediaSchema.trigger_webhook params))])]) ;;
         media <- member response (js "media") ;;
         json <- JSON_stringify X (JObj (obj
                [(js "message", JStr (js "Media uploaded successfully"));
                 (js "media", media)])) ;;
         ret (success json)
     end)
    (fun error =>
       let message := error_message error in
       ret (failure (js "Error uploading media: " ++ message))).

Definition handleDeleteMedia (params : deleteMediaSchema.infer) : M ToolResult :=
  try_catch
    (client.requireWriteAccess ;;;
     cosmic <- client.getCosmicClient ;;
     _ <- await X cosmic
       (sdk media_ deleteOne [JStr (deleteMediaSchema.id params);
                              JBool (deleteMediaSchema.trigger_webhook params)]) ;;
     json <- JSON_stringify X (JObj (obj
            [(js "message", JStr (js "Media deleted successfully"));
             (js "id", JStr (deleteMediaSchema.id params))])) ;;
     ret (success json))
    (fun error =>
       let message := error_message error in
       ret (failure (js "Error deleting media: " ++ message))).

End handlers.

End media.

(** ** [src/tools/object-types.ts] *)

Module objectTypes.

Inductive MetafieldType :=
| text_ | textarea | html_textarea | markdown | number_ | date | switch
| select_dropdown | radio_buttons | check_boxes | file | object_ | objects_'
| repeater | parent.

Definition metafieldTypes : list (jsstring * MetafieldType) :=
  [(js "text", text_); (js "textarea", textarea);
   (js "html-textarea", html_textarea); (js "markdown", markdown);
   (js "number", number_); (js "date", date); (js "switch", switch);
   (js "select-dropdown", select_dropdown);
   (js "radio-buttons", radio_buttons); (js "check-boxes", check_boxes);
   (js "file", file); (js "object", object_); (js "objects", objects_');
   (js "repeater", repeater); (js "parent", parent)].

(** An entry of [options]: [z.object({ key: z.string(), value: z.string() })] *)
Definition metafieldOption : JsVal -> option JsVal :=
  z.object (fun o =>
    key ← z.string (prop o (js "key"));
    value ← z.string (prop o (js "value"));
    Some (JObj (obj [(js "key", JStr key); (js "value", JStr value)]))).

(** [metafieldSchema], recursive through [children] ([z.lazy]): what the
    schema accepts, with the output, level by level. Its output is typed
    [unknown], so it stays a JavaScript value. (The stack that a parse
    needs for the recursion is the matter of [levels] and [parse]
    below.) *)
Fixpoint metafieldSchema (v : JsVal) : option JsVal :=
  match v with
  | JObj o =>
      key ← z.string (prop o (js "key"));
      title ← z.string (prop o (js "title"));
      _ ← z.enum metafieldTypes (prop o (js "type"));
      required ← z.optional z.boolean (prop o (js "required"));
      value ← z.optional z.unknown (prop o (js "value"));
      options ← z.optional (z.array metafieldOption) (prop o (js "options"));
      children ←
        map_fold (fun k c acc =>
                    if bool_decide (k = js "children")
                    then match c with
                         | JUndefined => Some JUndefined
                         | JArr l => JArr <$> mapM metafieldSchema l
                         | _ => None
                         end
                    else acc)
                 (Some JUndefined) o;
      object_type ← z.optional z.string (prop o (js "object_type"));
      Some (JObj
        (z.keep (js "key") (JStr key)
        (z.keep (js "title") (JStr title)
        (z.keep (js "type") (prop o (js "type"))
        (z.keep (js "required") (opt_val JBool required)
        (z.keep (js "value") (opt_val (fun x => x) value)
        (z.keep (js "options") (opt_val JArr options)
        (z.keep (js "children") children
        (z.keep (js "object_type") (opt_val JStr object_type) ∅)))))))))
  | _ => None
  end.

(** The recursion of [z.lazy] runs on the stack of the runtime, and it
    does so whatever the verdict on the metafields is: a parse visits every
    element of every [children] array. [levels v] is how deep it descends
    on a metafield [v]: one level for an object, and below it the levels
    of its deepest child. *)
Fixpoint levels (v : JsVal) : nat :=
  match v with
  | JObj o =>
      S (map_fold (fun k c acc =>
                     if bool_decide (k = js "children")
                     then match c with
                          | JArr l => foldr (fun c' n => Nat.max (levels c') n) 0 l
                          | _ => 0
                          end
                     else acc)
           0 o)
  | _ => 0
  end.

(** How deep the parse of the arguments of a tool descends into their
    [metafields]. *)
Definition descent (args : JsVal) : nat :=
  match args with
  | JObj o =>
      match prop o (js "metafields") with
      | JArr l => foldr (fun c n => Nat.max (levels c) n) 0 l
      | _ => 0
      end
  | _ => 0
  end.

(** [schema.parse(args)] for a schema that holds [metafieldSchema]: when
    the parse descends deeper than the stack lets it, what is thrown is
    the [RangeError] of the runtime, with the message of the engine of
    Node, not a [ZodError]; otherwise it is the parse of any schema. *)
Definition parse {A} (X : Externals) (schema : jsstring)
    (safeParse : JsVal -> option A) (args : JsVal) : Completion A :=
  if stack X <? descent args
  then Throw (ErrorObj (js "Maximum call stack size exceeded"))
  else z.parse X schema safeParse args.

(** [z.object({ slug_field: z.boolean().optional(),
                content_editor: z.boolean().optional() })] *)
Definition optionsSchema : JsVal -> option (gmap jsstring JsVal) :=
  z.object (fun o =>
    slug_field ← z.optional z.boolean (prop o (js "slug_field"));
    content_editor ← z.optional z.boolean (prop o (js "content_editor"));
    Some (z.keep (js "slug_field") (opt_val JBool slug_field)
         (z.keep (js "content_editor") (opt_val JBool content_editor) ∅))).

Module listObjectTypesSchema.
Record infer := mk { }.
Definition safeParse : JsVal -> option infer :=
  z.object (fun o => Some mk).
End listObjectTypesSchema.

Module getObjectTypeSchema.
Record infer := mk { slug : jsstring }.
Definition safeParse : JsVal -> option infer :=
  z.object (fun o =>
    slug ← z.string (prop o (js "slug"));
    Some (mk slug)).
End getObjectTypeSchema.

Module createObjectTypeSchema.
Record infer := mk {
  title : jsstring;
  slug : jsstring;
  singular : option jsstring;
  metafields : option (list JsVal);
  options : option (gmap jsstring JsVal)
}.
Definition safeParse : JsVal -> option infer :=
  z.object (fun o =>
    title ← z.string (prop o (js "title"));
    slug ← z.string (prop o (js "slug"));
    singular ← z.optional z.string (prop o (js "singular"));
    metafields ← z.optional (z.array metafieldSchema) (prop o (js "metafields"));
    options ← z.optional optionsSchema (prop o (js "options"));
    Some (mk title slug singular metafields options)).
End createObjectTypeSchema.

Module updateObjectTypeSchema.
Record infer := mk {
  slug : jsstring;
  title : option jsstring;
  singular : option jsstring;
  metafields : option (list JsVal);
  options : option (gmap jsstring JsVal)
}.
Definition safeParse : JsVal -> option infer :=
  z.object (fun o =>
    slug ← z.string (prop o (js "slug"));
    title ← z.optional z.string (prop o (js "title"));
    singular ← z.optional z.string (prop o (js "singular"));
    metafields ← z.optional (z.array metafieldSchema) (prop o (js "metafields"));
    options ← z.optional optionsSchema (prop o (js "options"));
    Some (mk slug title singular metafields options)).
End updateObjectTypeSchema.

Module deleteObjectTypeSchema.
Record infer := mk { slug : jsstring }.
Definition safeParse : JsVal -> option infer :=
  z.object (fun o =>
    slug ← z.string (prop o (js "slug"));
    Some (mk slug)).
End deleteObjectTypeSchema.

Definition objectTypeTools : list Tool :=
  [mkTool (js "cosmic_types_list")
     (js "List all object types in the Cosmic bucket. Returns the schema definitions including metafields for each type.")
     []
     [];
   mkTool (js "cosmic_types_get")
     (js "Get a single object type by slug. Returns the full schema including all metafield definitions.")
     [js "slug"]
     [js "slug"];
   mkTool (js "cosmic_types_create")
     (js "Create a new object type with a custom schema. Define metafields to structure your content. Requires write access.")
     [js "title"; js "slug"; js "singular"; js "metafields"; js "options"]
     [js "title"; js "slug"];
   mkTool (js "cosmic_types_update")
     (js "Update an existing object type schema. Can modify title, metafields, and options. Requires write access.")
     [js "slug"; js "title"; js "singular"; js "metafields"; js "options"]
     [js "slug"];
   mkTool (js "cosmic_types_delete")
     (js "Delete an object type by slug. WARNING: This will also delete all objects of this type. Requires write access.")
     [js "slug"]
     [js "slug"]].

Section handlers.
Context (X : Externals).

Definition handleListObjectTypes : M ToolResult :=
  try_catch
    (cosmic <- client.getCosmicClient ;;
     response <- await X cosmic (sdk objectTypes_ find []) ;;
     object_types <- member response (js "object_types") ;;
     json <- JSON_stringify X (JObj (obj
            [(js "object_types", object_types)])) ;;
     ret (success json))
    (fun error =>
       let message := error_message error in
       ret (failure (js "Error listing object types: " ++ message))).

Definition handleGetObjectType (params : getObjectTypeSchema.infer) : M ToolResult :=
  try_catch
    (cosmic <- client.getCosmicClient ;;
     response <- await X cosmic
       (sdk objectTypes_ findOne [JStr (getObjectTypeSchema.slug params)]) ;;
     object_type <- member response (js "object_type") ;;
     json <- JSON_stringify X object_type ;;
     ret (success json))
    (fun error =>
       let message := error_message error in
       ret (failure (js "Error getting object type: " ++ message))).

Definition handleCreateObjectType (params : createObjectTypeSchema.infer)
  : M ToolResult :=
  try_catch
    (client.requireWriteAccess ;;;
     cosmic <- client.getCosmicClient ;;
     response <- await X cosmic (sdk objectTypes_ insertOne [JObj (obj
       [(js "title", JStr (createObjectTypeSchema.title params));
        (js "slug", JStr (createObjectTypeSchema.slug params));
        (js "singular", opt_val JStr (createObjectTypeSchema.singular params));
        (js "metafields", opt_val JArr (createObjectTypeSchema.metafields params));
        (js "options", opt_val JObj (createObjectTypeSchema.options params))])]) ;;
     object_type <- member response (js "object_type") ;;
     json <- JSON_stringify X (JObj (obj
            [(js "message", JStr (js "Object type created successfully"));
             (js "object_type", object_type)])) ;;
     ret (success json))
    (fun error =>
       let message := error_message error in
       ret (failure (js "Error creating object type: " ++ message))).

Definition handleUpdateObjectType (params : updateObjectTypeSchema.infer)
  : M ToolResult :=
  try_catch
    (client.requireWriteAccess ;;;
     cosmic <- client.getCosmicClient ;;
     let updates : gmap jsstring JsVal := ∅ in
     let updates := match updateObjectTypeSchema.title params with
                    | Some v => <[js "title" := JStr v]> updates
                    | None => updates
                    end in
     let updates := match updateObjectTypeSchema.singular params with
                    | Some v => <[js "singular" := JStr v]> updates
                    | None => updates
                    end in
     let updates := match updateObjectTypeSchema.metafields params with
                    | Some v => <[js "metafields" := JArr v]> updates
                    | None => updates
                    end in
     let updates := match updateObjectTypeSchema.options params with
                    | Some v => <[js "options" := JObj v]> updates
                    | None => updates
                    end in
     response <- await X cosmic
       (sdk objectTypes_ updateOne
          [JStr (updateObjectTypeSchema.slug params); JObj updates]) ;;
     object_type <- member response (js "object_type") ;;
     json <- JSON_stringify X (JObj (obj
            [(js "message", JStr (js "Object type updated successfully"));
             (js "object_type", object_type)])) ;;
     ret (success json))
    (fun error =>
       let message := error_message error in
       ret (failure (js "Error updating object type: " ++ message))).

Definition handleDeleteObjectType (params : deleteObjectTypeSchema.infer)
  : M ToolResult :=
  try_catch
    (client.requireWriteAccess ;;;
     cosmic <- client.getCosmicClient ;;
     _ <- await X cosmic
       (sdk objectTypes_ deleteOne [JStr (deleteObjectTypeSchema.slug params)]) ;;
     json <- JSON_stringify X (JObj (obj
            [(js "message", JStr (js "Object type deleted successfully"));
             (js "slug", JStr (deleteObjectTypeSchema.slug params))])) ;;
     ret (success json))
    (fun error =>
       let message := error_message error in
       ret (failure (js "Error deleting object type: " ++ message))).

End handlers.

End objectTypes.

(** ** [src/tools/ai.ts] *)

Module ai.

Inductive Duration := d4 | d6 | d8.
Inductive Resolution := r720p | r1080p.

Definition Duration_str (d : Duration) : jsstring :=
  match d with d4 => js "4" | d6 => js "6" | d8 => js "8" end.

Definition Resolution_str (r : Resolution) : jsstring :=
  match r with r720p => js "720p" | r1080p => js "1080p" end.

(** [parseInt(s, 10)] on a string of decimal digits. *)
Definition parseInt (s : jsstring) : Q :=
  inject_Z (Z.of_N (fold_left (fun n c => (10 * n + (c - 48))%N) s 0%N)).

Module generateTextSchema.
Record infer := mk {
  prompt : jsstring;
  model : option jsstring;
  max_tokens : option Q
}.
Definition safeParse : JsVal -> option infer :=
  z.object (fun o =>
    prompt ← z.string (prop o (js "prompt"));
    model ← z.optional z.string (prop o (js "model"));
    max_tokens ← z.optional (z.max 100000 (z.min 1 z.number))
                   (prop o (js "max_tokens"));
    Some (mk prompt model max_tokens)).
End generateTextSchema.

Module generateImageSchema.
Record infer := mk {
  prompt : jsstring;
  model : option jsstring;
  folder : option jsstring;
  metadata : option (gmap jsstring JsVal);
  alt_text : option jsstring
}.
Definition safeParse : JsVal -> option infer :=
  z.object (fun o =>
    prompt ← z.string (prop o (js "prompt"));
    model ← z.optional z.string (prop o (js "model"));
    folder ← z.optional z.string (prop o (js "folder"));
    metadata ← z.optional z.record (prop o (js "metadata"));
    alt_text ← z.optional z.string (prop o (js "alt_text"));
    Some (mk prompt model folder metadata alt_text)).
End generateImageSchema.

Module generateVideoSchema.
Record infer := mk {
  prompt : jsstring;
  model : option jsstring;
  duration : option Duration;
  resolution : option Resolution;
  folder : option jsstring;
  metadata : option (gmap jsstring JsVal)
}.
Definition safeParse : JsVal -> option infer :=
  z.object (fun o =>
    prompt ← z.string (prop o (js "prompt"));
    model ← z.optional z.string (prop o (js "model"));
    duration ← z.optional (z.enum [(js "4", d4); (js "6", d6); (js "8", d8)])
                 (prop o (js "duration"));
    resolution ← z.optional (z.enum [(js "720p", r720p); (js "1080p", r1080p)])
                   (prop o (js "resolution"));
    folder ← z.optional z.string (prop o (js "folder"));
    metadata ← z.optional z.record (prop o (js "metadata"));
    Some (mk prompt model duration resolution folder metadata)).
End generateVideoSchema.

Definition aiTools : list Tool :=
  [mkTool (js "cosmic_ai_generate_text")
     (js "Generate text content using Cosmic AI. Useful for creating content, descriptions, summaries, and more.")
     [js "prompt"; js "model"; js "max_tokens"]
     [js "prompt"];
   mkTool (js "cosmic_ai_generate_image")
     (js "Generate an image using Cosmic AI and automatically upload it to your media library. Requires write access.")
     [js "prompt"; js "model"; js "folder"; js "metadata"; js "alt_text"]
     [js "prompt"];
   mkTool (js "cosmic_ai_generate_video")
     (js "Generate a video using Cosmic AI (powered by Veo) and automatically upload it to your media library. Requires write access.")
     [js "prompt"; js "model"; js "duration"; js "resolution"; js "folder"; js "metadata"]
     [js "prompt"]].

Section handlers.
Context (X : Externals).

Definition handleGenerateText (params : generateTextSchema.infer) : M ToolResult :=
  try_catch
    (cosmic <- client.getCosmicClient ;;
     response <- await X cosmic (sdk ai_ generateText [JObj (obj
       [(js "prompt", JStr (generateTextSchema.prompt params));
        (js "model", opt_val JStr (generateTextSchema.model params));
        (js "max_tokens", opt_val JNum (generateTextSchema.max_tokens params))])]) ;;
     text <- member response (js "text") ;;
     model <- member response (js "model") ;;
     usage <- member response (js "usage") ;;
     json <- JSON_stringify X (JObj (obj
            [(js "message", JStr (js "Text generated successfully"));
             (js "text", text);
             (js "model", model);
             (js "usage", usage)])) ;;
     ret (success json))
    (fun error =>
       let message := error_message error in
       ret (failure (js "Error generating text: " ++ message))).

Definition handleGenerateImage (params : generateImageSchema.infer) : M ToolResult :=
  try_catch
    (client.requireWriteAccess ;;;
     cosmic <- client.getCosmicClient ;;
     response <- await X cosmic (sdk ai_ generateImage [JObj (obj
       [(js "prompt", JStr (generateImageSchema.prompt params));
        (js "model", opt_val JStr (generateImageSchema.model params));
        (js "folder", opt_val JStr (generateImageSchema.folder params));
        (js "metadata", opt_val JObj (generateImageSchema.metadata params));
        (js "alt_text", opt_val JStr (generateImageSchema.alt_text params))])]) ;;
     media <- member response (js "media") ;;
     json <- JSON_stringify X (JObj (obj
            [(js "message", JStr (js "Image generated successfully"));
             (js "media", media)])) ;;
     ret (success json))
    (fun error =>
       let message := error_message error in
       ret (failure (js "Error generating image: " ++ message))).

Definition handleGenerateVideo (params : generateVideoSchema.infer) : M ToolResult :=
  try_catch
    (client.requireWriteAccess ;;;
     cosmic <- client.getCosmicClient ;;
     let duration :=
       match generateVideoSchema.duration params with
       | Some d => if truthy_string (Some (Duration_str d))
                   then JNum (parseInt (Duration_str d))
                   else JUndefined
       | None => JUndefined
       end in
     response <- await X cosmic (sdk ai_ generateVideo [JObj (obj
       [(js "prompt", JStr (generateVideoSchema.prompt params));
        (js "model", opt_val JStr (generateVideoSchema.model params));
        (js "duration", duration);
        (js "resolution",
           opt_val (fun r => JStr (Resolution_str r))
                   (generateVideoSchema.resolution params));
        (js "folder", opt_val JStr (generateVideoSchema.folder params));
        (js "metadata", opt_val JObj (generateVideoSchema.metadata params))])]) ;;
     media <- member response (js "media") ;;
     usage <- member response (js "usage") ;;
     json <- JSON_stringify X (JObj (obj
            [(js "message", JStr (js "Video generated successfully"));
             (js "media", media);
             (js "usage", usage)])) ;;
     ret (success json))
    (fun error =>
       let message := error_message error in
       ret (failure (js "Error generating video: " ++ message))).

End handlers.

End ai.

(** ** [src/index.ts] and [src/tools/index.ts] *)

Module index.

Definition allTools : list Tool :=
  objects.objectTools ++ media.mediaTools
    ++ objectTypes.objectTypeTools ++ ai.aiTools.

Definition toCallToolResult (result : ToolResult) : ToolResult :=
  mkResult (content result) (isError result).

(** The [case] clauses of the [switch (name)] of the call handler. *)
Inductive Case :=
| cosmic_objects_list | cosmic_objects_get | cosmic_objects_create
| cosmic_objects_update | cosmic_objects_delete
| cosmic_media_list | cosmic_media_get | cosmic_media_upload
| cosmic_media_delete
| cosmic_types_list | cosmic_types_get | cosmic_types_create
| cosmic_types_update | cosmic_types_delete
| cosmic_ai_generate_text | cosmic_ai_generate_image
| cosmic_ai_generate_video.

#[global] Instance Case_eq_dec : EqDecision Case.
Proof. solve_decision. Defined.

Definition label (c : Case) : jsstring :=
  match c with
  | cosmic_objects_list => js "cosmic_objects_list"
  | cosmic_objects_get => js "cosmic_objects_get"
  | cosmic_objects_create => js "cosmic_objects_create"
  | cosmic_objects_update => js "cosmic_objects_update"
  | cosmic_objects_delete => js "cosmic_objects_delete"
  | cosmic_media_list => js "cosmic_media_list"
  | cosmic_media_get => js "cosmic_media_get"
  | cosmic_media_upload => js "cosmic_media_upload"
  | cosmic_media_delete => js "cosmic_media_delete"
  | cosmic_types_list => js "cosmic_types_list"
  | cosmic_types_get => js "cosmic_types_get"
  | cosmic_types_create => js "cosmic_types_create"
  | cosmic_types_update => js "cosmic_types_update"
  | cosmic_types_delete => js "cosmic_types_delete"
  | cosmic_ai_generate_text => js "cosmic_ai_generate_text"
  | cosmic_ai_generate_image => js "cosmic_ai_generate_image"
  | cosmic_ai_generate_video => js "cosmic_ai_generate_video"
  end.

(** The clauses in the order of the source. *)
Definition cases : list Case :=
  [cosmic_objects_list; cosmic_objects_get; cosmic_objects_create;
   cosmic_objects_update; cosmic_objects_delete;
   cosmic_media_list; cosmic_media_get; cosmic_media_upload;
   cosmic_media_delete;
   cosmic_types_list; cosmic_types_get; cosmic_types_create;
   cosmic_types_update; cosmic_types_delete;
   cosmic_ai_generate_text; cosmic_ai_generate_image;
   cosmic_ai_generate_video].

(** [switch (name)]: the first clause whose label is [=== name], or the
    [default] clause when there is none. *)
Definition switch (name : jsstring) : option Case :=
  List.find (fun c => bool_decide (label c = name)) cases.

(** What the call handler imports from the tool modules: the [parse] of
    each validation schema, which returns the parsed parameters or
    throws, and the handlers. ([listObjectTypesSchema] is exported by
    [tools/index.ts]; [index.ts] does not import it.) *)
Record Schemas := mkSchemas {
  listObjectsSchema : JsVal -> Completion objects.listObjectsSchema.infer;
  getObjectSchema : JsVal -> Completion objects.getObjectSchema.infer;
  createObjectSchema : JsVal -> Completion objects.createObjectSchema.infer;
  updateObjectSchema : JsVal -> Completion objects.updateObjectSchema.infer;
  deleteObjectSchema : JsVal -> Completion objects.deleteObjectSchema.infer;
  listMediaSchema : JsVal -> Completion media.listMediaSchema.infer;
  getMediaSchema : JsVal -> Completion media.getMediaSchema.infer;
  uploadMediaSchema : JsVal -> Completion media.uploadMediaSchema.infer;
  deleteMediaSchema : JsVal -> Completion media.deleteMediaSchema.infer;
  listObjectTypesSchema : JsVal -> Completion objectTypes.listObjectTypesSchema.infer;
  getObjectTypeSchema : JsVal -> Completion objectTypes.getObjectTypeSchema.infer;
  createObjectTypeSchema : JsVal -> Completion objectTypes.createObjectTypeSchema.infer;
  updateObjectTypeSchema : JsVal -> Completion objectTypes.updateObjectTypeSchema.infer;
  deleteObjectTypeSchema : JsVal -> Completion objectTypes.deleteObjectTypeSchema.infer;
  generateTextSchema : JsVal -> Completion ai.generateTextSchema.infer;
  generateImageSchema : JsVal -> Completion ai.generateImageSchema.infer;
  generateVideoSchema : JsVal -> Completion ai.generateVideoSchema.infer
}.

Record Handlers := mkHandlers {
  handleListObjects : objects.listObjectsSchema.infer -> M ToolResult;
  handleGetObject : objects.getObjectSchema.infer -> M ToolResult;
  handleCreateObject : objects.createObjectSchema.infer -> M ToolResult;
  handleUpdateObject : objects.updateObjectSchema.infer -> M ToolResult;
  handleDeleteObject : objects.deleteObjectSchema.infer -> M ToolResult;
  handleListMedia : media.listMediaSchema.infer -> M ToolResult;
  handleGetMedia : media.getMediaSchema.infer -> M ToolResult;
  handleUploadMedia : media.uploadMediaSchema.infer -> M ToolResult;
  handleDeleteMedia : media.deleteMediaSchema.infer -> M ToolResult;
  handleListObjectTypes : M ToolResult;
  handleGetObjectType : objectTypes.getObjectTypeSchema.infer -> M ToolResult;
  handleCreateObjectType : objectTypes.createObjectTypeSchema.infer -> M ToolResult;
  handleUpdateObjectType : objectTypes.updateObjectTypeSchema.infer -> M ToolResult;
  handleDeleteObjectType : objectTypes.deleteObjectTypeSchema.infer -> M ToolResult;
  handleGenerateText : ai.generateTextSchema.infer -> M ToolResult;
  handleGenerateImage : ai.generateImageSchema.infer -> M ToolResult;
  handleGenerateVideo : ai.generateVideoSchema.infer -> M ToolResult
}.

(** [schema.parse(args)] inside a clause: it changes no state. *)
Definition parse {A} (schema : JsVal -> Completion A) (args : JsVal) : M A :=
  fun w => (schema args, w).

Section dispatcher.
Context (S : Schemas) (H : Handlers).

(** [const params = schema.parse(args);
     return toCallToolResult(await handler(params));] *)
Definition parse_then {A} (schema : JsVal -> Completion A)
    (handler : A -> M ToolResult) (args : JsVal) : M ToolResult :=
  params <- parse schema args ;;
  result <- handler params ;;
  ret (toCallToolResult result).

Definition clause (c : Case) (args : JsVal) : M ToolResult :=
  match c with
  | cosmic_objects_list =>
      parse_then (listObjectsSchema S) (handleListObjects H) args
  | cosmic_objects_get =>
      parse_then (getObjectSchema S) (handleGetObject H) args
  | cosmic_objects_create =>
      parse_then (createObjectSchema S) (handleCreateObject H) args
  | cosmic_objects_update =>
      parse_then (updateObjectSchema S) (handleUpdateObject H) args
  | cosmic_objects_delete =>
      parse_then (deleteObjectSchema S) (handleDeleteObject H) args
  | cosmic_media_list =>
      parse_then (listMediaSchema S) (handleListMedia H) args
  | cosmic_media_get =>
      parse_then (getMediaSchema S) (handleGetMedia H) args
  | cosmic_media_upload =>
      parse_then (uploadMediaSchema S) (handleUploadMedia H) args
  | cosmic_media_delete =>
      parse_then (deleteMediaSchema S) (handleDeleteMedia H) args
  | cosmic_types_list =>
      result <- handleListObjectTypes H ;;
      ret (toCallToolResult result)
  | cosmic_types_get =>
      parse_then (getObjectTypeSchema S) (handleGetObjectType H) args
  | cosmic_types_create =>
      parse_then (createObjectTypeSchema S) (handleCreateObjectType H) args
  | cosmic_types_update =>
      parse_then (updateObjectTypeSchema S) (handleUpdateObjectType H) args
  | cosmic_types_delete =>
      parse_then (deleteObjectTypeSchema S) (handleDeleteObjectType H) args
  | cosmic_ai_generate_text =>
      parse_then (generateTextSchema S) (handleGenerateText H) args
  | cosmic_ai_generate_image =>
      parse_then (generateImageSchema S) (handleGenerateImage H) args
  | cosmic_ai_generate_video =>
      parse_then (generateVideoSchema S) (handleGenerateVideo H) args
  end.

(** The handler of [ListToolsRequestSchema]. *)
Definition ListTools : M (list Tool) := ret allTools.

(** The handler of [CallToolRequestSchema], on
    [request.params = { name, arguments: args }]. *)
Definition CallTool (name : jsstring) (args : JsVal) : M ToolResult :=
  try_catch
    (match switch name with
     | Some c => clause c args
     | None => ret (failure (js "Unknown tool: " ++ name))
     end)
    (fun error =>
       let message := error_message error in
       ret (failure (js "Error executing tool " ++ name ++ js ": " ++ message))).

End dispatcher.

(** The server as [index.ts] assembles it: the zod schemas and the
    handlers of the four tool modules. *)
Definition schemas (X : Externals) : Schemas := {|
  listObjectsSchema := z.parse X (js "listObjectsSchema") objects.listObjectsSchema.safeParse;
  getObjectSchema := z.parse X (js "getObjectSchema") objects.getObjectSchema.safeParse;
  createObjectSchema := z.parse X (js "createObjectSchema") objects.createObjectSchema.safeParse;
  updateObjectSchema := z.parse X (js "updateObjectSchema") objects.updateObjectSchema.safeParse;
  deleteObjectSchema := z.parse X (js "deleteObjectSchema") objects.deleteObjectSchema.safeParse;
  listMediaSchema := z.parse X (js "listMediaSchema") media.listMediaSchema.safeParse;
  getMediaSchema := z.parse X (js "getMediaSchema") media.getMediaSchema.safeParse;
  uploadMediaSchema := z.parse X (js "uploadMediaSchema") media.uploadMediaSchema.safeParse;
  deleteMediaSchema := z.parse X (js "deleteMediaSchema") media.deleteMediaSchema.safeParse;
  listObjectTypesSchema := z.parse X (js "listObjectTypesSchema") objectTypes.listObjectTypesSchema.safeParse;
  getObjectTypeSchema := z.parse X (js "getObjectTypeSchema") objectTypes.getObjectTypeSchema.safeParse;
  createObjectTypeSchema := objectTypes.parse X (js "createObjectTypeSchema") objectTypes.createObjectTypeSchema.safeParse;
  updateObjectTypeSchema := objectTypes.parse X (js "updateObjectTypeSchema") objectTypes.updateObjectTypeSchema.safeParse;
  deleteObjectTypeSchema := z.parse X (js "deleteObjectTypeSchema") objectTypes.deleteObjectTypeSchema.safeParse;
  generateTextSchema := z.parse X (js "generateTextSchema") ai.generateTextSchema.safeParse;
  generateImageSchema := z.parse X (js "generateImageSchema") ai.generateImageSchema.safeParse;
  generateVideoSchema := z.parse X (js "generateVideoSchema") ai.generateVideoSchema.safeParse
|}.

Definition handlers (X : Externals) : Handlers := {|
  handleListObjects := objects.handleListObjects X;
  handleGetObject := objects.handleGetObject X;
  handleCreateObject := objects.handleCreateObject X;
  handleUpdateObject := objects.handleUpdateObject X;
  handleDeleteObject := objects.handleDeleteObject X;
  handleListMedia := media.handleListMedia X;
  handleGetMedia := media.handleGetMedia X;
  handleUploadMedia := media.handleUploadMedia X;
  handleDeleteMedia := media.handleDeleteMedia X;
  handleListObjectTypes := objectTypes.handleListObjectTypes X;
  handleGetObjectType := objectTypes.handleGetObjectType X;
  handleCreateObjectType := objectTypes.handleCreateObjectType X;
  handleUpdateObjectType := objectTypes.handleUpdateObjectType X;
  handleDeleteObjectType := objectTypes.handleDeleteObjectType X;
  handleGenerateText := ai.handleGenerateText X;
  handleGenerateImage := ai.handleGenerateImage X;
  handleGenerateVideo := ai.handleGenerateVideo X
|}.

Definition server (X : Externals) : jsstring -> JsVal -> M ToolResult :=
  CallTool (schemas X) (handlers X).

End index.

(** ** Concrete surroundings, for running the server on examples *)

(** A backend that answers every request with an empty object, a
    [JSON.stringify] that produces the empty string, a [ZodError] whose
    message is [Required], and a stack for 1000 nested metafields. *)
Definition quiet : Externals :=
  mkExternals (fun _ _ => Normal (JObj ∅)) (fun _ => Normal [])
    (fun _ _ => js "Required") 1000.

(** An environment with the three settings, and one without write key;
    no client has been created and no request made. *)
Definition env_rw : gmap jsstring jsstring :=
  <[js "COSMIC_BUCKET_SLUG" := js "bucket"]>
  (<[js "COSMIC_READ_KEY" := js "read"]>
  (<[js "COSMIC_WRITE_KEY" := js "write"]> ∅)).

Definition env_ro : gmap jsstring jsstring :=
  <[js "COSMIC_BUCKET_SLUG" := js "bucket"]>
  (<[js "COSMIC_READ_KEY" := js "read"]> ∅).

Definition world_rw : World := mkWorld env_rw None [].
Definition world_ro : World := mkWorld env_ro None [].

(** Inputs of [cosmic_objects_get]. *)
Definition bothSupplied : objects.getObjectSchema.infer :=
  objects.getObjectSchema.mk (Some (js "a")) (Some (js "b")) (Some (js "t")) None any.

Definition idAndSlugOnly : objects.getObjectSchema.infer :=
  objects.getObjectSchema.mk (Some (js "a")) (Some (js "b")) None None any.

Definition neitherSupplied : objects.getObjectSchema.infer :=
  objects.getObjectSchema.mk None None None None any.

Definition emptySlug : objects.getObjectSchema.infer :=
  objects.getObjectSchema.mk (Some (js "a")) (Some []) None None any.

Definition emptyId : objects.getObjectSchema.infer :=
  objects.getObjectSchema.mk (Some []) (Some (js "b")) (Some (js "t")) None any.

(** The request of [handleGetObject] when it looks an object up by slug. *)
Definition getBySlugRequest (type slug : jsstring) (status : StatusAny)
  : BackendCall :=
  refine (sdk objects_ findOne
            [JObj (obj [(js "type", JStr type); (js "slug", JStr slug)])])
         status_ (JStr (StatusAny_str status)).

(** Inputs of [cosmic_media_upload]: two inline payloads, a malformed data
    URI, and a remote URL. *)
Definition inlinePng : media.uploadMediaSchema.infer :=
  media.uploadMediaSchema.mk (js "data:image/png;base64,Zm9v") None None true.

(** The first four bytes of a JPEG file, as an inline payload. *)
Definition inlineJpeg : media.uploadMediaSchema.infer :=
  media.uploadMediaSchema.mk (js "data:image/jpeg;base64,/9j/4A==") None None true.

Definition badInline : media.uploadMediaSchema.infer :=
  media.uploadMediaSchema.mk (js "data:bad-format") None None true.

Definition remoteUrl : media.uploadMediaSchema.infer :=
  media.uploadMediaSchema.mk (js "https://example.com/a.png") None None true.

(** The input [{ id: "x", title: "New" }] of [cosmic_objects_update]. *)
Definition retitle : objects.updateObjectSchema.infer :=
  objects.updateObjectSchema.mk (js "x") (Some (js "New")) None None None None.

(** The input [{ title: "Hello", type: "posts" }] of
    [cosmic_objects_create], after the default of [status]. *)
Definition draftPost : objects.createObjectSchema.infer :=
  objects.createObjectSchema.mk (js "Hello") (js "posts") None None draft None None.

(** ** Vocabulary of the properties *)

(** A write credential is present in the environment. *)
Definition write_enabled (w : World) : bool :=
  truthy_string (env w !! js "COSMIC_WRITE_KEY").

(** The client is available: it has been created already, or the required
    settings are present so that it can be. *)
Definition configured (w : World) : bool :=
  match cosmicClient w with
  | Some _ => true
  | None => truthy_string (env w !! js "COSMIC_BUCKET_SLUG")
            && truthy_string (env w !! js "COSMIC_READ_KEY")
  end.

(** The requests a computation adds to those already performed. *)
Definition new_calls {A} (m : M A) (w : World) : list BackendCall :=
  drop (length (calls w)) (calls (snd (m w))).

(** A tool together with validated parameters for it. *)
Inductive Invocation :=
| ListObjects (p : objects.listObjectsSchema.infer)
| GetObject (p : objects.getObjectSchema.infer)
| CreateObject (p : objects.createObjectSchema.infer)
| UpdateObject (p : objects.updateObjectSchema.infer)
| DeleteObject (p : objects.deleteObjectSchema.infer)
| ListMedia (p : media.listMediaSchema.infer)
| GetMedia (p : media.getMediaSchema.infer)
| UploadMedia (p : media.uploadMediaSchema.infer)
| DeleteMedia (p : media.deleteMediaSchema.infer)
| ListObjectTypes
| GetObjectType (p : objectTypes.getObjectTypeSchema.infer)
| CreateObjectType (p : objectTypes.createObjectTypeSchema.infer)
| UpdateObjectType (p : objectTypes.updateObjectTypeSchema.infer)
| DeleteObjectType (p : objectTypes.deleteObjectTypeSchema.infer)
| GenerateText (p : ai.generateTextSchema.infer)
| GenerateImage (p : ai.generateImageSchema.infer)
| GenerateVideo (p : ai.generateVideoSchema.infer).

Definition tool (i : Invocation) : index.Case :=
  match i with
  | ListObjects _ => index.cosmic_objects_list
  | GetObject _ => index.cosmic_objects_get
  | CreateObject _ => index.cosmic_objects_create
  | UpdateObject _ => index.cosmic_objects_update
  | DeleteObject _ => index.cosmic_objects_delete
  | ListMedia _ => index.cosmic_media_list
  | GetMedia _ => index.cosmic_media_get
  | UploadMedia _ => index.cosmic_media_upload
  | DeleteMedia _ => index.cosmic_media_delete
  | ListObjectTypes => index.cosmic_types_list
  | GetObjectType _ => index.cosmic_types_get
  | CreateObjectType _ => index.cosmic_types_create
  | UpdateObjectType _ => index.cosmic_types_update
  | DeleteObjectType _ => index.cosmic_types_delete
  | GenerateText _ => index.cosmic_ai_generate_text
  | GenerateImage _ => index.cosmic_ai_generate_image
  | GenerateVideo _ => index.cosmic_ai_generate_video
  end.

(** The handler of the tool, on the parameters. *)
Definition handle (X : Externals) (i : Invocation) : M ToolResult :=
  match i with
  | ListObjects p => objects.handleListObjects X p
  | GetObject p => objects.handleGetObject X p
  | CreateObject p => objects.handleCreateObject X p
  | UpdateObject p => objects.handleUpdateObject X p
  | DeleteObject p => objects.handleDeleteObject X p
  | ListMedia p => media.handleListMedia X p
  | GetMedia p => media.handleGetMedia X p
  | UploadMedia p => media.handleUploadMedia X p
  | DeleteMedia p => media.handleDeleteMedia X p
  | ListObjectTypes => objectTypes.handleListObjectTypes X
  | GetObjectType p => objectTypes.handleGetObjectType X p
  | CreateObjectType p => objectTypes.handleCreateObjectType X p
  | UpdateObjectType p => objectTypes.handleUpdateObjectType X p
  | DeleteObjectType p => objectTypes.handleDeleteObjectType X p
  | GenerateText p => ai.handleGenerateText X p
  | GenerateImage p => ai.handleGenerateImage X p
  | GenerateVideo p => ai.handleGenerateVideo X p
  end.

(** The write-class tools: those that mutate the bucket. *)
Definition writeClass (c : index.Case) : bool :=
  match c with
  | index.cosmic_objects_create | index.cosmic_objects_update
  | index.cosmic_objects_delete
  | index.cosmic_media_upload | index.cosmic_media_delete
  | index.cosmic_types_create | index.cosmic_types_update
  | index.cosmic_types_delete
  | index.cosmic_ai_generate_image | index.cosmic_ai_generate_video => true
  | _ => false
  end.

(** The tools whose handler writes every declared parameter into the
    request object, supplied or not. *)
Definition passesThrough (c : index.Case) : bool :=
  match c with
  | index.cosmic_objects_create | index.cosmic_media_upload
  | index.cosmic_types_create
  | index.cosmic_ai_generate_text | index.cosmic_ai_generate_image
  | index.cosmic_ai_generate_video => true
  | _ => false
  end.

(** The access error of [requireWriteAccess]. *)
Definition accessError : jsstring :=
  js "Write operations require COSMIC_WRITE_KEY environment variable to be set".

Definition absent {A} (k : jsstring) (o : option A) : list jsstring :=
  match o with
  | None => [k]
  | Some _ => []
  end.

(** The optional parameters that the validated input leaves out. *)
Definition omitted (i : Invocation) : list jsstring :=
  match i with
  | ListObjects p =>
      absent (js "type") (objects.listObjectsSchema.type p)
      ++ absent (js "props") (objects.listObjectsSchema.props p)
      ++ absent (js "sort") (objects.listObjectsSchema.sort p)
      ++ absent (js "depth") (objects.listObjectsSchema.depth p)
      ++ absent (js "query") (objects.listObjectsSchema.query p)
  | GetObject p =>
      absent (js "id") (objects.getObjectSchema.id p)
      ++ absent (js "slug") (objects.getObjectSchema.slug p)
      ++ absent (js "type") (objects.getObjectSchema.type p)
      ++ absent (js "props") (objects.getObjectSchema.props p)
  | CreateObject p =>
      absent (js "slug") (objects.createObjectSchema.slug p)
      ++ absent (js "content") (objects.createObjectSchema.content p)
      ++ absent (js "metadata") (objects.createObjectSchema.metadata p)
      ++ absent (js "locale") (objects.createObjectSchema.locale p)
  | UpdateObject p =>
      absent (js "title") (objects.updateObjectSchema.title p)
      ++ absent (js "slug") (objects.updateObjectSchema.slug p)
      ++ absent (js "content") (objects.updateObjectSchema.content p)
      ++ absent (js "status") (objects.updateObjectSchema.status p)
      ++ absent (js "metadata") (objects.updateObjectSchema.metadata p)
  | ListMedia p =>
      absent (js "folder") (media.listMediaSchema.folder p)
      ++ absent (js "props") (media.listMediaSchema.props p)
  | GetMedia p => absent (js "props") (media.getMediaSchema.props p)
  | UploadMedia p =>
      absent (js "folder") (media.uploadMediaSchema.folder p)
      ++ absent (js "metadata") (media.uploadMediaSchema.metadata p)
  | CreateObjectType p =>
      absent (js "singular") (objectTypes.createObjectTypeSchema.singular p)
      ++ absent (js "metafields") (objectTypes.createObjectTypeSchema.metafields p)
      ++ absent (js "options") (objectTypes.createObjectTypeSchema.options p)
  | UpdateObjectType p =>
      absent (js "title") (objectTypes.updateObjectTypeSchema.title p)
      ++ absent (js "singular") (objectTypes.updateObjectTypeSchema.singular p)
      ++ absent (js "metafields") (objectTypes.updateObjectTypeSchema.metafields p)
      ++ absent (js "options") (objectTypes.updateObjectTypeSchema.options p)
  | GenerateText p =>
      absent (js "model") (ai.generateTextSchema.model p)
      ++ absent (js "max_tokens") (ai.generateTextSchema.max_tokens p)
  | GenerateImage p =>
      absent (js "model") (ai.generateImageSchema.model p)
      ++ absent (js "folder") (ai.generateImageSchema.folder p)
      ++ absent (js "metadata") (ai.generateImageSchema.metadata p)
      ++ absent (js "alt_text") (ai.generateImageSchema.alt_text p)
  | GenerateVideo p =>
      absent (js "model") (ai.generateVideoSchema.model p)
      ++ absent (js "duration") (ai.generateVideoSchema.duration p)
      ++ absent (js "resolution") (ai.generateVideoSchema.resolution p)
      ++ absent (js "folder") (ai.generateVideoSchema.folder p)
      ++ absent (js "metadata") (ai.generateVideoSchema.metadata p)
  | DeleteObject _ | DeleteMedia _ | ListObjectTypes | GetObjectType _
  | DeleteObjectType _ => []
  end.

Definition Refiner_str (r : Refiner) : jsstring :=
  match r with
  | props_ => js "props"
  | limit_ => js "limit"
  | skip_ => js "skip"
  | sort_ => js "sort"
  | status_ => js "status"
  | depth_ => js "depth"
  end.

(** The value a request carries for a field: a property of one of its
    object arguments, or else the argument of the refiner of that name. *)
Fixpoint arg_field (a : list JsVal) (f : jsstring) : option JsVal :=
  match a with
  | [] => None
  | JObj o :: a' =>
      match o !! f with
      | Some v => Some v
      | None => arg_field a' f
      end
  | _ :: a' => arg_field a' f
  end.

Definition chain_field (ch : list (Refiner * JsVal)) (f : jsstring) : option JsVal :=
  snd <$> List.find (fun rv => bool_decide (Refiner_str (fst rv) = f)) ch.

Definition carried (rq : BackendCall) (f : jsstring) : option JsVal :=
  match arg_field (args rq) f with
  | Some v => Some v
  | None => chain_field (chain rq) f
  end.

(** What a request of the tool carries for a parameter left out:
    [undefined] where the handler passes every parameter through; for
    the object listing, what the caller's own [query] object holds under
    that name; nothing otherwise. *)
Definition carried_when_omitted (i : Invocation) (f : jsstring) : option JsVal :=
  match i with
  | ListObjects p => default ∅ (objects.listObjectsSchema.query p) !! f
  | _ => if passesThrough (tool i) then Some JUndefined else None
  end.

(** [s] has the shape [data:<mime>;base64,<data>] of the pattern
    [/^data:([^;]+);base64,(.+)$/], with the two groups. *)
Definition DataUri (s mime data : jsstring) : Prop :=
  s = js "data:" ++ mime ++ js ";base64," ++ data
  /\ mime <> [] /\ (media.semicolon ∉ mime)
  /\ data <> [] /\ (forall c, c ∈ data -> media.lineTerminator c = false).

(** Base64 as the payload of a data URI is meant to be written (RFC 4648,
    the standard alphabet, with padding): the character of a sextet, and
    the text of a sequence of bytes. *)
Definition base64char (v : N) : N :=
  if N.ltb v 26 then (v + 65)%N
  else if N.ltb v 52 then (v + 71)%N
  else if N.ltb v 62 then (v - 4)%N
  else if N.eqb v 62 then 43%N
  else 47%N.

Fixpoint base64 (bytes : list N) : jsstring :=
  match bytes with
  | a :: b :: c :: bytes' =>
      base64char (a / 4) :: base64char ((a mod 4) * 16 + b / 16)
        :: base64char ((b mod 16) * 4 + c / 64) :: base64char (c mod 64)
        :: base64 bytes'
  | [a; b] =>
      [base64char (a / 4); base64char ((a mod 4) * 16 + b / 16);
       base64char ((b mod 16) * 4); 61%N]
  | [a] => [base64char (a / 4); base64char ((a mod 4) * 16); 61%N; 61%N]
  | [] => []
  end.

(** The request of [handleUploadMedia] for a given [mediaInput]. *)
Definition uploadRequest (p : media.uploadMediaSchema.infer) (input : JsVal)
  : BackendCall :=
  sdk media_ insertOne [JObj (obj
    [(js "media", input);
     (js "folder", opt_val JStr (media.uploadMediaSchema.folder p));
     (js "metadata", opt_val JObj (media.uploadMediaSchema.metadata p));
     (js "trigger_webhook", JBool (media.uploadMediaSchema.trigger_webhook p))])].

Definition formatError : jsstring :=
  js "Error: Invalid base64 data URI format. Expected format: data:<mimetype>;base64,<data>".

(** The request of [handleGetObject] when it looks an object up by id. *)
Definition getByIdRequest (id : jsstring) (props : option (list jsstring))
    (status : StatusAny) : BackendCall :=
  let request := sdk objects_ findOne [JObj (obj [(js "id", JStr id)])] in
  let request := match props with
                 | Some p => refine request props_ (JStrs p)
                 | None => request
                 end in
  refine request status_ (JStr (StatusAny_str status)).

(** The registry as the specification describes it: every tool name has
    one validation schema and one handler. *)
Definition params_of (c : index.Case) : Type :=
  match c with
  | index.cosmic_objects_list => objects.listObjectsSchema.infer
  | index.cosmic_objects_get => objects.getObjectSchema.infer
  | index.cosmic_objects_create => objects.createObjectSchema.infer
  | index.cosmic_objects_update => objects.updateObjectSchema.infer
  | index.cosmic_objects_delete => objects.deleteObjectSchema.infer
  | index.cosmic_media_list => media.listMediaSchema.infer
  | index.cosmic_media_get => media.getMediaSchema.infer
  | index.cosmic_media_upload => media.uploadMediaSchema.infer
  | index.cosmic_media_delete => media.deleteMediaSchema.infer
  | index.cosmic_types_list => objectTypes.listObjectTypesSchema.infer
  | index.cosmic_types_get => objectTypes.getObjectTypeSchema.infer
  | index.cosmic_types_create => objectTypes.createObjectTypeSchema.infer
  | index.cosmic_types_update => objectTypes.updateObjectTypeSchema.infer
  | index.cosmic_types_delete => objectTypes.deleteObjectTypeSchema.infer
  | index.cosmic_ai_generate_text => ai.generateTextSchema.infer
  | index.cosmic_ai_generate_image => ai.generateImageSchema.infer
  | index.cosmic_ai_generate_video => ai.generateVideoSchema.infer
  end.

Definition schema_of (S : index.Schemas) (c : index.Case)
  : JsVal -> Completion (params_of c) :=
  match c with
  | index.cosmic_objects_list => index.listObjectsSchema S
  | index.cosmic_objects_get => index.getObjectSchema S
  | index.cosmic_objects_create => index.createObjectSchema S
  | index.cosmic_objects_update => index.updateObjectSchema S
  | index.cosmic_objects_delete => index.deleteObjectSchema S
  | index.cosmic_media_list => index.listMediaSchema S
  | index.cosmic_media_get => index.getMediaSchema S
  | index.cosmic_media_upload => index.uploadMediaSchema S
  | index.cosmic_media_delete => index.deleteMediaSchema S
  | index.cosmic_types_list => index.listObjectTypesSchema S
  | index.cosmic_types_get => index.getObjectTypeSchema S
  | index.cosmic_types_create => index.createObjectTypeSchema S
  | index.cosmic_types_update => index.updateObjectTypeSchema S
  | index.cosmic_types_delete => index.deleteObjectTypeSchema S
  | index.cosmic_ai_generate_text => index.generateTextSchema S
  | index.cosmic_ai_generate_image => index.generateImageSchema S
  | index.cosmic_ai_generate_video => index.generateVideoSchema S
  end.

Definition handler_of (H : index.Handlers) (c : index.Case)
  : params_of c -> M ToolResult :=
  match c with
  | index.cosmic_objects_list => index.handleListObjects H
  | index.cosmic_objects_get => index.handleGetObject H
  | index.cosmic_objects_create => index.handleCreateObject H
  | index.cosmic_objects_update => index.handleUpdateObject H
  | index.cosmic_objects_delete => index.handleDeleteObject H
  | index.cosmic_media_list => index.handleListMedia H
  | index.cosmic_media_get => index.handleGetMedia H
  | index.cosmic_media_upload => index.handleUploadMedia H
  | index.cosmic_media_delete => index.handleDeleteMedia H
  | index.cosmic_types_list => fun _ => index.handleListObjectTypes H
  | index.cosmic_types_get => index.handleGetObjectType H
  | index.cosmic_types_create => index.handleCreateObjectType H
  | index.cosmic_types_update => index.handleUpdateObjectType H
  | index.cosmic_types_delete => index.handleDeleteObjectType H
  | index.cosmic_ai_generate_text => index.handleGenerateText H
  | index.cosmic_ai_generate_image => index.handleGenerateImage H
  | index.cosmic_ai_generate_video => index.handleGenerateVideo H
  end.

(** The clause the specification describes for a known name: parse the
    arguments through the schema of the tool, then invoke its handler. *)
Definition validated_clause (S : index.Schemas) (H : index.Handlers)
    (c : index.Case) (args : JsVal) : M ToolResult :=
  index.parse_then (schema_of S c) (handler_of H c) args.

(** The envelope of the outer catch of the dispatcher. *)
Definition executionError (name : jsstring) (e : Thrown) : ToolResult :=
  failure (js "Error executing tool " ++ name ++ js ": " ++ error_message e).

(** ** Startup, and further vocabulary *)

(** What [validateConfig] of [index.ts] leaves behind: the lines written
    with [console.error], and the exit code when it ends the process. *)
Record Startup := mkStartup {
  stderr : list jsstring;
  exit : option Z
}.

(** [validateConfig()] of [src/index.ts]. *)
Definition validateConfig (w : World) : Startup :=
  match fst (client.getConfig w) with
  | Normal config =>
      mkStartup
        ([js "[cosmic-mcp] Connected to bucket: " ++ bucketSlug config]
         ++ (if negb (truthy_string (writeKey config))
             then [js "[cosmic-mcp] Write key not provided - write operations will be disabled"]
             else []))
        None
  | Throw error =>
      mkStartup
        [js "[cosmic-mcp] Configuration error: "
         ++ match error with
            | ErrorObj message => message
            | NonError _ => js "undefined"
            end]
        (Some 1%Z)
  end.

(** The configuration error that [getConfig] throws in a state. *)
Definition configError (w : World) : jsstring :=
  if truthy_string (env w !! js "COSMIC_BUCKET_SLUG")
  then js "COSMIC_READ_KEY environment variable is required"
  else js "COSMIC_BUCKET_SLUG environment variable is required".

(** The text that the catch clause of each handler puts before the
    message of the error. *)
Definition errorPrefix (c : index.Case) : jsstring :=
  match c with
  | index.cosmic_objects_list => js "Error listing objects: "
  | index.cosmic_objects_get => js "Error getting object: "
  | index.cosmic_objects_create => js "Error creating object: "
  | index.cosmic_objects_update => js "Error updating object: "
  | index.cosmic_objects_delete => js "Error deleting object: "
  | index.cosmic_media_list => js "Error listing media: "
  | index.cosmic_media_get => js "Error getting media: "
  | index.cosmic_media_upload => js "Error uploading media: "
  | index.cosmic_media_delete => js "Error deleting media: "
  | index.cosmic_types_list => js "Error listing object types: "
  | index.cosmic_types_get => js "Error getting object type: "
  | index.cosmic_types_create => js "Error creating object type: "
  | index.cosmic_types_update => js "Error updating object type: "
  | index.cosmic_types_delete => js "Error deleting object type: "
  | index.cosmic_ai_generate_text => js "Error generating text: "
  | index.cosmic_ai_generate_image => js "Error generating image: "
  | index.cosmic_ai_generate_video => js "Error generating video: "
  end.

(** The invocation that a clause hands to its handler. *)
Definition invoke (c : index.Case) : params_of c -> Invocation :=
  match c with
  | index.cosmic_objects_list => ListObjects
  | index.cosmic_objects_get => GetObject
  | index.cosmic_objects_create => CreateObject
  | index.cosmic_objects_update => UpdateObject
  | index.cosmic_objects_delete => DeleteObject
  | index.cosmic_media_list => ListMedia
  | index.cosmic_media_get => GetMedia
  | index.cosmic_media_upload => UploadMedia
  | index.cosmic_media_delete => DeleteMedia
  | index.cosmic_types_list => fun _ => ListObjectTypes
  | index.cosmic_types_get => GetObjectType
  | index.cosmic_types_create => CreateObjectType
  | index.cosmic_types_update => UpdateObjectType
  | index.cosmic_types_delete => DeleteObjectType
  | index.cosmic_ai_generate_text => GenerateText
  | index.cosmic_ai_generate_image => GenerateImage
  | index.cosmic_ai_generate_video => GenerateVideo
  end.

(** The validation schema of a tool, as its [safeParse]. *)
Definition safeParse_of (c : index.Case) : JsVal -> option (params_of c) :=
  match c with
  | index.cosmic_objects_list => objects.listObjectsSchema.safeParse
  | index.cosmic_objects_get => objects.getObjectSchema.safeParse
  | index.cosmic_objects_create => objects.createObjectSchema.safeParse
  | index.cosmic_objects_update => objects.updateObjectSchema.safeParse
  | index.cosmic_objects_delete => objects.deleteObjectSchema.safeParse
  | index.cosmic_media_list => media.listMediaSchema.safeParse
  | index.cosmic_media_get => media.getMediaSchema.safeParse
  | index.cosmic_media_upload => media.uploadMediaSchema.safeParse
  | index.cosmic_media_delete => media.deleteMediaSchema.safeParse
  | index.cosmic_types_list => objectTypes.listObjectTypesSchema.safeParse
  | index.cosmic_types_get => objectTypes.getObjectTypeSchema.safeParse
  | index.cosmic_types_create => objectTypes.createObjectTypeSchema.safeParse
  | index.cosmic_types_update => objectTypes.updateObjectTypeSchema.safeParse
  | index.cosmic_types_delete => objectTypes.deleteObjectTypeSchema.safeParse
  | index.cosmic_ai_generate_text => ai.generateTextSchema.safeParse
  | index.cosmic_ai_generate_image => ai.generateImageSchema.safeParse
  | index.cosmic_ai_generate_video => ai.generateVideoSchema.safeParse
  end.

(** The descriptor that the catalogs list under the label of a clause. *)
Definition descriptor (c : index.Case) : Tool :=
  default (mkTool [] [] [] [])
    (List.find (fun d => bool_decide (name d = index.label c)) index.allTools).

(** The requests that read: [find], [findOne], and the text generation. *)
Definition reads (rq : BackendCall) : bool :=
  match method rq with
  | find | findOne | generateText => true
  | _ => false
  end.

(** One call leads from a state to another: the environment stays, the
    performed requests grow by at most one, a client once created stays. *)
Definition Step (w w' : World) : Prop :=
  env w' = env w
  /\ (exists l, calls w' = calls w ++ l /\ length l <= 1)
  /\ (forall c, cosmicClient w = Some c -> cosmicClient w' = Some c).

(** A metafield of kind [parent] nested [n] levels deep. *)
Fixpoint nested (n : nat) : JsVal :=
  JObj (match n with
        | O => obj [(js "key", JStr (js "k")); (js "title", JStr (js "T"));
                    (js "type", JStr (js "text"))]
        | S n' => obj [(js "key", JStr (js "k")); (js "title", JStr (js "T"));
                       (js "type", JStr (js "parent"));
                       (js "children", JArr [nested n'])]
        end).

(** The arguments of [cosmic_types_create] for a type with one metafield
    nested [n] levels deep, and the parameters they are parsed to. *)
Definition nestedType (n : nat) : JsVal :=
  JObj (obj [(js "title", JStr (js "Pages")); (js "slug", JStr (js "pages"));
             (js "metafields", JArr [nested n])]).

Definition nestedTypeParams (n : nat) : objectTypes.createObjectTypeSchema.infer :=
  objectTypes.createObjectTypeSchema.mk (js "Pages") (js "pages") None
    (Some [nested n]) None.

(** The number that [parseInt] gives for a duration. *)
Definition seconds (d : ai.Duration) : Q :=
  match d with
  | ai.d4 => inject_Z 4
  | ai.d6 => inject_Z 6
  | ai.d8 => inject_Z 8
  end.

(** The catch clause of the handler of a tool. *)
Definition catchOf (c : index.Case) (error : Thrown) : ToolResult :=
  failure (errorPrefix c ++ error_message error).

(** The envelope with which the handler of a tool ends once it has the
    value to serialise: the success envelope around its text, which is
    [undefined] for [undefined]; when the serialisation throws, the
    envelope of the catch clause. *)
Definition envelopeOf (X : Externals) (c : index.Case) (value : JsVal)
  : ToolResult :=
  match value with
  | JUndefined => success None
  | _ => match stringify X value with
         | Normal t => success (Some t)
         | Throw e => failure (errorPrefix c ++ error_message e)
         end
  end.

(** The message of the [TypeError] for a property read of [null] or
    [undefined]. *)
Definition cannotRead (response : JsVal) (k : jsstring) : jsstring :=
  js "Cannot read properties of "
  ++ match response with JNull => js "null" | _ => js "undefined" end
  ++ js " (reading '" ++ k ++ js "')".

(** What a parse throws when it exhausts the stack, and the tools whose
    schemas can: those that hold the recursive metafield schema. *)
Definition stackError : Thrown :=
  ErrorObj (js "Maximum call stack size exceeded").

Definition exhausts (X : Externals) (c : index.Case) (args : JsVal) : bool :=
  match c with
  | index.cosmic_types_create | index.cosmic_types_update =>
      stack X <? objectTypes.descent args
  | _ => false
  end.

(** The outcome of a step that does not depend on the state, and the
    steps that are of this kind: they leave the state as it is. *)
Definition outcome {A} (m : M A) : Completion A := fst (m (mkWorld ∅ None [])).

Class Pure {A} (m : M A) : Prop :=
  pure_run : forall w, m w = (outcome m, w).

(** The end of a handler that has its answer: the envelope around
    [JSON.stringify(value, null, 2)]. *)
Definition rendered (X : Externals) (value : JsVal) : M ToolResult :=
  json <- JSON_stringify X value ;;
  ret (success json).

(** [null] and [undefined], of which no property can be read. *)
Definition nullish (v : JsVal) : bool :=
  match v with
  | JUndefined | JNull => true
  | _ => false
  end.

(** The property of the answer that the handler of a tool reads first;
    the three deletes read none. *)
Definition firstRead (c : index.Case) : option jsstring :=
  match c with
  | index.cosmic_objects_list => Some (js "objects")
  | index.cosmic_objects_get | index.cosmic_objects_create
  | index.cosmic_objects_update => Some (js "object")
  | index.cosmic_media_list | index.cosmic_media_get
  | index.cosmic_media_upload => Some (js "media")
  | index.cosmic_types_list => Some (js "object_types")
  | index.cosmic_types_get | index.cosmic_types_create
  | index.cosmic_types_update => Some (js "object_type")
  | index.cosmic_ai_generate_text => Some (js "text")
  | index.cosmic_ai_generate_image | index.cosmic_ai_generate_video =>
      Some (js "media")
  | index.cosmic_objects_delete | index.cosmic_media_delete
  | index.cosmic_types_delete => None
  end.

(** The tools that return one property of the answer as it is. *)
Definition returnsProperty (c : index.Case) : bool :=
  match c with
  | index.cosmic_objects_get | index.cosmic_media_get
  | index.cosmic_types_get => true
  | _ => false
  end.

(** What the handler of a tool does with an answer: reading a property of
    [null] or [undefined] throws; otherwise it ends with the envelope
    around the text of some value, which is [undefined] only where the
    tool returns a property of the answer. *)
Definition Tail (X : Externals) (c : index.Case) (k : JsVal -> M ToolResult)
  : Prop :=
  forall a,
    Pure (k a)
    /\ ((exists f, firstRead c = Some f /\ nullish a = true
                   /\ outcome (k a) = outcome (x <- member a f ;; ret (success None)))
        \/ ((firstRead c = None \/ nullish a = false)
            /\ exists v, outcome (k a) = outcome (rendered X v)
                         /\ (v = JUndefined -> returnsProperty c = true))).

(** The four forms a handler takes once its own tests are decided: it
    sends a request, with or without the write guard in front, or it
    returns an envelope of its own, before anything else or behind the
    guard and the client. *)
Definition readHandler (X : Externals) (rq : BackendCall)
    (k : JsVal -> M ToolResult) (g : Thrown -> ToolResult)
  : M ToolResult :=
  try_catch
    (cosmic <- client.getCosmicClient ;;
     response <- await X cosmic rq ;;
     k response)
    (fun error => ret (g error)).

Definition writeHandler (X : Externals) (rq : BackendCall)
    (k : JsVal -> M ToolResult) (g : Thrown -> ToolResult)
  : M ToolResult :=
  try_catch
    (client.requireWriteAccess ;;;
     cosmic <- client.getCosmicClient ;;
     response <- await X cosmic rq ;;
     k response)
    (fun error => ret (g error)).

Definition refusal (r : ToolResult) (g : Thrown -> ToolResult) : M ToolResult :=
  try_catch (ret r) (fun error => ret (g error)).

Definition writeRefusal (r : ToolResult) (g : Thrown -> ToolResult) : M ToolResult :=
  try_catch
    (client.requireWriteAccess ;;; cosmic <- client.getCosmicClient ;; ret r)
    (fun error => ret (g error)).

Inductive Shape (X : Externals) (c : index.Case) : M ToolResult -> Prop :=
| shape_read (rq : BackendCall) (k : JsVal -> M ToolResult) :
    writeClass c = false -> reads rq = true -> Tail X c k ->
    Shape X c (readHandler X rq k (catchOf c))
| shape_write (rq : BackendCall) (k : JsVal -> M ToolResult) :
    writeClass c = true -> Tail X c k ->
    Shape X c (writeHandler X rq k (catchOf c))
| shape_refusal (t : jsstring) :
    c = index.cosmic_objects_get ->
    Shape X c (refusal (failure t) (catchOf c))
| shape_writeRefusal :
    c = index.cosmic_media_upload ->
    Shape X c (writeRefusal (failure formatError) (catchOf c)).

(** The name under which the source declares the schema of a tool. *)
Definition schemaName (c : index.Case) : jsstring :=
  match c with
  | index.cosmic_objects_list => js "listObjectsSchema"
  | index.cosmic_objects_get => js "getObjectSchema"
  | index.cosmic_objects_create => js "createObjectSchema"
  | index.cosmic_objects_update => js "updateObjectSchema"
  | index.cosmic_objects_delete => js "deleteObjectSchema"
  | index.cosmic_media_list => js "listMediaSchema"
  | index.cosmic_media_get => js "getMediaSchema"
  | index.cosmic_media_upload => js "uploadMediaSchema"
  | index.cosmic_media_delete => js "deleteMediaSchema"
  | index.cosmic_types_list => js "listObjectTypesSchema"
  | index.cosmic_types_get => js "getObjectTypeSchema"
  | index.cosmic_types_create => js "createObjectTypeSchema"
  | index.cosmic_types_update => js "updateObjectTypeSchema"
  | index.cosmic_types_delete => js "deleteObjectTypeSchema"
  | index.cosmic_ai_generate_text => js "generateTextSchema"
  | index.cosmic_ai_generate_image => js "generateImageSchema"
  | index.cosmic_ai_generate_video => js "generateVideoSchema"
  end.

(** The arguments [{ limit: 500 }]. *)
Definition limit500 : gmap jsstring JsVal :=
  {[ js "limit" := JNum (inject_Z 500) ]}.

(** Two uploads of the same payload under different MIME types, and an
    upload of a data URI that carries a parameter. *)
Definition inlineGif : media.uploadMediaSchema.infer :=
  media.uploadMediaSchema.mk (js "data:image/gif;base64,Zm9v") None None true.

Definition inlineCharset : media.uploadMediaSchema.infer :=
  media.uploadMediaSchema.mk (js "data:text/plain;charset=utf-8;base64,Zm9v")
    None None true.

(** An upload whose payload holds no base64 character. *)
Definition inlineNoise : media.uploadMediaSchema.infer :=
  media.uploadMediaSchema.mk (js "data:image/png;base64,!?*=") None None true.

(** Arguments of [cosmic_objects_create] whose [metadata] hold a key
    named [__proto__], and the request that the call sends. *)
Definition pollutedPost : gmap jsstring JsVal :=
  obj [(js "title", JStr (js "Hello")); (js "type", JStr (js "posts"));
       (js "metadata",
          JObj (obj [(js "__proto__", JObj (obj [(js "admin", JBool true)]));
                     (js "color", JStr (js "red"))]))].

Definition cleanPostRequest : BackendCall :=
  sdk objects_ insertOne [JObj (obj
    [(js "title", JStr (js "Hello")); (js "type", JStr (js "posts"));
     (js "slug", JUndefined); (js "content", JUndefined);
     (js "status", JStr (js "draft"));
     (js "metadata", JObj (obj [(js "color", JStr (js "red"))]));
     (js "locale", JUndefined)])].

(** A listing of the objects of a type through a query of the caller. *)
Definition listPosts : objects.listObjectsSchema.infer :=
  objects.listObjectsSchema.mk (Some (js "posts")) any 10%Q 0%Q None None None
    (Some {[ js "type" := JStr (js "pages"); js "locale" := JStr (js "en") ]}).

(** A video of six seconds. *)
Definition sixSeconds : ai.generateVideoSchema.infer :=
  ai.generateVideoSchema.mk (js "a tide") None (Some ai.d6) None None None.

(** An object looked up by slug. *)
Definition bySlug : objects.getObjectSchema.infer :=
  objects.getObjectSchema.mk None (Some (js "hello")) (Some (js "posts")) None any.

(** The state after the server has handled a sequence of calls, each
    given by its name and arguments. *)
Definition serve (X : Externals) (requests : list (jsstring * JsVal)) (w : World)
  : World :=
  fold_left (fun w' r => snd (index.server X (fst r) (snd r) w')) requests w.

(** * Properties *)

(** ** The client accessor *)

Lemma requireWriteAccess_denied (w : World) :
  write_enabled w = false ->
  client.requireWriteAccess w = (Throw (ErrorObj accessError), w).
Proof.
  unfold write_enabled, client.requireWriteAccess, client.hasWriteAccess, bind, gets.
  intros E. rewrite E. reflexivity.
Qed.

Lemma requireWriteAccess_granted (w : World) :
  write_enabled w = true ->
  client.requireWriteAccess w = (Normal tt, w).
Proof.
  unfold write_enabled, client.requireWriteAccess, client.hasWriteAccess, bind, gets.
  intros E. rewrite E. reflexivity.
Qed.

(** [getCosmicClient] returns a client and leaves the environment and the
    performed requests as they are, or throws and changes nothing. *)
Lemma getCosmicClient_cases (w : World) :
  (exists c w', client.getCosmicClient w = (Normal c, w')
                /\ env w' = env w /\ calls w' = calls w
                /\ configured w = true)
  \/ (exists e, client.getCosmicClient w = (Throw e, w) /\ configured w = false).
Proof.
  unfold client.getCosmicClient, client.getConfig, configured, bind, gets, ret, throw.
  destruct (cosmicClient w) as [c|] eqn:Ec.
  - left. exists c, w. auto.
  - destruct (env w !! js "COSMIC_BUCKET_SLUG") as [[|a b]|] eqn:Eb; cbn [truthy_string andb].
    + right. eexists. split; reflexivity.
    + destruct (env w !! js "COSMIC_READ_KEY") as [[|a' b']|] eqn:Er; cbn [truthy_string].
      * right. eexists. split; reflexivity.
      * left. eexists _, _. repeat split; reflexivity.
      * right. eexists. split; reflexivity.
    + right. eexists. split; reflexivity.
Qed.

Lemma getCosmicClient_configured (w : World) :
  configured w = true ->
  exists c w', client.getCosmicClient w = (Normal c, w')
               /\ env w' = env w /\ calls w' = calls w.
Proof.
  intros C. destruct (getCosmicClient_cases w) as [(c & w' & E & ? & ? & _)|(e & _ & C')].
  - eauto.
  - congruence.
Qed.

(** ** The write guard *)

(** A handler guarded by [requireWriteAccess] ends in its catch clause,
    in the same state, when no write credential is present. *)
Lemma guarded_denied {A} (body : M A) (handler : Thrown -> M A) (w : World) :
  write_enabled w = false ->
  try_catch (client.requireWriteAccess ;;; body) handler w
  = handler (ErrorObj accessError) w.
Proof.
  intros E. unfold try_catch, bind. rewrite (requireWriteAccess_denied w E).
  reflexivity.
Qed.

Lemma new_calls_same {A} (m : M A) (w : World) (r : Completion A) :
  m w = (r, w) -> new_calls m w = [].
Proof.
  intros E. unfold new_calls. rewrite E. cbn. apply drop_all.
Qed.

(** C1. For every write-class tool and all validated parameters: when no
    write credential is present in the environment, the handler returns an
    error envelope ([isError] true) carrying the access error, and the
    state is unchanged: no request reaches the backend client. *)
Theorem write_guard_blocks (X : Externals) (i : Invocation) (w : World) :
  writeClass (tool i) = true ->
  write_enabled w = false ->
  exists r,
    handle X i w = (Normal r, w)
    /\ isError r = Some true
    /\ (exists prefix, content r = [mkText (prefix ++ accessError)])
    /\ new_calls (handle X i) w = [].
Proof.
  intros W E.
  assert (exists prefix, handle X i w = (Normal (failure (prefix ++ accessError)), w))
    as [prefix Hrun].
  { destruct i; try discriminate W; cbn [handle];
      [ unfold objects.handleCreateObject | unfold objects.handleUpdateObject
      | unfold objects.handleDeleteObject | unfold media.handleUploadMedia
      | unfold media.handleDeleteMedia | unfold objectTypes.handleCreateObjectType
      | unfold objectTypes.handleUpdateObjectType
      | unfold objectTypes.handleDeleteObjectType
      | unfold ai.handleGenerateImage | unfold ai.handleGenerateVideo ];
      rewrite (guarded_denied _ _ w E); eexists; reflexivity. }
  exists (failure (prefix ++ accessError)). repeat split.
  - exact Hrun.
  - exists prefix. reflexivity.
  - eapply new_calls_same, Hrun.
Qed.

Lemma write_guard_blocks_witness :
  exists r,
    handle quiet (CreateObject draftPost) world_ro = (Normal r, world_ro)
    /\ isError r = Some true
    /\ (exists prefix, content r = [mkText (prefix ++ accessError)])
    /\ new_calls (handle quiet (CreateObject draftPost)) world_ro = [].
Proof.
  apply (write_guard_blocks quiet (CreateObject draftPost) world_ro).
  - reflexivity.
  - reflexivity.
Defined.

(** ** Evaluating a handler *)

(** The steps of a handler behind its request leave the state alone. *)
Lemma Pure_ret {A} (a : A) : Pure (ret a).
Proof. intros w. reflexivity. Qed.
#[global] Existing Instance Pure_ret.

Lemma Pure_throw {A} (e : Thrown) : Pure (throw (A := A) e).
Proof. intros w. reflexivity. Qed.
#[global] Existing Instance Pure_throw.

Lemma Pure_lift {A} (c : Completion A) : Pure (lift c).
Proof. intros w. reflexivity. Qed.
#[global] Existing Instance Pure_lift.

Lemma Pure_bind {A B} (m : M A) (k : A -> M B) :
  Pure m -> (forall a, Pure (k a)) -> Pure (bind m k).
Proof.
  intros Hm Hk w. unfold outcome, bind.
  rewrite (Hm w), (Hm (mkWorld ∅ None [])).
  destruct (outcome m) as [a|e]; [|reflexivity].
  rewrite (Hk a w), (Hk a (mkWorld ∅ None [])). reflexivity.
Qed.
#[global] Existing Instance Pure_bind.

Lemma Pure_member (v : JsVal) (k : jsstring) : Pure (member v k).
Proof. destruct v; intros w; reflexivity. Qed.
#[global] Existing Instance Pure_member.

Lemma Pure_JSON_stringify (X : Externals) (v : JsVal) :
  Pure (JSON_stringify X v).
Proof. destruct v; intros w; reflexivity. Qed.
#[global] Existing Instance Pure_JSON_stringify.

Lemma Pure_rendered (X : Externals) (v : JsVal) : Pure (rendered X v).
Proof. unfold rendered. apply _. Qed.
#[global] Existing Instance Pure_rendered.

Lemma truthy_status (s : StatusAny) : truthy_string (Some (StatusAny_str s)) = true.
Proof. destruct s; reflexivity. Qed.

Lemma new_calls_app {A} (m : M A) (w : World) (l : list BackendCall) :
  calls (snd (m w)) = calls w ++ l -> new_calls m w = l.
Proof. intros E. unfold new_calls. rewrite E. apply drop_app_length. Qed.

(** The requests of a handler whose guards have been decided down to its
    request: the one request, when the client is available (and the write
    credential present, where the guard stands in front), whatever the
    backend answers and whatever becomes of the answer. *)
Lemma guarded_granted {A} (body : M A) (handler : Thrown -> M A) (w : World) :
  write_enabled w = true ->
  try_catch (client.requireWriteAccess ;;; body) handler w = try_catch body handler w.
Proof.
  intros E. unfold try_catch, bind. rewrite (requireWriteAccess_granted w E).
  reflexivity.
Qed.

Lemma request_calls (X : Externals) (rq0 : BackendCall)
    (k : JsVal -> M ToolResult) (g : Thrown -> ToolResult) (w : World)
    `{!forall a, Pure (k a)} :
  new_calls
    (try_catch
       (cosmic <- client.getCosmicClient ;;
        response <- await X cosmic rq0 ;;
        k response)
       (fun e => ret (g e))) w
  = if configured w then [rq0] else [].
Proof.
  apply new_calls_app.
  destruct (getCosmicClient_cases w)
    as [(cl & w' & Ec & Eenv & Ecalls & Econf)|(e & Ec & Econf)];
    unfold try_catch; unfold bind at 1; rewrite Ec, Econf.
  - unfold bind, await.
    destruct (backend X (calls w') rq0) as [a|e].
    + rewrite (pure_run (m := k a)).
      destruct (outcome (k a)); cbn; rewrite Ecalls; reflexivity.
    + cbn. rewrite Ecalls. reflexivity.
  - cbn. rewrite app_nil_r. reflexivity.
Qed.

Lemma guarded_request_calls (X : Externals) (rq0 : BackendCall)
    (k : JsVal -> M ToolResult) (g : Thrown -> ToolResult) (w : World)
    `{!forall a, Pure (k a)} :
  new_calls
    (try_catch
       (client.requireWriteAccess ;;;
        cosmic <- client.getCosmicClient ;;
        response <- await X cosmic rq0 ;;
        k response)
       (fun e => ret (g e))) w
  = if write_enabled w && configured w then [rq0] else [].
Proof.
  destruct (write_enabled w) eqn:W.
  - unfold new_calls. rewrite (guarded_granted _ _ w W). apply request_calls, _.
  - unfold new_calls. rewrite (guarded_denied _ _ w W). cbn. apply drop_all.
Qed.

Lemma return_calls (r : ToolResult) (g : Thrown -> ToolResult) (w : World) :
  new_calls (try_catch (ret r) (fun e => ret (g e))) w = [].
Proof. unfold new_calls. cbn. apply drop_all. Qed.

Lemma guarded_return_calls (r : ToolResult) (g : Thrown -> ToolResult) (w : World) :
  new_calls
    (try_catch
       (client.requireWriteAccess ;;; cosmic <- client.getCosmicClient ;; ret r)
       (fun e => ret (g e))) w = [].
Proof.
  apply new_calls_app. rewrite app_nil_r.
  destruct (write_enabled w) eqn:W.
  - rewrite (guarded_granted _ _ w W).
    destruct (getCosmicClient_cases w)
      as [(cl & w' & Ec & Eenv & Ecalls & _)|(e & Ec & _)];
      unfold try_catch, bind, ret; rewrite Ec; cbn; congruence.
  - rewrite (guarded_denied _ _ w W). reflexivity.
Qed.

(** ** Getting an object by id or by slug *)

(** C2, as stated, fails: with both [id] and [slug] supplied (and [type]),
    the handler does not return an error envelope; it performs the lookup
    by id and returns the success envelope. The same happens with [id]
    and an empty [slug] supplied without [type]. *)
Lemma get_object_both_supplied_accepted :
  (is_Some (objects.getObjectSchema.id bothSupplied)
   /\ is_Some (objects.getObjectSchema.slug bothSupplied)
   /\ (exists r, fst (objects.handleGetObject quiet bothSupplied world_ro) = Normal r
                  /\ isError r = None)
   /\ new_calls (objects.handleGetObject quiet bothSupplied) world_ro
      = [getByIdRequest (js "a") None any])
  /\ (is_Some (objects.getObjectSchema.slug emptySlug)
      /\ objects.getObjectSchema.type emptySlug = None
      /\ (exists r, fst (objects.handleGetObject quiet emptySlug world_ro) = Normal r
                     /\ isError r = None)
      /\ new_calls (objects.handleGetObject quiet emptySlug) world_ro
         = [getByIdRequest (js "a") None any]).
Proof.
  split.
  - split; [eexists; reflexivity|]. split; [eexists; reflexivity|].
    split; [eexists; split|]; vm_compute; reflexivity.
  - split; [eexists; reflexivity|]. split; [reflexivity|].
    split; [eexists; split|]; vm_compute; reflexivity.
Qed.

(** C2, amended. For all validated parameters of [cosmic_objects_get]:
    when [id] and [slug] are both missing or empty, or when a non-empty
    [slug] comes without a non-empty [type], the handler returns an error
    envelope in an unchanged state, so without any request to the backend.
    Without a slug it answers that either id or slug must be provided,
    with one that type is required. *)
Theorem get_object_preconditions (X : Externals)
    (p : objects.getObjectSchema.infer) (w : World) :
  (truthy_string (objects.getObjectSchema.id p) = false
   /\ truthy_string (objects.getObjectSchema.slug p) = false)
  \/ (truthy_string (objects.getObjectSchema.slug p) = true
      /\ truthy_string (objects.getObjectSchema.type p) = false) ->
  objects.handleGetObject X p w
  = (Normal (failure
       (if truthy_string (objects.getObjectSchema.slug p)
        then js "Error: type is required when using slug to get an object"
        else js "Error: Either id or slug must be provided")), w)
  /\ new_calls (objects.handleGetObject X p) w = [].
Proof.
  intros Hpre.
  assert (objects.handleGetObject X p w
          = (Normal (failure
               (if truthy_string (objects.getObjectSchema.slug p)
                then js "Error: type is required when using slug to get an object"
                else js "Error: Either id or slug must be provided")), w)) as E.
  { unfold objects.handleGetObject.
    destruct Hpre as [[Hid Hslug]|[Hslug Htype]].
    - rewrite Hid, Hslug. reflexivity.
    - rewrite Hslug, Htype, andb_false_r. reflexivity. }
  split; [exact E | eapply new_calls_same, E].
Qed.

Lemma get_object_preconditions_witness :
  objects.handleGetObject quiet neitherSupplied world_rw
  = (Normal (failure (js "Error: Either id or slug must be provided")), world_rw)
  /\ new_calls (objects.handleGetObject quiet neitherSupplied) world_rw = [].
Proof.
  apply (get_object_preconditions quiet neitherSupplied world_rw).
  left. split; reflexivity.
Defined.

(** C10, as stated, fails: with [id] and [slug] supplied and no [type],
    the handler answers with the error envelope that type is required,
    and sends no request. And with an empty [id] supplied next to [slug]
    and [type], the lookup is by slug, not by id. *)
Lemma get_object_without_type_rejected :
  (is_Some (objects.getObjectSchema.id idAndSlugOnly)
   /\ is_Some (objects.getObjectSchema.slug idAndSlugOnly)
   /\ objects.handleGetObject quiet idAndSlugOnly world_rw
      = (Normal (failure
           (js "Error: type is required when using slug to get an object")), world_rw)
   /\ new_calls (objects.handleGetObject quiet idAndSlugOnly) world_rw = [])
  /\ (is_Some (objects.getObjectSchema.id emptyId)
      /\ is_Some (objects.getObjectSchema.slug emptyId)
      /\ new_calls (objects.handleGetObject quiet emptyId) world_rw
         = [getBySlugRequest (js "t") (js "b") any]).
Proof.
  split.
  - split; [eexists; reflexivity|]. split; [eexists; reflexivity|].
    split; reflexivity.
  - split; [eexists; reflexivity|]. split; [eexists; reflexivity|].
    vm_compute; reflexivity.
Qed.

(** C10, amended. When [cosmic_objects_get] is called with a non-empty
    [id], and [type] is supplied if [slug] is, the handler does exactly
    what it does on the same parameters without [slug] and [type]: they
    have no effect. Where the client is available it sends one request,
    the lookup by id (and none where it is not). *)
Theorem get_object_by_id_ignores_slug (X : Externals)
    (p : objects.getObjectSchema.infer) (w : World) (c : N) (s : jsstring) :
  objects.getObjectSchema.id p = Some (c :: s) ->
  (truthy_string (objects.getObjectSchema.slug p) = true ->
   truthy_string (objects.getObjectSchema.type p) = true) ->
  objects.handleGetObject X p w
  = objects.handleGetObject X
      (objects.getObjectSchema.mk (Some (c :: s)) None None
         (objects.getObjectSchema.props p) (objects.getObjectSchema.status p)) w
  /\ new_calls (objects.handleGetObject X p) w
     = if configured w
       then [getByIdRequest (c :: s) (objects.getObjectSchema.props p)
               (objects.getObjectSchema.status p)]
       else [].
Proof.
  intros Hid Hs.
  assert (truthy_string (objects.getObjectSchema.slug p)
          && negb (truthy_string (objects.getObjectSchema.type p)) = false) as Hguard.
  { destruct (truthy_string (objects.getObjectSchema.slug p)); [rewrite Hs|]; reflexivity. }
  split.
  - unfold objects.handleGetObject. cbn [objects.getObjectSchema.id
      objects.getObjectSchema.slug objects.getObjectSchema.type
      objects.getObjectSchema.props objects.getObjectSchema.status].
    rewrite Hid, Hguard. reflexivity.
  - unfold objects.handleGetObject. rewrite Hid, Hguard, truthy_status.
    cbn [truthy_string negb andb]. rewrite request_calls by apply _. reflexivity.
Qed.

Lemma get_object_by_id_ignores_slug_witness :
  objects.handleGetObject quiet bothSupplied world_rw
  = objects.handleGetObject quiet
      (objects.getObjectSchema.mk (Some (js "a")) None None None any) world_rw
  /\ new_calls (objects.handleGetObject quiet bothSupplied) world_rw
     = [getByIdRequest (js "a") None any].
Proof.
  apply (get_object_by_id_ignores_slug quiet bothSupplied world_rw 97%N []).
  - reflexivity.
  - reflexivity.
Defined.

(** ** The media argument of the upload *)

Lemma after_Some (p s t : jsstring) : media.after p s = Some t <-> s = p ++ t.
Proof.
  revert s. induction p as [|a p IH]; intros s; cbn.
  - split; congruence.
  - destruct s as [|b s]; [split; discriminate|].
    destruct (N.eqb_spec a b) as [->|Hne].
    + rewrite IH. split; congruence.
    + split; [discriminate|]. intros [= ? ?]. congruence.
Qed.

Lemma startsWith_true (s p : jsstring) :
  media.startsWith s p = true <-> exists t, s = p ++ t.
Proof.
  unfold media.startsWith. destruct (media.after p s) as [t|] eqn:E.
  - apply after_Some in E. split; eauto.
  - split; [discriminate|]. intros [t Ht]. apply after_Some in Ht. congruence.
Qed.

Lemma run_split (s r t : jsstring) :
  media.run s = (r, t) ->
  s = r ++ t /\ (media.semicolon ∉ r).
Proof.
  revert r t. induction s as [|c s IH]; intros r t; cbn.
  - intros [= <- <-]. split; [reflexivity | apply not_elem_of_nil].
  - destruct (N.eqb_spec c media.semicolon) as [->|Hne].
    + intros [= <- <-]. split; [reflexivity | apply not_elem_of_nil].
    + destruct (media.run s) as [r' t'] eqn:E. intros [= <- <-].
      destruct (IH r' t' eq_refl) as [-> Hr]. split; [reflexivity|].
      rewrite not_elem_of_cons. split; [congruence | exact Hr].
Qed.

Lemma run_stops (r t : jsstring) :
  media.semicolon ∉ r ->
  media.run (r ++ media.semicolon :: t) = (r, media.semicolon :: t).
Proof.
  induction r as [|c r IH]; cbn; intros Hr.
  - reflexivity.
  - apply not_elem_of_cons in Hr as [Hc Hr].
    destruct (N.eqb_spec c media.semicolon) as [->|_]; [contradiction|].
    rewrite (IH Hr). reflexivity.
Qed.

Lemma no_lineTerminator (data : jsstring) :
  forallb (fun c => negb (media.lineTerminator c)) data = true
  <-> (forall c, c ∈ data -> media.lineTerminator c = false).
Proof.
  rewrite forallb_forall. split; intros H c Hc.
  - apply negb_true_iff, H, list_elem_of_In, Hc.
  - apply negb_true_iff, H, list_elem_of_In, Hc.
Qed.

(** [matchDataUri] finds the two groups exactly on the strings of the
    shape of the pattern. *)
Lemma matchDataUri_Some (s mime data : jsstring) :
  media.matchDataUri s = Some (mime, data) <-> DataUri s mime data.
Proof.
  unfold media.matchDataUri, DataUri. split.
  - destruct (media.after (js "data:") s) as [s1|] eqn:E1; [|discriminate].
    apply after_Some in E1.
    destruct (media.run s1) as [[|c r] s2] eqn:E2; [discriminate|].
    apply run_split in E2 as [-> Hr].
    destruct (media.after (js ";base64,") s2) as [[|d data']|] eqn:E3;
      try discriminate.
    apply after_Some in E3.
    destruct (forallb _ (d :: data')) eqn:E4; [|discriminate].
    intros [= <- <-]. subst s s2. repeat split.
    + discriminate.
    + exact Hr.
    + discriminate.
    + apply no_lineTerminator, E4.
  - intros (-> & Hm & Hsemi & Hd & Hlt).
    assert (media.after (js "data:") (js "data:" ++ mime ++ js ";base64," ++ data)
            = Some (mime ++ js ";base64," ++ data)) as -> by (apply after_Some; reflexivity).
    change (js ";base64," ++ data) with (media.semicolon :: (js "base64," ++ data)).
    rewrite (run_stops _ _ Hsemi).
    destruct mime as [|c r]; [contradiction|].
    change (media.semicolon :: (js "base64," ++ data)) with (js ";base64," ++ data).
    assert (media.after (js ";base64,") (js ";base64," ++ data) = Some data) as ->
      by (apply after_Some; reflexivity).
    destruct data as [|d data']; [contradiction|].
    apply no_lineTerminator in Hlt. rewrite Hlt. reflexivity.
Qed.

Lemma matchDataUri_None (s : jsstring) :
  media.matchDataUri s = None <-> (forall mime data, ~ DataUri s mime data).
Proof.
  split.
  - intros E mime data H. apply matchDataUri_Some in H. congruence.
  - intros H. destruct (media.matchDataUri s) as [[mime data]|] eqn:E; [|reflexivity].
    apply matchDataUri_Some in E. destruct (H _ _ E).
Qed.

Lemma DataUri_startsWith (s mime data : jsstring) :
  DataUri s mime data -> media.startsWith s (js "data:") = true.
Proof. intros (-> & _). apply startsWith_true. eauto. Qed.

Lemma upload_forwards (X : Externals) (p : media.uploadMediaSchema.infer)
    (w : World) (v : JsVal) :
  write_enabled w = true -> configured w = true ->
  media.mediaInput (media.uploadMediaSchema.media p) = Some v ->
  new_calls (media.handleUploadMedia X p) w = [uploadRequest p v].
Proof.
  intros W C E. unfold media.handleUploadMedia. rewrite E.
  rewrite guarded_request_calls, W, C by apply _. reflexivity.
Qed.

Lemma upload_rejects (X : Externals) (p : media.uploadMediaSchema.infer) (w : World) :
  write_enabled w = true -> configured w = true ->
  media.mediaInput (media.uploadMediaSchema.media p) = None ->
  fst (media.handleUploadMedia X p w) = Normal (failure formatError)
  /\ new_calls (media.handleUploadMedia X p) w = [].
Proof.
  intros W C E.
  unfold new_calls, media.handleUploadMedia. rewrite (guarded_granted _ _ w W), E.
  destruct (getCosmicClient_cases w)
    as [(cl & w' & Ec & Eenv & Ecalls & _)|(e & _ & Econf)]; [|congruence].
  unfold try_catch, bind, ret. rewrite Ec. cbn [fst snd]. rewrite Ecalls.
  split; [reflexivity | apply drop_all].
Qed.

(** ** The decoder of the payload *)

Ltac euclid := zify; Z.to_euclidean_division_equations; lia.

Lemma lowByte_mod (c : N) : media.lowByte c = (c mod 256)%N.
Proof. unfold media.lowByte. apply (N.land_ones c 8). Qed.

Lemma lowByte_lowByte (c : N) : media.lowByte (media.lowByte c) = media.lowByte c.
Proof. rewrite !lowByte_mod. apply N.Div0.mod_mod. Qed.

(** The decoder reads a payload through the low bytes of its code units. *)
Lemma sextets_lowByte (data : jsstring) :
  media.sextets (media.lowByte <$> data) = media.sextets data.
Proof.
  induction data as [|c data IH]; [reflexivity|].
  cbn [fmap list_fmap media.sextets]. rewrite lowByte_lowByte, IH. reflexivity.
Qed.

Lemma below_64 (P : N -> bool) :
  forallb P (N.of_nat <$> seq 0 64) = true ->
  forall v, (v < 64)%N -> P v = true.
Proof.
  intros H v Hv. rewrite forallb_forall in H. apply H.
  rewrite <- (N2Nat.id v). apply in_map, in_seq. lia.
Qed.

Lemma unbase64_base64char (v : N) :
  (v < 64)%N ->
  media.lowByte (base64char v) = base64char v
  /\ base64char v <> 61%N
  /\ media.unbase64 (base64char v) = Some v.
Proof.
  intros Hv.
  pose proof (below_64
    (fun v => N.eqb (media.lowByte (base64char v)) (base64char v)
              && negb (N.eqb (base64char v) 61)
              && bool_decide (media.unbase64 (base64char v) = Some v))
    eq_refl v Hv) as H.
  cbv beta in H. apply andb_true_iff in H as [H H3].
  apply andb_true_iff in H as [H1 H2].
  apply N.eqb_eq in H1. apply negb_true_iff, N.eqb_neq in H2.
  apply bool_decide_eq_true in H3. auto.
Qed.

Lemma unbase64_range (b v : N) : media.unbase64 b = Some v -> (v < 64)%N.
Proof.
  unfold media.unbase64.
  repeat match goal with
         | |- context [N.leb ?a ?b] => destruct (N.leb_spec a b)
         | |- context [N.eqb ?a ?b] => destruct (N.eqb_spec a b)
         end; cbn [andb orb]; intros [= <-]; lia.
Qed.

Lemma sextets_range (data : jsstring) :
  Forall (fun v => (v < 64)%N) (media.sextets data).
Proof.
  induction data as [|c data IH]; cbn [media.sextets]; [constructor|].
  destruct (N.eqb (media.lowByte c) 61); [constructor|].
  destruct (media.unbase64 (media.lowByte c)) as [v|] eqn:E; [|exact IH].
  constructor; [apply (unbase64_range _ _ E) | exact IH].
Qed.

Lemma list_ind4 {A} (P : list A -> Prop) :
  P [] -> (forall a, P [a]) -> (forall a b, P [a; b]) ->
  (forall a b c, P [a; b; c]) ->
  (forall a b c d l, P l -> P (a :: b :: c :: d :: l)) ->
  forall l, P l.
Proof.
  intros H0 H1 H2 H3 H4 l.
  assert (P l /\ (forall a, P (a :: l)) /\ (forall a b, P (a :: b :: l))
          /\ (forall a b c, P (a :: b :: c :: l))) as [H _].
  { induction l as [|x l (IH0 & IH1 & IH2 & IH3)]; [auto|].
    split; [exact (IH1 x)|]. split; [intros a; exact (IH2 a x)|].
    split; [intros a b; exact (IH3 a b x)|].
    intros a b c. apply H4, IH0. }
  exact H.
Qed.

Lemma list_ind3 {A} (P : list A -> Prop) :
  P [] -> (forall a, P [a]) -> (forall a b, P [a; b]) ->
  (forall a b c l, P l -> P (a :: b :: c :: l)) ->
  forall l, P l.
Proof.
  intros H0 H1 H2 H3 l.
  assert (P l /\ (forall a, P (a :: l)) /\ (forall a b, P (a :: b :: l)))
    as [H _].
  { induction l as [|x l (IH0 & IH1 & IH2)]; [auto|].
    split; [exact (IH1 x)|]. split; [intros a; exact (IH2 a x)|].
    intros a b. apply H3, IH0. }
  exact H.
Qed.

(** What the decoder returns are bytes. *)
Lemma octets_range (l : list N) :
  Forall (fun v => (v < 64)%N) l -> Forall (fun b => (b < 256)%N) (media.octets l).
Proof.
  induction l as [|a|a b|a b c|a b c d l IH] using list_ind4;
    cbn [media.octets]; intros H;
    repeat match goal with
           | H : Forall _ (_ :: _) |- _ => apply Forall_cons in H as [? H]
           end;
    repeat constructor; try euclid.
  apply IH, H.
Qed.

Lemma sextets_base64char (v : N) (s : jsstring) :
  (v < 64)%N -> media.sextets (base64char v :: s) = v :: media.sextets s.
Proof.
  intros Hv. destruct (unbase64_base64char v Hv) as (H1 & H2 & H3).
  cbn [media.sextets]. rewrite H1, H3.
  destruct (N.eqb_spec (base64char v) 61); [contradiction | reflexivity].
Qed.

(** Decoding the base64 text of a sequence of bytes gives the bytes. *)
Lemma Buffer_from_base64_base64 (bytes : list N) :
  Forall (fun b => (b < 256)%N) bytes ->
  media.Buffer_from_base64 (base64 bytes) = bytes.
Proof.
  unfold media.Buffer_from_base64.
  induction bytes as [|a|a b|a b c bytes IH] using list_ind3; intros H;
    repeat match goal with
           | H : Forall _ (_ :: _) |- _ => apply Forall_cons in H as [? H]
           end;
    cbn [base64].
  - reflexivity.
  - rewrite !sextets_base64char by euclid. cbn. f_equal. euclid.
  - rewrite !sextets_base64char by euclid. cbn. f_equal; [|f_equal]; euclid.
  - rewrite !sextets_base64char by euclid. cbn [media.octets].
    rewrite (IH H). f_equal; [|f_equal; [|f_equal]]; euclid.
Qed.

Lemma base64char_line (v : N) : media.lineTerminator (base64char v) = false.
Proof.
  unfold base64char.
  repeat match goal with
         | |- context [N.ltb ?a ?b] => destruct (N.ltb_spec a b); cbv iota
         end;
    try (destruct (N.eqb_spec v 62); cbv iota);
    unfold media.lineTerminator;
    repeat match goal with
           | |- context [N.eqb ?a ?b] => destruct (N.eqb_spec a b); [lia|]
           end; reflexivity.
Qed.

Lemma base64_line (bytes : list N) (c : N) :
  c ∈ base64 bytes -> media.lineTerminator c = false.
Proof.
  induction bytes as [|a|a b|a b c' bytes IH] using list_ind3; cbn [base64];
    intros Hc;
    repeat (apply elem_of_cons in Hc as [->|Hc];
            [first [apply base64char_line | reflexivity]|]);
    first [apply elem_of_nil in Hc; destruct Hc | apply IH, Hc].
Qed.

Lemma base64_nonempty (bytes : list N) : bytes <> [] -> base64 bytes <> [].
Proof. destruct bytes as [|a [|b [|c l]]]; [contradiction| | |]; discriminate. Qed.

(** C3. For every validated input of [cosmic_media_upload], in a state
    with a write credential and an available client: a [media] string of
    the shape [data:<mime>;base64,<data>] is sent as the bytes that its
    payload decodes to, and these depend on the low bytes of the code
    units of the payload only; when the payload is the base64 text of a
    sequence of bytes, whatever the bytes are, these are the bytes sent; a
    string that starts with [data:] without that shape gets the error
    envelope about the invalid format and nothing is sent; any other
    string is sent unchanged, as a URL. In particular
    [data:image/png;base64,Zm9v] sends the bytes of [foo]. *)
Theorem upload_media_argument (X : Externals) (p : media.uploadMediaSchema.infer)
    (w : World) :
  write_enabled w = true -> configured w = true ->
  (forall mime data,
      DataUri (media.uploadMediaSchema.media p) mime data ->
      new_calls (media.handleUploadMedia X p) w
      = [uploadRequest p (JBuffer (media.Buffer_from_base64 data))])
  /\ (forall mime data,
        DataUri (media.uploadMediaSchema.media p) mime data ->
        new_calls (media.handleUploadMedia X p) w
        = [uploadRequest p
             (JBuffer (media.Buffer_from_base64 (media.lowByte <$> data)))]
        /\ Forall (fun b => (b < 256)%N) (media.Buffer_from_base64 data))
  /\ (forall mime bytes,
        mime <> [] -> media.semicolon ∉ mime ->
        bytes <> [] -> Forall (fun b => (b < 256)%N) bytes ->
        media.uploadMediaSchema.media p
        = js "data:" ++ mime ++ js ";base64," ++ base64 bytes ->
        new_calls (media.handleUploadMedia X p) w
        = [uploadRequest p (JBuffer bytes)])
  /\ (media.startsWith (media.uploadMediaSchema.media p) (js "data:") = true ->
      (forall mime data, ~ DataUri (media.uploadMediaSchema.media p) mime data) ->
      fst (media.handleUploadMedia X p w) = Normal (failure formatError)
      /\ new_calls (media.handleUploadMedia X p) w = [])
  /\ (media.startsWith (media.uploadMediaSchema.media p) (js "data:") = false ->
      new_calls (media.handleUploadMedia X p) w
      = [uploadRequest p (JStr (media.uploadMediaSchema.media p))])
  /\ (media.uploadMediaSchema.media p = js "data:image/png;base64,Zm9v" ->
      new_calls (media.handleUploadMedia X p) w
      = [uploadRequest p (JBuffer (js "foo"))]).
Proof.
  intros W C.
  assert (forall mime data,
            DataUri (media.uploadMediaSchema.media p) mime data ->
            new_calls (media.handleUploadMedia X p) w
            = [uploadRequest p (JBuffer (media.Buffer_from_base64 data))])
    as Hdecoded.
  { intros mime data Hshape. apply (upload_forwards X p w _ W C).
    unfold media.mediaInput.
    rewrite (DataUri_startsWith _ _ _ Hshape).
    apply matchDataUri_Some in Hshape. rewrite Hshape. reflexivity. }
  split; [exact Hdecoded|]. split; [|split; [|split; [|split]]].
  - intros mime data Hshape. split.
    + rewrite (Hdecoded mime data Hshape).
      unfold media.Buffer_from_base64. rewrite sextets_lowByte. reflexivity.
    + apply octets_range, sextets_range.
  - intros mime bytes Hm Hsemi Hb Hbytes Hmedia.
    rewrite (Hdecoded mime (base64 bytes)).
    + rewrite (Buffer_from_base64_base64 bytes Hbytes). reflexivity.
    + split; [exact Hmedia|]. split; [exact Hm|]. split; [exact Hsemi|].
      split; [apply base64_nonempty, Hb | apply base64_line].
  - intros Hdata Hshape. apply (upload_rejects X p w W C).
    unfold media.mediaInput.
    rewrite Hdata. apply matchDataUri_None in Hshape. rewrite Hshape. reflexivity.
  - intros Hurl. apply (upload_forwards X p w _ W C).
    unfold media.mediaInput. rewrite Hurl. reflexivity.
  - intros Hpng. apply (upload_forwards X p w _ W C).
    rewrite Hpng. reflexivity.
Qed.

Lemma upload_media_argument_witness :
  new_calls (media.handleUploadMedia quiet inlinePng) world_rw
  = [uploadRequest inlinePng (JBuffer (js "foo"))]
  /\ new_calls (media.handleUploadMedia quiet inlineJpeg) world_rw
     = [uploadRequest inlineJpeg (JBuffer [255; 216; 255; 224]%N)]
  /\ (fst (media.handleUploadMedia quiet badInline world_rw)
      = Normal (failure formatError)
      /\ new_calls (media.handleUploadMedia quiet badInline) world_rw = [])
  /\ new_calls (media.handleUploadMedia quiet remoteUrl) world_rw
     = [uploadRequest remoteUrl (JStr (js "https://example.com/a.png"))].
Proof.
  split; [|split; [|split]].
  - apply (upload_media_argument quiet inlinePng world_rw eq_refl eq_refl).
    reflexivity.
  - destruct (upload_media_argument quiet inlineJpeg world_rw eq_refl eq_refl)
      as (_ & _ & Hbytes & _).
    apply (Hbytes (js "image/jpeg") [255; 216; 255; 224]%N).
    + discriminate.
    + apply (bool_decide_unpack _). vm_compute. exact I.
    + discriminate.
    + repeat constructor.
    + reflexivity.
  - apply (upload_media_argument quiet badInline world_rw eq_refl eq_refl).
    + reflexivity.
    + apply matchDataUri_None. reflexivity.
  - apply (upload_media_argument quiet remoteUrl world_rw eq_refl eq_refl).
    reflexivity.
Defined.

(** ** The registry and the dispatcher *)

Lemma switch_label (c : index.Case) : index.switch (index.label c) = Some c.
Proof. destruct c; vm_compute; reflexivity. Qed.

Lemma switch_Some (nm : jsstring) (c : index.Case) :
  index.switch nm = Some c -> index.label c = nm.
Proof.
  unfold index.switch. intros E. apply find_some in E as [_ E].
  apply bool_decide_eq_true in E. exact E.
Qed.

Lemma label_inj (c c' : index.Case) : index.label c = index.label c' -> c = c'.
Proof.
  intros E. pose proof (switch_label c) as Hc. rewrite E, switch_label in Hc.
  congruence.
Qed.

Lemma names_labels : name <$> index.allTools = index.label <$> index.cases.
Proof. vm_compute. reflexivity. Qed.

Lemma cases_complete (c : index.Case) : c ∈ index.cases.
Proof. destruct c; unfold index.cases; repeat constructor. Qed.

Lemma switch_None (nm : jsstring) :
  nm ∉ (name <$> index.allTools) -> index.switch nm = None.
Proof.
  intros Hn. destruct (index.switch nm) as [c|] eqn:E; [|reflexivity].
  apply switch_Some in E. destruct Hn. rewrite names_labels, <- E.
  apply list_elem_of_fmap_2, cases_complete.
Qed.

(** C5. For every call whose name is not one of the 17 listed tool names,
    whatever the schemas and the handlers are, the dispatcher returns the
    error envelope with the text [Unknown tool: <name>] and leaves the
    state as it was: no schema, no handler and no request to the backend
    take part. *)
Theorem unknown_tool (S : index.Schemas) (H : index.Handlers)
    (nm : jsstring) (args : JsVal) (w : World) :
  nm ∉ (name <$> index.allTools) ->
  index.CallTool S H nm args w
  = (Normal (mkResult [mkText (js "Unknown tool: " ++ nm)] (Some true)), w).
Proof.
  intros Hn. unfold index.CallTool, try_catch.
  rewrite (switch_None nm Hn). reflexivity.
Qed.

Lemma unknown_tool_witness :
  index.CallTool (index.schemas quiet) (index.handlers quiet)
    (js "cosmic_objects_purge") JUndefined world_rw
  = (Normal (mkResult [mkText (js "Unknown tool: cosmic_objects_purge")] (Some true)),
     world_rw).
Proof.
  apply (unknown_tool (index.schemas quiet) (index.handlers quiet)
           (js "cosmic_objects_purge") JUndefined world_rw).
  apply (bool_decide_unpack _). vm_compute. exact I.
Defined.

(** Every clause but that of [cosmic_types_list] is the validated one. *)
Lemma clause_validated (S : index.Schemas) (H : index.Handlers) (c : index.Case) :
  c <> index.cosmic_types_list ->
  index.clause S H c = validated_clause S H c.
Proof. destruct c; intros Hc; try reflexivity. contradiction. Qed.

Lemma parse_then_throw {A} (schema : JsVal -> Completion A)
    (handler : A -> M ToolResult) (args : JsVal) (w : World) (e : Thrown) :
  schema args = Throw e ->
  index.parse_then schema handler args w = (Throw e, w).
Proof.
  intros E. unfold index.parse_then, index.parse, bind. rewrite E. reflexivity.
Qed.

Lemma parse_then_normal {A} (schema : JsVal -> Completion A)
    (handler : A -> M ToolResult) (args : JsVal) (w : World) (p : A) :
  schema args = Normal p ->
  index.parse_then schema handler args w
  = (result <- handler p ;; ret (index.toCallToolResult result)) w.
Proof.
  intros E. unfold index.parse_then, index.parse, bind. rewrite E. reflexivity.
Qed.

(** C4. Whatever the schemas and the handlers do, a call returns an
    envelope: no thrown value leaves the dispatcher. An error thrown by
    the parse of the arguments, or by the handler, of a tool comes back as
    the error envelope with the text
    [Error executing tool <name>: <message>], where the message is that
    of the error, or [Unknown error] for a thrown value that is not an
    [Error]. *)
Theorem dispatcher_catches (S : index.Schemas) (H : index.Handlers)
    (nm : jsstring) (args : JsVal) (w : World) :
  (exists r w', index.CallTool S H nm args w = (Normal r, w'))
  /\ (forall c e w',
        index.switch nm = Some c ->
        index.clause S H c args w = (Throw e, w') ->
        index.CallTool S H nm args w = (Normal (executionError nm e), w'))
  /\ (forall c e,
        c <> index.cosmic_types_list ->
        schema_of S c args = Throw e ->
        index.CallTool S H (index.label c) args w
        = (Normal (executionError (index.label c) e), w))
  /\ (forall c p e w',
        c = index.cosmic_types_list \/ schema_of S c args = Normal p ->
        handler_of H c p w = (Throw e, w') ->
        index.CallTool S H (index.label c) args w
        = (Normal (executionError (index.label c) e), w')).
Proof.
  assert (forall nm' c e w',
            index.switch nm' = Some c ->
            index.clause S H c args w = (Throw e, w') ->
            index.CallTool S H nm' args w = (Normal (executionError nm' e), w'))
    as Hcatch.
  { intros nm' c e w' Hs Hc. unfold index.CallTool, try_catch.
    rewrite Hs, Hc. reflexivity. }
  split; [|split; [|split]].
  - unfold index.CallTool, try_catch.
    destruct (index.switch nm) as [c|].
    + destruct (index.clause S H c args w) as [[r|e] w']; eexists _, _; reflexivity.
    + eexists _, _; reflexivity.
  - apply Hcatch.
  - intros c e Hc Hparse. apply (Hcatch _ c); [apply switch_label|].
    rewrite (clause_validated S H c Hc). apply parse_then_throw, Hparse.
  - intros c p e w' Hparse Hthrow. apply (Hcatch _ c); [apply switch_label|].
    destruct Hparse as [->|Hparse].
    + cbn in *. unfold bind. rewrite Hthrow. reflexivity.
    + destruct (decide (c = index.cosmic_types_list)) as [->|Hc].
      * cbn in *. unfold bind. rewrite Hthrow. reflexivity.
      * rewrite (clause_validated S H c Hc). unfold validated_clause.
        rewrite (parse_then_normal _ _ _ _ _ Hparse). unfold bind.
        rewrite Hthrow. reflexivity.
Qed.

Lemma dispatcher_catches_witness :
  index.CallTool (index.schemas quiet) (index.handlers quiet)
    (js "cosmic_objects_get") JUndefined world_rw
  = (Normal (mkResult
       [mkText (js "Error executing tool cosmic_objects_get: Required")] (Some true)),
     world_rw).
Proof.
  destruct (dispatcher_catches (index.schemas quiet) (index.handlers quiet)
              (js "cosmic_objects_get") JUndefined world_rw)
    as (_ & _ & Hparse & _).
  apply (Hparse index.cosmic_objects_get (ErrorObj (js "Required"))).
  - discriminate.
  - reflexivity.
Defined.

(** C8, as stated, fails for [cosmic_types_list]: its schema rejects the
    arguments [undefined], so the validated clause would throw; the
    dispatcher still invokes the handler, which sends its request and
    returns the success envelope. *)
Lemma types_list_skips_validation :
  schema_of (index.schemas quiet) index.cosmic_types_list JUndefined
  = Throw (ErrorObj (js "Required"))
  /\ validated_clause (index.schemas quiet) (index.handlers quiet)
       index.cosmic_types_list JUndefined world_rw
     = (Throw (ErrorObj (js "Required")), world_rw)
  /\ new_calls (index.server quiet (js "cosmic_types_list") JUndefined) world_rw
     = [sdk objectTypes_ find []]
  /\ (exists r, fst (index.server quiet (js "cosmic_types_list") JUndefined world_rw)
                = Normal r /\ isError r = None).
Proof.
  split; [reflexivity|]. split; [reflexivity|].
  split; [vm_compute; reflexivity|].
  eexists. split; vm_compute; reflexivity.
Qed.

(** C8, amended. For every known tool name other than [cosmic_types_list]
    the dispatcher parses the raw arguments through the schema of that
    tool first: when the parse throws, the clause throws that error in an
    unchanged state (and the outer catch turns it into the error envelope
    of the dispatcher), otherwise the handler is invoked on the parsed
    parameters and on nothing else. The clause of [cosmic_types_list]
    invokes its handler, which takes no parameters, without parsing. *)
Theorem clause_validates (S : index.Schemas) (H : index.Handlers)
    (c : index.Case) (args : JsVal) (w : World) :
  c <> index.cosmic_types_list ->
  index.clause S H c args w
  = match schema_of S c args with
    | Throw e => (Throw e, w)
    | Normal p => (result <- handler_of H c p ;; ret (index.toCallToolResult result)) w
    end
  /\ (forall e, schema_of S c args = Throw e ->
                index.CallTool S H (index.label c) args w
                = (Normal (executionError (index.label c) e), w))
  /\ index.clause S H index.cosmic_types_list args w
     = (result <- index.handleListObjectTypes H ;;
        ret (index.toCallToolResult result)) w.
Proof.
  intros Hc. rewrite (clause_validated S H c Hc). unfold validated_clause.
  split; [|split].
  - destruct (schema_of S c args) as [p|e] eqn:E.
    + apply parse_then_normal, E.
    + apply parse_then_throw, E.
  - intros e E. unfold index.CallTool, try_catch.
    rewrite switch_label, (clause_validated S H c Hc). unfold validated_clause.
    rewrite (parse_then_throw _ _ _ _ _ E). reflexivity.
  - reflexivity.
Qed.

Lemma clause_validates_witness :
  index.clause (index.schemas quiet) (index.handlers quiet)
    index.cosmic_objects_delete JNull world_rw
  = (Throw (ErrorObj (js "Required")), world_rw).
Proof.
  apply (clause_validates (index.schemas quiet) (index.handlers quiet)
           index.cosmic_objects_delete JNull world_rw).
  discriminate.
Defined.

(** C9. The list that list-tools returns is the concatenation of the four
    catalogs in the order objects, media, types, AI; it holds 17
    descriptors (5, 4, 5 and 3) with pairwise distinct names; the names
    are, in order, the labels of the clauses of the dispatcher, so every
    listed name selects exactly one clause and every clause is listed. *)
Theorem registry_consistent :
  (forall w, index.ListTools w = (Normal index.allTools, w))
  /\ index.allTools
     = objects.objectTools ++ media.mediaTools
         ++ objectTypes.objectTypeTools ++ ai.aiTools
  /\ length objects.objectTools = 5
  /\ length media.mediaTools = 4
  /\ length objectTypes.objectTypeTools = 5
  /\ length ai.aiTools = 3
  /\ length index.allTools = 17
  /\ NoDup (name <$> index.allTools)
  /\ name <$> index.allTools = index.label <$> index.cases
  /\ (forall d, d ∈ index.allTools ->
        exists c, index.switch (name d) = Some c
                  /\ forall c', index.label c' = name d <-> c' = c)
  /\ (forall c, index.switch (index.label c) = Some c
                /\ exists d, d ∈ index.allTools /\ name d = index.label c).
Proof.
  split; [reflexivity|]. split; [reflexivity|].
  do 5 (split; [reflexivity|]).
  split; [apply (bool_decide_unpack _); vm_compute; exact I|].
  split; [apply names_labels|]. split.
  - intros d Hd.
    assert (name d ∈ index.label <$> index.cases) as Hn
      by (rewrite <- names_labels; apply list_elem_of_fmap_2, Hd).
    apply list_elem_of_fmap in Hn as (c & E & _).
    exists c. rewrite E. split; [apply switch_label|].
    intros c'. split; [apply label_inj | intros ->; reflexivity].
  - intros c. split; [apply switch_label|].
    assert (index.label c ∈ name <$> index.allTools) as Hn
      by (rewrite names_labels; apply list_elem_of_fmap_2, cases_complete).
    apply list_elem_of_fmap in Hn as (d & E & Hd). eauto.
Qed.

(** ** Sparse patches of the update handlers *)

Ltac keys_differ :=
  let E := fresh "E" in intros E; vm_compute in E; discriminate E.

(** Reads a property that was, or was not, assigned. *)
Ltac read_patch :=
  repeat first
    [ rewrite lookup_insert_eq
    | rewrite lookup_insert_ne by keys_differ
    | rewrite lookup_empty ];
  reflexivity.

(** A key that is present in a patch is one of those assigned. *)
Ltac key_assigned H :=
  repeat (rewrite lookup_insert in H;
          destruct (decide _) as [<-|?]; [solve [repeat constructor]|]);
  rewrite lookup_empty in H; destruct H as [? H]; discriminate H.

(** C6. For every validated input of [cosmic_objects_update] and of
    [cosmic_types_update], in a state with a write credential and an
    available client, the handler sends one [updateOne] request whose
    patch holds each optional field exactly when the input supplies it,
    with the supplied value, and holds no other key. The input
    [{ id: "x", title: "New" }] sends the patch [{ title: "New" }]. *)
Theorem update_patch_sparse (X : Externals) (w : World) :
  write_enabled w = true -> configured w = true ->
  (forall p : objects.updateObjectSchema.infer,
      exists updates : gmap jsstring JsVal,
        new_calls (objects.handleUpdateObject X p) w
        = [sdk objects_ updateOne
             [JStr (objects.updateObjectSchema.id p); JObj updates]]
        /\ updates !! js "title" = JStr <$> objects.updateObjectSchema.title p
        /\ updates !! js "slug" = JStr <$> objects.updateObjectSchema.slug p
        /\ updates !! js "content" = JStr <$> objects.updateObjectSchema.content p
        /\ updates !! js "status"
           = (fun v => JStr (Status_str v)) <$> objects.updateObjectSchema.status p
        /\ updates !! js "metadata" = JObj <$> objects.updateObjectSchema.metadata p
        /\ (forall k, is_Some (updates !! k) ->
                      k ∈ [js "title"; js "slug"; js "content"; js "status";
                           js "metadata"]))
  /\ (forall p : objectTypes.updateObjectTypeSchema.infer,
      exists updates : gmap jsstring JsVal,
        new_calls (objectTypes.handleUpdateObjectType X p) w
        = [sdk objectTypes_ updateOne
             [JStr (objectTypes.updateObjectTypeSchema.slug p); JObj updates]]
        /\ updates !! js "title" = JStr <$> objectTypes.updateObjectTypeSchema.title p
        /\ updates !! js "singular"
           = JStr <$> objectTypes.updateObjectTypeSchema.singular p
        /\ updates !! js "metafields"
           = JArr <$> objectTypes.updateObjectTypeSchema.metafields p
        /\ updates !! js "options"
           = JObj <$> objectTypes.updateObjectTypeSchema.options p
        /\ (forall k, is_Some (updates !! k) ->
                      k ∈ [js "title"; js "singular"; js "metafields"; js "options"]))
  /\ new_calls (objects.handleUpdateObject X retitle) w
     = [sdk objects_ updateOne [JStr (js "x"); JObj {[ js "title" := JStr (js "New") ]}]].
Proof.
  intros W C. split; [|split].
  - intros p. eexists. split.
    { unfold objects.handleUpdateObject.
      rewrite guarded_request_calls, W, C by apply _. reflexivity. }
    destruct (objects.updateObjectSchema.title p),
             (objects.updateObjectSchema.slug p),
             (objects.updateObjectSchema.content p),
             (objects.updateObjectSchema.status p),
             (objects.updateObjectSchema.metadata p);
      cbn [fmap option_fmap option_map];
      (split; [read_patch|]); (split; [read_patch|]); (split; [read_patch|]);
      (split; [read_patch|]); (split; [read_patch|]);
      intros k Hk; key_assigned Hk.
  - intros p. eexists. split.
    { unfold objectTypes.handleUpdateObjectType.
      rewrite guarded_request_calls, W, C by apply _. reflexivity. }
    destruct (objectTypes.updateObjectTypeSchema.title p),
             (objectTypes.updateObjectTypeSchema.singular p),
             (objectTypes.updateObjectTypeSchema.metafields p),
             (objectTypes.updateObjectTypeSchema.options p);
      cbn [fmap option_fmap option_map];
      (split; [read_patch|]); (split; [read_patch|]); (split; [read_patch|]);
      (split; [read_patch|]);
      intros k Hk; key_assigned Hk.
  - unfold objects.handleUpdateObject.
    rewrite guarded_request_calls, W, C by apply _. reflexivity.
Qed.

Lemma update_patch_sparse_witness :
  new_calls (objects.handleUpdateObject quiet retitle) world_rw
  = [sdk objects_ updateOne [JStr (js "x"); JObj {[ js "title" := JStr (js "New") ]}]].
Proof.
  apply (update_patch_sparse quiet world_rw); reflexivity.
Defined.

(** ** Parameters left out of the input *)

Ltac sent Hrq :=
  match type of Hrq with
  | _ ∈ (if ?c then _ else _) =>
      destruct c; [|apply elem_of_nil in Hrq; destruct Hrq];
      apply list_elem_of_singleton in Hrq; subst
  | _ ∈ [] => apply elem_of_nil in Hrq; destruct Hrq
  end.

Ltac each_omitted Hf tac :=
  cbn [absent app] in Hf;
  repeat (apply elem_of_cons in Hf as [->|Hf]; [tac|]);
  apply elem_of_nil in Hf; destruct Hf.

(** C7, as stated, fails for the create handlers: on an input of
    [cosmic_objects_create] without [slug], the request object holds the
    property [slug], with the value [undefined]. *)
Lemma create_object_carries_omitted_slug :
  js "slug" ∈ omitted (CreateObject draftPost)
  /\ exists o : gmap jsstring JsVal,
       new_calls (handle quiet (CreateObject draftPost)) world_rw
       = [sdk objects_ insertOne [JObj o]]
       /\ o !! js "slug" = Some JUndefined
       /\ carried (sdk objects_ insertOne [JObj o]) (js "slug") <> None.
Proof.
  split; [vm_compute; repeat constructor|].
  eexists. split; [vm_compute; reflexivity|].
  split; [vm_compute; reflexivity | vm_compute; discriminate].
Qed.

(** C7, amended. For every tool, all validated parameters, and every
    optional parameter that the input leaves out, a request that the
    handler sends carries for that parameter: nothing, for the get,
    update and media-list handlers (and the delete and type-read handlers
    have no optional parameter); the value [undefined], never [null], for
    the handlers that write every declared parameter into the request
    object (object create, media upload, type create, and the three AI
    generations); and for the object listing what the caller's own
    [query] object holds under that name, the handler adding nothing. *)
Theorem omitted_parameters (X : Externals) (i : Invocation) (w : World)
    (f : jsstring) (rq : BackendCall) :
  f ∈ omitted i -> rq ∈ new_calls (handle X i) w ->
  carried rq f = carried_when_omitted i f
  /\ (tool i <> index.cosmic_objects_list -> carried rq f <> Some JNull).
Proof.
  intros Hf Hrq.
  assert (carried rq f = carried_when_omitted i f) as Hcarried; [|split;
    [exact Hcarried
    |intros Hi; rewrite Hcarried; destruct i; cbn; try discriminate; contradiction]].
  destruct i; cbn [handle omitted tool carried_when_omitted passesThrough] in *;
    try (apply elem_of_nil in Hf; destruct Hf).
  - (* cosmic_objects_list *)
    unfold objects.handleListObjects in Hrq. rewrite request_calls in Hrq by apply _.
    sent Hrq. rewrite truthy_status.
    destruct (objects.listObjectsSchema.query p) as [q|];
      cbn [default];
      destruct (objects.listObjectsSchema.type p) as [[|c0 s0]|],
               (objects.listObjectsSchema.props p),
               (objects.listObjectsSchema.sort p) as [[|c1 s1]|],
               (objects.listObjectsSchema.depth p),
               (truthy_number (objects.listObjectsSchema.limit p)),
               (truthy_number (objects.listObjectsSchema.skip p));
      each_omitted Hf ltac:(
        unfold carried, refine, sdk; cbn [args chain arg_field];
        rewrite ?lookup_insert_ne by keys_differ;
        match goal with
        | |- context [?m !! ?k] => destruct (m !! k); [reflexivity|]
        end;
        destruct (objects.listObjectsSchema.status p); vm_compute; reflexivity).
  - (* cosmic_objects_get *)
    unfold objects.handleGetObject in Hrq. rewrite truthy_status in Hrq.
    destruct (objects.getObjectSchema.id p) as [[|c0 s0]|],
             (objects.getObjectSchema.slug p) as [[|c1 s1]|],
             (objects.getObjectSchema.type p) as [[|c2 s2]|];
      cbn [truthy_string negb andb] in Hrq;
      first [ rewrite return_calls in Hrq | rewrite request_calls in Hrq by apply _ ];
      sent Hrq;
      destruct (objects.getObjectSchema.props p);
      each_omitted Hf ltac:(
        destruct (objects.getObjectSchema.status p); vm_compute; reflexivity).
  - (* cosmic_objects_create *)
    unfold objects.handleCreateObject in Hrq. rewrite guarded_request_calls in Hrq by apply _.
    sent Hrq.
    destruct (objects.createObjectSchema.slug p),
             (objects.createObjectSchema.content p),
             (objects.createObjectSchema.metadata p),
             (objects.createObjectSchema.locale p);
      each_omitted Hf ltac:(vm_compute; reflexivity).
  - (* cosmic_objects_update *)
    unfold objects.handleUpdateObject in Hrq. rewrite guarded_request_calls in Hrq by apply _.
    sent Hrq.
    destruct (objects.updateObjectSchema.title p),
             (objects.updateObjectSchema.slug p),
             (objects.updateObjectSchema.content p),
             (objects.updateObjectSchema.status p),
             (objects.updateObjectSchema.metadata p);
      each_omitted Hf ltac:(vm_compute; reflexivity).
  - (* cosmic_media_list *)
    unfold media.handleListMedia in Hrq. rewrite request_calls in Hrq by apply _.
    sent Hrq.
    destruct (media.listMediaSchema.folder p) as [[|c0 s0]|],
             (media.listMediaSchema.props p),
             (truthy_number (media.listMediaSchema.limit p)),
             (truthy_number (media.listMediaSchema.skip p));
      each_omitted Hf ltac:(vm_compute; reflexivity).
  - (* cosmic_media_get *)
    unfold media.handleGetMedia in Hrq. rewrite request_calls in Hrq by apply _.
    sent Hrq.
    destruct (media.getMediaSchema.props p);
      each_omitted Hf ltac:(vm_compute; reflexivity).
  - (* cosmic_media_upload *)
    unfold media.handleUploadMedia in Hrq.
    destruct (media.mediaInput (media.uploadMediaSchema.media p));
      first [ rewrite guarded_return_calls in Hrq
            | rewrite guarded_request_calls in Hrq by apply _ ];
      sent Hrq.
    destruct (media.uploadMediaSchema.folder p),
             (media.uploadMediaSchema.metadata p);
      each_omitted Hf ltac:(vm_compute; reflexivity).
  - (* cosmic_types_create *)
    unfold objectTypes.handleCreateObjectType in Hrq.
    rewrite guarded_request_calls in Hrq by apply _. sent Hrq.
    destruct (objectTypes.createObjectTypeSchema.singular p),
             (objectTypes.createObjectTypeSchema.metafields p),
             (objectTypes.createObjectTypeSchema.options p);
      each_omitted Hf ltac:(vm_compute; reflexivity).
  - (* cosmic_types_update *)
    unfold objectTypes.handleUpdateObjectType in Hrq.
    rewrite guarded_request_calls in Hrq by apply _. sent Hrq.
    destruct (objectTypes.updateObjectTypeSchema.title p),
             (objectTypes.updateObjectTypeSchema.singular p),
             (objectTypes.updateObjectTypeSchema.metafields p),
             (objectTypes.updateObjectTypeSchema.options p);
      each_omitted Hf ltac:(vm_compute; reflexivity).
  - (* cosmic_ai_generate_text *)
    unfold ai.handleGenerateText in Hrq. rewrite request_calls in Hrq by apply _. sent Hrq.
    destruct (ai.generateTextSchema.model p),
             (ai.generateTextSchema.max_tokens p);
      each_omitted Hf ltac:(vm_compute; reflexivity).
  - (* cosmic_ai_generate_image *)
    unfold ai.handleGenerateImage in Hrq. rewrite guarded_request_calls in Hrq by apply _.
    sent Hrq.
    destruct (ai.generateImageSchema.model p),
             (ai.generateImageSchema.folder p),
             (ai.generateImageSchema.metadata p),
             (ai.generateImageSchema.alt_text p);
      each_omitted Hf ltac:(vm_compute; reflexivity).
  - (* cosmic_ai_generate_video *)
    unfold ai.handleGenerateVideo in Hrq. rewrite guarded_request_calls in Hrq by apply _.
    sent Hrq.
    destruct (ai.generateVideoSchema.model p),
             (ai.generateVideoSchema.duration p),
             (ai.generateVideoSchema.resolution p),
             (ai.generateVideoSchema.folder p),
             (ai.generateVideoSchema.metadata p);
      each_omitted Hf ltac:(vm_compute; reflexivity).
Qed.

Lemma omitted_parameters_witness :
  carried (sdk objects_ updateOne
             [JStr (js "x"); JObj {[ js "title" := JStr (js "New") ]}]) (js "slug")
  = None
  /\ carried (sdk objects_ updateOne
                [JStr (js "x"); JObj {[ js "title" := JStr (js "New") ]}]) (js "slug")
     <> Some JNull.
Proof.
  destruct (omitted_parameters quiet (UpdateObject retitle) world_rw (js "slug")
              (sdk objects_ updateOne
                 [JStr (js "x"); JObj {[ js "title" := JStr (js "New") ]}]))
    as [Hcarried Hnull].
  - vm_compute. repeat constructor.
  - vm_compute. repeat constructor.
  - split; [exact Hcarried | apply Hnull; discriminate].
Defined.

(** * Further properties of the code *)

(** ** The configuration and the client *)

Lemma getConfig_state (w : World) : snd (client.getConfig w) = w.
Proof.
  unfold client.getConfig, bind, gets, ret, throw. cbv beta iota.
  destruct (env w !! js "COSMIC_BUCKET_SLUG") as [[|a b]|]; try reflexivity.
  destruct (env w !! js "COSMIC_READ_KEY") as [[|a' b']|]; reflexivity.
Qed.

Lemma getConfig_result (w : World) :
  fst (client.getConfig w)
  = match env w !! js "COSMIC_BUCKET_SLUG", env w !! js "COSMIC_READ_KEY" with
    | Some (a :: b), Some (a' :: b') =>
        Normal (mkConfig (a :: b) (a' :: b') (env w !! js "COSMIC_WRITE_KEY"))
    | Some (a :: b), _ =>
        Throw (ErrorObj (js "COSMIC_READ_KEY environment variable is required"))
    | _, _ =>
        Throw (ErrorObj (js "COSMIC_BUCKET_SLUG environment variable is required"))
    end.
Proof.
  unfold client.getConfig, bind, gets, ret, throw. cbv beta iota.
  destruct (env w !! js "COSMIC_BUCKET_SLUG") as [[|a b]|]; try reflexivity;
    destruct (env w !! js "COSMIC_READ_KEY") as [[|a' b']|]; reflexivity.
Qed.

(** X1. [validateConfig] ends the process, with code 1 and one line that
    names the missing variable, exactly when the bucket slug or the read
    key is missing or empty; a missing write key never does, it only adds
    the warning line. When it lets the process go on, the client is
    available in every later state with the same environment. *)
Theorem startup_validation (w : World) :
  (exit (validateConfig w) = None
   <-> truthy_string (env w !! js "COSMIC_BUCKET_SLUG") = true
       /\ truthy_string (env w !! js "COSMIC_READ_KEY") = true)
  /\ (exit (validateConfig w) = None \/ exit (validateConfig w) = Some 1%Z)
  /\ (exit (validateConfig w) = Some 1%Z ->
      stderr (validateConfig w)
      = [js "[cosmic-mcp] Configuration error: " ++ configError w])
  /\ (exit (validateConfig w) = None ->
      (write_enabled w = false <->
       js "[cosmic-mcp] Write key not provided - write operations will be disabled"
         ∈ stderr (validateConfig w))
      /\ forall w', env w' = env w -> configured w' = true).
Proof.
  unfold validateConfig, configError, write_enabled, configured.
  rewrite getConfig_result.
  destruct (env w !! js "COSMIC_BUCKET_SLUG") as [[|a b]|] eqn:Eb;
    cbn [truthy_string exit stderr];
    try (split; [split; [discriminate | intros [? ?]; discriminate]|];
         split; [right; reflexivity|]; split; [reflexivity | discriminate]).
  destruct (env w !! js "COSMIC_READ_KEY") as [[|a' b']|] eqn:Er;
    cbn [truthy_string exit stderr];
    try (split; [split; [discriminate | intros [? ?]; discriminate]|];
         split; [right; reflexivity|]; split; [reflexivity | discriminate]).
  split; [split; [split; reflexivity | reflexivity]|].
  split; [left; reflexivity|]. split; [discriminate|]. intros _. split.
  - cbn [writeKey]. destruct (truthy_string (env w !! js "COSMIC_WRITE_KEY")); cbn.
    + split; [discriminate|]. intros Hin.
      apply list_elem_of_singleton in Hin. vm_compute in Hin. discriminate Hin.
    + split; [|reflexivity]. intros _. apply elem_of_cons. right.
      apply list_elem_of_singleton. reflexivity.
  - intros w' Henv. rewrite Henv, Eb, Er. destruct (cosmicClient w'); reflexivity.
Qed.

(** X2. The client is a singleton: once [getCosmicClient] has returned a
    client, every later call returns that same client and changes nothing,
    whatever the environment has become in the meantime (the settings are
    not read again) and whatever requests were made. *)
Theorem client_singleton (w w1 : World) (c : CosmicClient) :
  client.getCosmicClient w = (Normal c, w1) ->
  forall (env' : gmap jsstring jsstring) (calls' : list BackendCall),
    client.getCosmicClient (mkWorld env' (cosmicClient w1) calls')
    = (Normal c, mkWorld env' (cosmicClient w1) calls').
Proof.
  intros E env' calls'.
  assert (cosmicClient w1 = Some c) as Hmemo.
  { revert E. unfold client.getCosmicClient, bind, gets, ret. cbv beta iota.
    destruct (cosmicClient w) as [c0|] eqn:Ec.
    - intros [= <- <-]. exact Ec.
    - destruct (client.getConfig w) as [[config|e] w2]; [|discriminate].
      intros [= <- <-]. reflexivity. }
  unfold client.getCosmicClient, bind, gets, ret. cbn [cosmicClient].
  rewrite Hmemo. reflexivity.
Qed.

Lemma client_singleton_witness :
  client.getCosmicClient
    (mkWorld ∅ (Some (mkConfig (js "bucket") (js "read") (Some (js "write")))) [])
  = (Normal (mkConfig (js "bucket") (js "read") (Some (js "write"))),
     mkWorld ∅ (Some (mkConfig (js "bucket") (js "read") (Some (js "write")))) []).
Proof.
  apply (client_singleton world_rw
           (mkWorld env_rw
              (Some (mkConfig (js "bucket") (js "read") (Some (js "write")))) [])
           (mkConfig (js "bucket") (js "read") (Some (js "write")))
           eq_refl ∅ []).
Defined.

(** X3. After [resetClient], [getCosmicClient] builds the client anew from
    the environment as it is then: with a bucket slug and a read key
    present, the client holds these and the current write key, whatever
    client was memoized before; the requests performed stay. *)
Theorem reset_rebuilds_client (w : World) (a a' : N) (b b' : jsstring) :
  env w !! js "COSMIC_BUCKET_SLUG" = Some (a :: b) ->
  env w !! js "COSMIC_READ_KEY" = Some (a' :: b') ->
  (client.resetClient ;;; client.getCosmicClient) w
  = (Normal (mkConfig (a :: b) (a' :: b') (env w !! js "COSMIC_WRITE_KEY")),
     mkWorld (env w)
       (Some (mkConfig (a :: b) (a' :: b') (env w !! js "COSMIC_WRITE_KEY")))
       (calls w)).
Proof.
  intros Eb Er.
  unfold bind, client.resetClient, client.getCosmicClient, client.getConfig,
    bind, gets, ret, createBucketClient.
  cbn [env cosmicClient calls]. rewrite Eb, Er. reflexivity.
Qed.

Lemma reset_rebuilds_client_witness :
  (client.resetClient ;;; client.getCosmicClient)
    (mkWorld env_ro (Some (mkConfig (js "old") (js "stale") None)) [])
  = (Normal (mkConfig (js "bucket") (js "read") None),
     mkWorld env_ro (Some (mkConfig (js "bucket") (js "read") None)) []).
Proof.
  apply (reset_rebuilds_client
           (mkWorld env_ro (Some (mkConfig (js "old") (js "stale") None)) [])
           98%N 114%N (js "ucket") (js "ead")); reflexivity.
Defined.

(** ** What every handler does *)

Lemma getCosmicClient_unconfigured (w : World) :
  configured w = false ->
  client.getCosmicClient w = (Throw (ErrorObj (configError w)), w).
Proof.
  unfold configured, configError, client.getCosmicClient, client.getConfig,
    bind, gets, ret, throw. cbv beta iota.
  destruct (cosmicClient w); [discriminate|].
  destruct (env w !! js "COSMIC_BUCKET_SLUG") as [[|a b]|]; try reflexivity.
  destruct (env w !! js "COSMIC_READ_KEY") as [[|a' b']|]; try reflexivity.
  discriminate.
Qed.

(** The state in which [getCosmicClient] leaves a configured one. *)
Lemma getCosmicClient_world (w : World) :
  configured w = true ->
  exists c, client.getCosmicClient w
            = (Normal c, mkWorld (env w) (Some c) (calls w))
            /\ (forall c', cosmicClient w = Some c' -> c' = c).
Proof.
  unfold configured, client.getCosmicClient, client.getConfig,
    bind, gets, ret, throw. cbv beta iota.
  destruct w as [e [c|] l]; cbn [cosmicClient env calls].
  - intros _. exists c. split; [reflexivity | congruence].
  - destruct (e !! js "COSMIC_BUCKET_SLUG") as [[|a b]|]; try discriminate.
    destruct (e !! js "COSMIC_READ_KEY") as [[|a' b']|]; try discriminate.
    intros _. eexists. split; [reflexivity | discriminate].
Qed.

Lemma ret_bind {A B} (a : A) (k : A -> M B) : bind (ret a) k = k a.
Proof. reflexivity. Qed.

(** Decides what the end of a handler does with each kind of answer. *)
Ltac tail :=
  let a := fresh "a" in
  intros a; split; [apply _|];
  destruct a; cbn [member]; rewrite ?ret_bind; cbv beta;
  first
    [ left; eexists; split; [reflexivity|]; split; reflexivity
    | right; split; [first [left; reflexivity | right; reflexivity]|];
      match goal with
      | |- context [JSON_stringify _ ?v] => exists v
      end;
      split; [reflexivity|];
      first [ let E := fresh in intros E; discriminate E
            | intros _; reflexivity ] ].

Lemma handle_shape (X : Externals) (i : Invocation) : Shape X (tool i) (handle X i).
Proof.
  destruct i; cbn [handle tool].
  - unfold objects.handleListObjects. apply shape_read; [reflexivity| |tail].
    rewrite truthy_status.
    destruct (objects.listObjectsSchema.type p) as [[|? ?]|],
             (objects.listObjectsSchema.props p),
             (objects.listObjectsSchema.sort p) as [[|? ?]|],
             (objects.listObjectsSchema.depth p),
             (truthy_number (objects.listObjectsSchema.limit p)),
             (truthy_number (objects.listObjectsSchema.skip p)); reflexivity.
  - unfold objects.handleGetObject. rewrite truthy_status.
    destruct (objects.getObjectSchema.id p) as [[|? ?]|],
             (objects.getObjectSchema.slug p) as [[|? ?]|],
             (objects.getObjectSchema.type p) as [[|? ?]|];
      cbn [truthy_string negb andb];
      first [ apply shape_refusal; reflexivity
            | apply shape_read;
              [reflexivity
              |destruct (objects.getObjectSchema.props p); reflexivity
              |tail] ].
  - apply shape_write; [reflexivity|tail].
  - apply shape_write; [reflexivity|tail].
  - apply shape_write; [reflexivity|tail].
  - unfold media.handleListMedia. apply shape_read; [reflexivity| |tail].
    destruct (media.listMediaSchema.folder p) as [[|? ?]|],
             (media.listMediaSchema.props p),
             (truthy_number (media.listMediaSchema.limit p)),
             (truthy_number (media.listMediaSchema.skip p)); reflexivity.
  - unfold media.handleGetMedia. apply shape_read; [reflexivity| |tail].
    destruct (media.getMediaSchema.props p); reflexivity.
  - unfold media.handleUploadMedia.
    destruct (media.mediaInput (media.uploadMediaSchema.media p)).
    + apply shape_write; [reflexivity|tail].
    + apply shape_writeRefusal; reflexivity.
  - apply shape_write; [reflexivity|tail].
  - apply shape_read; [reflexivity|reflexivity|tail].
  - apply shape_read; [reflexivity|reflexivity|tail].
  - apply shape_write; [reflexivity|tail].
  - apply shape_write; [reflexivity|tail].
  - apply shape_write; [reflexivity|tail].
  - apply shape_read; [reflexivity|reflexivity|tail].
  - apply shape_write; [reflexivity|tail].
  - apply shape_write; [reflexivity|tail].
Qed.

Lemma readHandler_run (X : Externals) (rq : BackendCall)
    (k : JsVal -> M ToolResult) (g : Thrown -> ToolResult) (w : World) :
  (forall a, Pure (k a)) ->
  (configured w = false /\
   readHandler X rq k g w = (Normal (g (ErrorObj (configError w))), w))
  \/ (exists c, configured w = true
        /\ (forall c', cosmicClient w = Some c' -> c' = c)
        /\ readHandler X rq k g w
           = (Normal match backend X (calls w) rq with
                     | Normal a => match outcome (k a) with
                                   | Normal r => r
                                   | Throw e => g e
                                   end
                     | Throw e => g e
                     end,
              mkWorld (env w) (Some c) (calls w ++ [rq]))).
Proof.
  intros Hk. unfold readHandler, try_catch.
  destruct (configured w) eqn:C.
  - right. destruct (getCosmicClient_world w C) as (c & Ec & Hc).
    exists c. split; [reflexivity|]. split; [exact Hc|].
    unfold bind at 1. rewrite Ec. unfold bind, await. cbn [env calls cosmicClient].
    destruct (backend X (calls w) rq) as [a|e]; [|reflexivity].
    rewrite (pure_run (m := k a)). destruct (outcome (k a)); reflexivity.
  - left. split; [reflexivity|]. unfold bind at 1.
    rewrite (getCosmicClient_unconfigured w C). reflexivity.
Qed.

Lemma writeHandler_run (X : Externals) (rq : BackendCall)
    (k : JsVal -> M ToolResult) (g : Thrown -> ToolResult) (w : World) :
  writeHandler X rq k g w
  = if write_enabled w then readHandler X rq k g w
    else (Normal (g (ErrorObj accessError)), w).
Proof.
  unfold writeHandler, readHandler. destruct (write_enabled w) eqn:W.
  - apply (guarded_granted _ _ w W).
  - rewrite (guarded_denied _ _ w W). reflexivity.
Qed.

Lemma writeRefusal_run (r : ToolResult) (g : Thrown -> ToolResult) (w : World) :
  (write_enabled w = false /\
   writeRefusal r g w = (Normal (g (ErrorObj accessError)), w))
  \/ (write_enabled w = true /\ configured w = false /\
      writeRefusal r g w = (Normal (g (ErrorObj (configError w))), w))
  \/ (exists c, write_enabled w = true /\ configured w = true
        /\ (forall c', cosmicClient w = Some c' -> c' = c)
        /\ writeRefusal r g w = (Normal r, mkWorld (env w) (Some c) (calls w))).
Proof.
  unfold writeRefusal. destruct (write_enabled w) eqn:W.
  - right. rewrite (guarded_granted _ _ w W). unfold try_catch, bind.
    destruct (configured w) eqn:C.
    + right. destruct (getCosmicClient_world w C) as (c & Ec & Hc).
      exists c. rewrite Ec. auto.
    + left. rewrite (getCosmicClient_unconfigured w C). auto.
  - left. rewrite (guarded_denied _ _ w W). auto.
Qed.

Lemma Tail_Pure (X : Externals) (c : index.Case) (k : JsVal -> M ToolResult) :
  Tail X c k -> forall a, Pure (k a).
Proof. intros Hk a. apply (Hk a). Qed.

Lemma outcome_rendered (X : Externals) (c : index.Case) (v : JsVal) :
  match outcome (rendered X v) with
  | Normal r => r
  | Throw e => catchOf c e
  end = envelopeOf X c v.
Proof.
  unfold rendered, envelopeOf, catchOf.
  destruct v; try reflexivity;
    unfold outcome, bind, JSON_stringify, lift, ret; cbv beta iota;
    cbn [fst]; destruct (stringify X _); reflexivity.
Qed.

Lemma outcome_unreadable (a : JsVal) (f : jsstring) :
  nullish a = true ->
  outcome (x <- member a f ;; ret (success None))
  = Throw (ErrorObj (cannotRead a f)).
Proof. destruct a; try discriminate; reflexivity. Qed.

(** What the end of a handler makes of an answer. *)
Lemma Tail_envelope (X : Externals) (c : index.Case) (k : JsVal -> M ToolResult)
    (a : JsVal) :
  Tail X c k ->
  (exists f, firstRead c = Some f /\ nullish a = true
             /\ match outcome (k a) with
                | Normal r => r
                | Throw e => catchOf c e
                end = catchOf c (ErrorObj (cannotRead a f)))
  \/ ((firstRead c = None \/ nullish a = false)
      /\ exists v, match outcome (k a) with
                   | Normal r => r
                   | Throw e => catchOf c e
                   end = envelopeOf X c v
                   /\ (v = JUndefined -> returnsProperty c = true)).
Proof.
  intros Hk. destruct (Hk a) as [_ [(f & Hf & Hn & E)|(Hc & v & E & Hv)]].
  - left. exists f. rewrite E, (outcome_unreadable a f Hn). auto.
  - right. split; [exact Hc|]. exists v. rewrite E, outcome_rendered. auto.
Qed.

Lemma envelopeOf_flag (X : Externals) (c : index.Case) (v : JsVal) :
  isError (envelopeOf X c v) = None
  \/ (isError (envelopeOf X c v) = Some true
      /\ exists e, stringify X v = Throw e).
Proof.
  unfold envelopeOf. destruct v; try (left; reflexivity);
    (destruct (stringify X _) as [t|e];
     [left; reflexivity | right; split; [reflexivity | eauto]]).
Qed.

Lemma handle_returns (X : Externals) (i : Invocation) (w : World) :
  exists r w', handle X i w = (Normal r, w').
Proof.
  destruct (handle_shape X i) as [rq k _ _ Hk|rq k _ Hk| t _ | _].
  - destruct (readHandler_run X rq k (catchOf (tool i)) w (Tail_Pure _ _ _ Hk))
      as [[_ E]|(c & _ & _ & E)]; rewrite E; eauto.
  - rewrite writeHandler_run. destruct (write_enabled w); [|eauto].
    destruct (readHandler_run X rq k (catchOf (tool i)) w (Tail_Pure _ _ _ Hk))
      as [[_ E]|(c & _ & _ & E)]; rewrite E; eauto.
  - eexists _, _. reflexivity.
  - destruct (writeRefusal_run (failure formatError) (catchOf (tool i)) w)
      as [[_ E]|[(_ & _ & E)|(c & _ & _ & _ & E)]]; rewrite E; eauto.
Qed.

(** X4. No handler throws: on all validated parameters, in every state
    and whatever the backend answers, each of the 17 handlers returns an
    envelope. *)
Theorem handlers_never_throw (X : Externals) (i : Invocation) (w : World) :
  exists r w', handle X i w = (Normal r, w').
Proof. apply handle_returns. Qed.

Lemma Step_refl (w : World) : Step w w.
Proof.
  split; [reflexivity|]. split; [|auto].
  exists []. rewrite app_nil_r. split; [reflexivity | cbn; lia].
Qed.

Lemma Step_connect (w : World) (c : CosmicClient) (l : list BackendCall) :
  (forall c', cosmicClient w = Some c' -> c' = c) -> length l <= 1 ->
  Step w (mkWorld (env w) (Some c) (calls w ++ l)).
Proof.
  intros Hc Hl. split; [reflexivity|]. split; [eauto|].
  intros c' E. cbn. f_equal. symmetry. apply Hc, E.
Qed.

Lemma handle_Step (X : Externals) (i : Invocation) (w : World) :
  Step w (snd (handle X i w)).
Proof.
  destruct (handle_shape X i) as [rq k _ _ Hk|rq k _ Hk| t _ | _].
  - destruct (readHandler_run X rq k (catchOf (tool i)) w (Tail_Pure _ _ _ Hk))
      as [[_ E]|(c & _ & Hc & E)]; rewrite E; cbn [snd].
    + apply Step_refl.
    + apply Step_connect; [exact Hc | cbn; lia].
  - rewrite writeHandler_run. destruct (write_enabled w); [|apply Step_refl].
    destruct (readHandler_run X rq k (catchOf (tool i)) w (Tail_Pure _ _ _ Hk))
      as [[_ E]|(c & _ & Hc & E)]; rewrite E; cbn [snd].
    + apply Step_refl.
    + apply Step_connect; [exact Hc | cbn; lia].
  - apply Step_refl.
  - destruct (writeRefusal_run (failure formatError) (catchOf (tool i)) w)
      as [[_ E]|[(_ & _ & E)|(c & _ & _ & Hc & E)]]; rewrite E; cbn [snd];
      try apply Step_refl.
    rewrite <- (app_nil_r (calls w)). apply Step_connect; [exact Hc | cbn; lia].
Qed.

(** The envelope of a handler that has sent a request. *)
Lemma sent_envelope (X : Externals) (i : Invocation) (w : World)
    (rq : BackendCall) :
  new_calls (handle X i) w = [rq] ->
  exists k, Tail X (tool i) k
            /\ fst (handle X i w)
               = Normal match backend X (calls w) rq with
                        | Normal a => match outcome (k a) with
                                      | Normal r => r
                                      | Throw e => catchOf (tool i) e
                                      end
                        | Throw e => catchOf (tool i) e
                        end.
Proof.
  assert (forall rq0 k,
            Tail X (tool i) k ->
            new_calls (readHandler X rq0 k (catchOf (tool i))) w = [rq] ->
            exists k', Tail X (tool i) k'
              /\ fst (readHandler X rq0 k (catchOf (tool i)) w)
                 = Normal match backend X (calls w) rq with
                          | Normal a => match outcome (k' a) with
                                        | Normal r => r
                                        | Throw e => catchOf (tool i) e
                                        end
                          | Throw e => catchOf (tool i) e
                          end) as Hread.
  { intros rq0 k Hk. unfold new_calls.
    destruct (readHandler_run X rq0 k (catchOf (tool i)) w (Tail_Pure _ _ _ Hk))
      as [[_ E]|(c & _ & _ & E)]; rewrite E; cbn [fst snd calls].
    - rewrite drop_all. discriminate.
    - rewrite drop_app_length. intros [= ->]. exists k. auto. }
  destruct (handle_shape X i) as [rq0 k _ _ Hk|rq0 k _ Hk| t _ | _].
  - apply Hread, Hk.
  - rewrite writeHandler_run. unfold new_calls. rewrite writeHandler_run.
    destruct (write_enabled w).
    + apply Hread, Hk.
    + cbn [snd]. rewrite drop_all. discriminate.
  - unfold new_calls. cbn. rewrite drop_all. discriminate.
  - unfold new_calls.
    destruct (writeRefusal_run (failure formatError) (catchOf (tool i)) w)
      as [[_ E]|[(_ & _ & E)|(c & _ & _ & _ & E)]]; rewrite E; cbn [snd calls];
      rewrite drop_all; discriminate.
Qed.

(** X5. When a handler has sent a request, its envelope is decided by what
    the backend does with it. A rejection comes back as the error envelope
    made of the handler's own prefix and the message of the rejection,
    unchanged, or [Unknown error] when what was thrown is not an [Error].
    An answer that is [null] or [undefined] comes back, from every handler
    that reads the answer (all but the three deletes), as the error
    envelope of the prefix and the [TypeError] of the first property read.
    Any other answer comes back as the envelope around the text that
    [JSON.stringify] gives for a value: a success envelope, whose text is
    [undefined] when the value is, which only the three tools that return
    a property of the answer can meet; or, when [JSON.stringify] throws,
    the error envelope of the prefix and its message. *)
Theorem backend_answer_passes (X : Externals) (i : Invocation) (w : World)
    (rq : BackendCall) :
  new_calls (handle X i) w = [rq] ->
  (forall m, backend X (calls w) rq = Throw (ErrorObj m) ->
     fst (handle X i w)
     = Normal (mkResult [mkText (errorPrefix (tool i) ++ m)] (Some true)))
  /\ (forall v, backend X (calls w) rq = Throw (NonError v) ->
        fst (handle X i w)
        = Normal (mkResult [mkText (errorPrefix (tool i) ++ js "Unknown error")]
                    (Some true)))
  /\ (forall a f, backend X (calls w) rq = Normal a ->
        nullish a = true -> firstRead (tool i) = Some f ->
        fst (handle X i w)
        = Normal (mkResult [mkText (errorPrefix (tool i) ++ cannotRead a f)]
                    (Some true)))
  /\ (forall a, backend X (calls w) rq = Normal a ->
        nullish a = false \/ firstRead (tool i) = None ->
        exists v, fst (handle X i w) = Normal (envelopeOf X (tool i) v)
                  /\ (v = JUndefined -> returnsProperty (tool i) = true)).
Proof.
  intros Hsent. destruct (sent_envelope X i w rq Hsent) as (k & Hk & E).
  rewrite E. split; [|split; [|split]].
  - intros m ->. reflexivity.
  - intros v ->. reflexivity.
  - intros a f -> Hn Hf.
    destruct (Tail_envelope X (tool i) k a Hk)
      as [(f' & Hf' & _ & ->)|([Hc|Hc] & _)]; [|congruence|congruence].
    assert (f' = f) as -> by congruence. reflexivity.
  - intros a -> Ha.
    destruct (Tail_envelope X (tool i) k a Hk)
      as [(f' & Hf' & Hn & _)|(_ & v & -> & Hv)].
    + destruct Ha; congruence.
    + exists v. auto.
Qed.

Lemma backend_answer_passes_witness :
  exists v,
    fst (handle quiet (DeleteObject (objects.deleteObjectSchema.mk (js "x") true))
           world_rw)
    = Normal (envelopeOf quiet index.cosmic_objects_delete v)
    /\ (v = JUndefined -> returnsProperty index.cosmic_objects_delete = true).
Proof.
  destruct (backend_answer_passes quiet
              (DeleteObject (objects.deleteObjectSchema.mk (js "x") true)) world_rw
              (sdk objects_ deleteOne [JStr (js "x"); JBool true]))
    as (_ & _ & _ & Hanswer).
  - vm_compute. reflexivity.
  - apply (Hanswer (JObj ∅)).
    + reflexivity.
    + right. reflexivity.
Defined.

(** X6. When the bucket slug or the read key is missing and no client has
    been created, every tool reports it per call: the handler (of any
    tool but [cosmic_objects_get], whose own tests come first), past its
    write guard, returns the error envelope of its prefix and the message
    that names the missing variable, the bucket slug first; nothing is
    sent and the state is unchanged. *)
Theorem unconfigured_call_reports (X : Externals) (i : Invocation) (w : World) :
  tool i <> index.cosmic_objects_get ->
  configured w = false ->
  (writeClass (tool i) = true -> write_enabled w = true) ->
  handle X i w
  = (Normal (mkResult [mkText (errorPrefix (tool i) ++ configError w)] (Some true)),
     w).
Proof.
  intros Hget C W.
  destruct (handle_shape X i) as [rq0 k _ _ Hk|rq0 k Hw Hk| t Ht | Hup].
  - destruct (readHandler_run X rq0 k (catchOf (tool i)) w (Tail_Pure _ _ _ Hk))
      as [[_ E]|(c & C' & _)]; [exact E | congruence].
  - rewrite writeHandler_run, (W Hw).
    destruct (readHandler_run X rq0 k (catchOf (tool i)) w (Tail_Pure _ _ _ Hk))
      as [[_ E]|(c & C' & _)]; [exact E | congruence].
  - contradiction.
  - assert (write_enabled w = true) as W' by (apply W; rewrite Hup; reflexivity).
    destruct (writeRefusal_run (failure formatError) (catchOf (tool i)) w)
      as [[W'' _]|[(_ & _ & E)|(c & _ & C' & _)]]; [congruence | exact E | congruence].
Qed.

Lemma unconfigured_call_reports_witness :
  handle quiet ListObjectTypes (mkWorld ∅ None [])
  = (Normal (mkResult
       [mkText (errorPrefix index.cosmic_types_list
                ++ configError (mkWorld ∅ None []))]
       (Some true)),
     mkWorld ∅ None []).
Proof.
  apply (unconfigured_call_reports quiet ListObjectTypes (mkWorld ∅ None [])).
  - discriminate.
  - reflexivity.
  - discriminate.
Defined.

(** ** The assembled server *)

Lemma handler_of_handle (X : Externals) (c : index.Case) (p : params_of c) :
  handler_of (index.handlers X) c p = handle X (invoke c p).
Proof. destruct c; reflexivity. Qed.

Lemma schema_of_schemas (X : Externals) (c : index.Case) (args : JsVal) :
  schema_of (index.schemas X) c args
  = if exhausts X c args then Throw stackError
    else match safeParse_of c args with
         | Some p => Normal p
         | None => Throw (ErrorObj (zodMessage X (schemaName c) args))
         end.
Proof.
  destruct c; try reflexivity;
    cbn [schema_of index.schemas index.createObjectTypeSchema
         index.updateObjectTypeSchema exhausts safeParse_of schemaName];
    unfold objectTypes.parse; destruct (_ <? _); reflexivity.
Qed.

Lemma returns_envelope (m : M ToolResult) (w : World) :
  (exists r w', m w = (Normal r, w')) ->
  (result <- m ;; ret (index.toCallToolResult result)) w = m w.
Proof.
  intros (r & w' & E). unfold bind, ret. rewrite E. destruct r. reflexivity.
Qed.

Lemma server_dispatch (X : Externals) (c : index.Case) (args : JsVal)
    (w : World) :
  index.server X (index.label c) args w
  = if exhausts X c args
    then (Normal (executionError (index.label c) stackError), w)
    else match safeParse_of c args with
         | Some p => handle X (invoke c p) w
         | None =>
             if decide (c = index.cosmic_types_list)
             then handle X ListObjectTypes w
             else (Normal (executionError (index.label c)
                             (ErrorObj (zodMessage X (schemaName c) args))), w)
         end.
Proof.
  unfold index.server, index.CallTool, try_catch. rewrite switch_label.
  destruct (decide (c = index.cosmic_types_list)) as [->|Hc].
  - change (index.clause (index.schemas X) (index.handlers X)
              index.cosmic_types_list args w)
      with ((result <- handle X ListObjectTypes ;;
             ret (index.toCallToolResult result)) w).
    rewrite (returns_envelope _ _ (handle_returns X ListObjectTypes w)).
    destruct (handle_returns X ListObjectTypes w) as (r & w' & E).
    rewrite E. cbn [exhausts].
    destruct (safeParse_of index.cosmic_types_list args); cbn [invoke];
      rewrite ?E; reflexivity.
  - rewrite (clause_validated _ _ c Hc). unfold validated_clause.
    destruct (exhausts X c args) eqn:Ex.
    { erewrite parse_then_throw
        by (rewrite schema_of_schemas, Ex; reflexivity).
      reflexivity. }
    destruct (safeParse_of c args) as [p|] eqn:Ep.
    + erewrite parse_then_normal
        by (rewrite schema_of_schemas, Ex, Ep; reflexivity).
      rewrite handler_of_handle.
      rewrite (returns_envelope _ _ (handle_returns X (invoke c p) w)).
      destruct (handle_returns X (invoke c p) w) as (r & w' & E).
      rewrite E. reflexivity.
    + erewrite parse_then_throw
        by (rewrite schema_of_schemas, Ex, Ep; reflexivity).
      reflexivity.
Qed.

(** X7. In the server as assembled, a call to a listed tool is the run of
    its handler on the parsed arguments, envelope and state alike: the
    dispatcher adds nothing. Its own error envelope
    [Error executing tool ...] appears in two cases, and then the state is
    unchanged: when the schema of the tool rejects the arguments, with the
    message of the validation error; and, for the two tools whose schemas
    hold the recursive metafield schema, when the [metafields] of the
    arguments nest deeper than the stack of the runtime lets the parse
    descend, with the message of the [RangeError], whatever the schema
    would say of them. [cosmic_types_list] runs its handler whatever the
    arguments are. *)
Theorem server_runs_handler (X : Externals) (c : index.Case) (args : JsVal)
    (w : World) :
  index.server X (index.label c) args w
  = if exhausts X c args
    then (Normal (mkResult
                    [mkText (js "Error executing tool " ++ index.label c
                             ++ js ": Maximum call stack size exceeded")]
                    (Some true)), w)
    else match safeParse_of c args with
         | Some p => handle X (invoke c p) w
         | None =>
             if decide (c = index.cosmic_types_list)
             then handle X ListObjectTypes w
             else (Normal (executionError (index.label c)
                             (ErrorObj (zodMessage X (schemaName c) args))), w)
         end.
Proof. apply server_dispatch. Qed.

Lemma server_cases (X : Externals) (nm : jsstring) (args : JsVal) (w : World) :
  (exists r, index.server X nm args w = (Normal r, w))
  \/ (exists i, index.server X nm args w = handle X i w).
Proof.
  destruct (index.switch nm) as [c|] eqn:Es.
  - apply switch_Some in Es as <-. rewrite server_dispatch.
    destruct (exhausts X c args); [eauto|].
    destruct (safeParse_of c args); [eauto|].
    destruct (decide (c = index.cosmic_types_list)); eauto.
  - left. unfold index.server, index.CallTool, try_catch. rewrite Es. eauto.
Qed.

Lemma server_Step (X : Externals) (nm : jsstring) (args : JsVal) (w : World) :
  Step w (snd (index.server X nm args w)).
Proof.
  destruct (server_cases X nm args w) as [[r E]|[i E]]; rewrite E.
  - apply Step_refl.
  - apply handle_Step.
Qed.

Lemma handle_reads (X : Externals) (i : Invocation) (w : World) (rq : BackendCall) :
  write_enabled w = false ->
  rq ∈ new_calls (handle X i) w -> reads rq = true.
Proof.
  intros W. unfold new_calls.
  destruct (handle_shape X i) as [rq0 k _ Hr Hk|rq0 k _ _| t _ | _].
  - destruct (readHandler_run X rq0 k (catchOf (tool i)) w (Tail_Pure _ _ _ Hk))
      as [[_ E]|(c & _ & _ & E)]; rewrite E; cbn [snd calls].
    + rewrite drop_all. intros Hin. apply elem_of_nil in Hin. destruct Hin.
    + rewrite drop_app_length. intros Hin.
      apply list_elem_of_singleton in Hin. congruence.
  - rewrite writeHandler_run, W. cbn [snd]. rewrite drop_all.
    intros Hin. apply elem_of_nil in Hin. destruct Hin.
  - cbn. rewrite drop_all. intros Hin. apply elem_of_nil in Hin. destruct Hin.
  - destruct (writeRefusal_run (failure formatError) (catchOf (tool i)) w)
      as [[_ E]|[(W' & _)|(c & W' & _)]]; [|congruence|congruence].
    rewrite E. cbn [snd]. rewrite drop_all.
    intros Hin. apply elem_of_nil in Hin. destruct Hin.
Qed.

(** X8. Without a write credential the server is read-only: whatever the
    call, a request that it sends is a [find], a [findOne] or the text
    generation, never an insert, update, delete, or image or video
    generation. *)
Theorem read_only_without_write_key (X : Externals) (nm : jsstring)
    (args : JsVal) (w : World) (rq : BackendCall) :
  write_enabled w = false ->
  rq ∈ new_calls (index.server X nm args) w ->
  method rq ∈ [find; findOne; generateText].
Proof.
  intros W Hin.
  assert (reads rq = true) as Hr.
  { revert Hin. unfold new_calls.
    destruct (server_cases X nm args w) as [[r E]|[i E]]; rewrite E.
    - cbn [snd]. rewrite drop_all. intros Hin. apply elem_of_nil in Hin. destruct Hin.
    - apply (handle_reads X i w rq W). }
  unfold reads in Hr. destruct (method rq); try discriminate; repeat constructor.
Qed.

Lemma read_only_without_write_key_witness :
  method (sdk objectTypes_ find []) ∈ [find; findOne; generateText].
Proof.
  apply (read_only_without_write_key quiet (js "cosmic_types_list") JUndefined
           world_ro (sdk objectTypes_ find [])).
  - reflexivity.
  - vm_compute. repeat constructor.
Defined.

(** ** The validation schemas *)

Lemma bounded_default (d lo hi : Q) (v : JsVal) (q : Q) :
  z.default d (z.optional (z.max hi (z.min lo z.number))) v = Some q ->
  (v = JUndefined /\ q = d) \/ (v = JNum q /\ (lo <= q)%Q /\ (q <= hi)%Q).
Proof.
  unfold z.default, z.optional, z.max, z.min, z.number.
  destruct v; try discriminate; cbn.
  - intros [= <-]. left. auto.
  - destruct (Qle_bool lo q0) eqn:Elo; cbn; [|discriminate].
    destruct (Qle_bool q0 hi) eqn:Ehi; cbn; [|discriminate].
    intros [= <-]. right. repeat split; apply Qle_bool_iff; assumption.
Qed.

Lemma lower_default (d lo : Q) (v : JsVal) (q : Q) :
  z.default d (z.optional (z.min lo z.number)) v = Some q ->
  (v = JUndefined /\ q = d) \/ (v = JNum q /\ (lo <= q)%Q).
Proof.
  unfold z.default, z.optional, z.min, z.number.
  destruct v; try discriminate; cbn.
  - intros [= <-]. left. auto.
  - destruct (Qle_bool lo q0) eqn:Elo; cbn; [|discriminate].
    intros [= <-]. right. split; [reflexivity | apply Qle_bool_iff; assumption].
Qed.

Lemma bounded_optional (lo hi : Q) (v : JsVal) (r : option Q) :
  z.optional (z.max hi (z.min lo z.number)) v = Some r ->
  (v = JUndefined /\ r = None)
  \/ (exists q, v = JNum q /\ r = Some q /\ (lo <= q)%Q /\ (q <= hi)%Q).
Proof.
  unfold z.optional, z.max, z.min, z.number.
  destruct v; try discriminate; cbn.
  - intros [= <-]. left. auto.
  - destruct (Qle_bool lo q) eqn:Elo; cbn; [|discriminate].
    destruct (Qle_bool q hi) eqn:Ehi; cbn; [|discriminate].
    intros [= <-]. right. exists q. repeat split; apply Qle_bool_iff; assumption.
Qed.

(** Splits a successful parse of an object shape into its properties. *)
Ltac parsed H :=
  repeat (apply bind_Some in H as (? & ? & H));
  injection H as <-.

Lemma prop_missing (o : gmap jsstring JsVal) (k : jsstring) :
  o !! k = None -> prop o k = JUndefined.
Proof. unfold prop. intros ->. reflexivity. Qed.

Lemma prop_number (o : gmap jsstring JsVal) (k : jsstring) (q : Q) :
  o !! k = Some (JNum q) -> prop o k = JNum q.
Proof. unfold prop. intros ->. reflexivity. Qed.

Lemma listObjects_ranges (v : JsVal) (p : objects.listObjectsSchema.infer) :
  objects.listObjectsSchema.safeParse v = Some p ->
  (1 <= objects.listObjectsSchema.limit p)%Q
  /\ (objects.listObjectsSchema.limit p <= 100)%Q
  /\ (0 <= objects.listObjectsSchema.skip p)%Q
  /\ (forall d, objects.listObjectsSchema.depth p = Some d ->
                (0 <= d)%Q /\ (d <= 3)%Q).
Proof.
  revert v p. intros [| | | | | |o|] p H; try discriminate H.
  unfold objects.listObjectsSchema.safeParse, z.object in H. parsed H.
  cbn [objects.listObjectsSchema.limit objects.listObjectsSchema.skip
       objects.listObjectsSchema.depth].
  match goal with
  | Hl : z.default 10%Q _ _ = Some _, Hs : z.default 0%Q _ _ = Some _,
    Hd : z.optional (z.max 3 _) _ = Some ?r |- _ =>
      apply bounded_default in Hl; apply lower_default in Hs;
      apply bounded_optional in Hd;
      assert (forall d', r = Some d' -> (0 <= d')%Q /\ (d' <= 3)%Q) as Hdepth
        by (intros d' ->;
            destruct Hd as [[_ Hd]|(q & _ & [= <-] & ? & ?)];
            [discriminate Hd | auto]);
      destruct Hl as [[_ ->]|(_ & ? & ?)], Hs as [[_ ->]|(_ & ?)]
  end;
    (split; [|split; [|split; [|exact Hdepth]]]);
    first [assumption | vm_compute; discriminate].
Qed.

(** X9. Validation enforces the numeric ranges: parameters that the
    schemas accept have a [limit] between 1 and 100 and a [skip] of at
    least 0 (for objects and for media), a [depth], when given, between 0
    and 3, and a [max_tokens], when given, between 1 and 100000. *)
Theorem validated_ranges :
  (forall v p, objects.listObjectsSchema.safeParse v = Some p ->
     (1 <= objects.listObjectsSchema.limit p)%Q
     /\ (objects.listObjectsSchema.limit p <= 100)%Q
     /\ (0 <= objects.listObjectsSchema.skip p)%Q
     /\ (forall d, objects.listObjectsSchema.depth p = Some d ->
                   (0 <= d)%Q /\ (d <= 3)%Q))
  /\ (forall v p, media.listMediaSchema.safeParse v = Some p ->
        (1 <= media.listMediaSchema.limit p)%Q
        /\ (media.listMediaSchema.limit p <= 100)%Q
        /\ (0 <= media.listMediaSchema.skip p)%Q)
  /\ (forall v p, ai.generateTextSchema.safeParse v = Some p ->
        forall n, ai.generateTextSchema.max_tokens p = Some n ->
                  (1 <= n)%Q /\ (n <= 100000)%Q).
Proof.
  split; [|split].
  - apply listObjects_ranges.
  - intros [| | | | | |o|] p H; try discriminate H.
    unfold media.listMediaSchema.safeParse, z.object in H. parsed H.
    cbn [media.listMediaSchema.limit media.listMediaSchema.skip].
    match goal with
    | Hl : z.default 10%Q _ _ = Some _, Hs : z.default 0%Q _ _ = Some _ |- _ =>
        apply bounded_default in Hl; apply lower_default in Hs;
        destruct Hl as [[_ ->]|(_ & ? & ?)], Hs as [[_ ->]|(_ & ?)]
    end;
      repeat split; try assumption; vm_compute; discriminate.
  - intros [| | | | | |o|] p H; try discriminate H.
    unfold ai.generateTextSchema.safeParse, z.object in H. parsed H.
    cbn [ai.generateTextSchema.max_tokens]. intros ? ->.
    match goal with
    | Hd : z.optional (z.max 100000 _) _ = Some _ |- _ =>
        apply bounded_optional in Hd;
        destruct Hd as [[_ Hd]|(q & _ & [= <-] & ? & ?)]; [discriminate Hd | auto]
    end.
Qed.

(** X10. A [limit] outside 1..100 never reaches the backend: for every
    arguments object whose [limit] is a number below 1 or above 100, the
    call of [cosmic_objects_list] or of [cosmic_media_list] comes back as
    the dispatcher's error envelope with the message of the validation
    error, in an unchanged state. *)
Theorem limit_out_of_range (X : Externals) (o : gmap jsstring JsVal) (q : Q)
    (w : World) :
  o !! js "limit" = Some (JNum q) ->
  (q < 1)%Q \/ (100 < q)%Q ->
  index.server X (js "cosmic_objects_list") (JObj o) w
  = (Normal (executionError (js "cosmic_objects_list")
               (ErrorObj (zodMessage X (js "listObjectsSchema") (JObj o)))), w)
  /\ index.server X (js "cosmic_media_list") (JObj o) w
     = (Normal (executionError (js "cosmic_media_list")
                  (ErrorObj (zodMessage X (js "listMediaSchema") (JObj o)))), w).
Proof.
  intros Hl Hq.
  assert (forall q', JNum q = JNum q' -> (1 <= q')%Q -> (q' <= 100)%Q -> False)
    as Hout.
  { intros q' [= <-] H1 H100. destruct Hq as [Hq|Hq].
    - apply (Qlt_not_le _ _ Hq H1).
    - apply (Qlt_not_le _ _ Hq H100). }
  split.
  - rewrite (server_dispatch X index.cosmic_objects_list).
    destruct (safeParse_of index.cosmic_objects_list (JObj o)) as [p|] eqn:E;
      [|reflexivity].
    exfalso. cbn [safeParse_of] in E.
    unfold objects.listObjectsSchema.safeParse, z.object in E. parsed E.
    match goal with
    | H : z.default 10%Q _ _ = Some _ |- _ =>
        rewrite (prop_number _ _ _ Hl) in H; apply bounded_default in H;
        destruct H as [[H _]|(H & ? & ?)]; [discriminate H | eapply Hout; eauto]
    end.
  - rewrite (server_dispatch X index.cosmic_media_list).
    destruct (safeParse_of index.cosmic_media_list (JObj o)) as [p|] eqn:E;
      [|reflexivity].
    exfalso. cbn [safeParse_of] in E.
    unfold media.listMediaSchema.safeParse, z.object in E. parsed E.
    match goal with
    | H : z.default 10%Q _ _ = Some _ |- _ =>
        rewrite (prop_number _ _ _ Hl) in H; apply bounded_default in H;
        destruct H as [[H _]|(H & ? & ?)]; [discriminate H | eapply Hout; eauto]
    end.
Qed.

Lemma limit_out_of_range_witness :
  index.server quiet (js "cosmic_objects_list") (JObj limit500) world_rw
  = (Normal (executionError (js "cosmic_objects_list")
               (ErrorObj (zodMessage quiet (js "listObjectsSchema") (JObj limit500)))),
     world_rw)
  /\ index.server quiet (js "cosmic_media_list") (JObj limit500) world_rw
     = (Normal (executionError (js "cosmic_media_list")
                  (ErrorObj (zodMessage quiet (js "listMediaSchema") (JObj limit500)))),
        world_rw).
Proof.
  apply (limit_out_of_range quiet limit500 (inject_Z 500) world_rw).
  - reflexivity.
  - right. reflexivity.
Defined.

Lemma enum_default {A} (d : A) (values : list (jsstring * A)) (v : JsVal) (a : A) :
  z.default d (z.optional (z.enum values)) v = Some a ->
  v = JUndefined -> a = d.
Proof. intros H ->. cbn in H. congruence. Qed.

Lemma boolean_default (d : bool) (v : JsVal) (b : bool) :
  z.default d (z.optional z.boolean) v = Some b ->
  v = JUndefined -> b = d.
Proof. intros H ->. cbn in H. congruence. Qed.

(** X11. Validation fills in the declared defaults: where the arguments
    leave them out, [status] becomes [any], [limit] 10 and [skip] 0 for the
    object listing, [status] becomes [draft] on create, and
    [trigger_webhook] becomes true on the deletes and on the upload. *)
Theorem defaults_applied :
  (forall o p, objects.listObjectsSchema.safeParse (JObj o) = Some p ->
     (o !! js "status" = None -> objects.listObjectsSchema.status p = any)
     /\ (o !! js "limit" = None -> objects.listObjectsSchema.limit p = 10%Q)
     /\ (o !! js "skip" = None -> objects.listObjectsSchema.skip p = 0%Q))
  /\ (forall o p, objects.createObjectSchema.safeParse (JObj o) = Some p ->
        o !! js "status" = None -> objects.createObjectSchema.status p = draft)
  /\ (forall o p, objects.deleteObjectSchema.safeParse (JObj o) = Some p ->
        o !! js "trigger_webhook" = None ->
        objects.deleteObjectSchema.trigger_webhook p = true)
  /\ (forall o p, media.deleteMediaSchema.safeParse (JObj o) = Some p ->
        o !! js "trigger_webhook" = None ->
        media.deleteMediaSchema.trigger_webhook p = true)
  /\ (forall o p, media.uploadMediaSchema.safeParse (JObj o) = Some p ->
        o !! js "trigger_webhook" = None ->
        media.uploadMediaSchema.trigger_webhook p = true).
Proof.
  split; [|split; [|split; [|split]]].
  - intros o p H.
    unfold objects.listObjectsSchema.safeParse, z.object in H. parsed H.
    cbn [objects.listObjectsSchema.status objects.listObjectsSchema.limit
         objects.listObjectsSchema.skip].
    split; [|split]; intros Hmiss; apply prop_missing in Hmiss.
    + eapply enum_default; eassumption.
    + match goal with
      | H : z.default 10%Q _ _ = Some _ |- _ =>
          rewrite Hmiss in H; cbn in H; congruence
      end.
    + match goal with
      | H : z.default 0%Q _ _ = Some _ |- _ =>
          rewrite Hmiss in H; cbn in H; congruence
      end.
  - intros o p H Hmiss. apply prop_missing in Hmiss.
    unfold objects.createObjectSchema.safeParse, z.object in H. parsed H.
    cbn [objects.createObjectSchema.status]. eapply enum_default; eassumption.
  - intros o p H Hmiss. apply prop_missing in Hmiss.
    unfold objects.deleteObjectSchema.safeParse, z.object in H. parsed H.
    cbn [objects.deleteObjectSchema.trigger_webhook].
    eapply boolean_default; eassumption.
  - intros o p H Hmiss. apply prop_missing in Hmiss.
    unfold media.deleteMediaSchema.safeParse, z.object in H. parsed H.
    cbn [media.deleteMediaSchema.trigger_webhook].
    eapply boolean_default; eassumption.
  - intros o p H Hmiss. apply prop_missing in Hmiss.
    unfold media.uploadMediaSchema.safeParse, z.object in H. parsed H.
    cbn [media.uploadMediaSchema.trigger_webhook].
    eapply boolean_default; eassumption.
Qed.

Lemma prop_insert_ne (o : gmap jsstring JsVal) (k k' : jsstring) (v : JsVal) :
  k <> k' -> prop (<[k := v]> o) k' = prop o k'.
Proof. intros Hne. unfold prop. rewrite lookup_insert_ne by exact Hne. reflexivity. Qed.

(** X12. The validation schemas agree with the [required] lists of the
    declared descriptors: for each of the 17 tools, arguments that are not
    an object are rejected, and so is an arguments object that lacks a
    property the descriptor lists as required. *)
Theorem required_enforced (c : index.Case) :
  (forall v, (forall o, v <> JObj o) -> safeParse_of c v = None)
  /\ (forall o k, k ∈ required (descriptor c) -> o !! k = None ->
        safeParse_of c (JObj o) = None).
Proof.
  split.
  - intros v Hv. destruct c, v; try reflexivity; destruct (Hv _ eq_refl).
  - intros o k Hk Hmiss.
    destruct c; vm_compute in Hk;
      repeat (apply elem_of_cons in Hk as [->|Hk]);
      try (apply elem_of_nil in Hk; destruct Hk);
      apply prop_missing in Hmiss;
      cbn [safeParse_of];
      unfold objects.createObjectSchema.safeParse, objects.updateObjectSchema.safeParse,
        objects.deleteObjectSchema.safeParse, media.getMediaSchema.safeParse,
        media.uploadMediaSchema.safeParse, media.deleteMediaSchema.safeParse,
        objectTypes.getObjectTypeSchema.safeParse,
        objectTypes.createObjectTypeSchema.safeParse,
        objectTypes.updateObjectTypeSchema.safeParse,
        objectTypes.deleteObjectTypeSchema.safeParse,
        ai.generateTextSchema.safeParse, ai.generateImageSchema.safeParse,
        ai.generateVideoSchema.safeParse, z.object;
      match goal with
      | |- context [prop o ?k'] =>
          change (prop o k' = JUndefined) in Hmiss; rewrite Hmiss
      end;
      first [ reflexivity | destruct (z.string (prop o _)); reflexivity ].
Qed.

(** X13. The validation schemas read the declared properties only: for
    each of the 17 tools, adding to the arguments object a property that
    the descriptor does not declare changes nothing in the outcome of the
    validation, neither acceptance nor the parsed parameters. *)
Theorem undeclared_ignored (c : index.Case) (o : gmap jsstring JsVal)
    (k : jsstring) (v : JsVal) :
  k ∉ properties (descriptor c) ->
  safeParse_of c (JObj (<[k := v]> o)) = safeParse_of c (JObj o).
Proof.
  intros Hk.
  assert (forall k', k' ∈ properties (descriptor c) ->
                     prop (<[k := v]> o) k' = prop o k') as Hsame.
  { intros k' Hk'. apply prop_insert_ne. intros ->. contradiction. }
  destruct c; cbn [safeParse_of];
    unfold objects.listObjectsSchema.safeParse, objects.getObjectSchema.safeParse,
      objects.createObjectSchema.safeParse, objects.updateObjectSchema.safeParse,
      objects.deleteObjectSchema.safeParse, media.listMediaSchema.safeParse,
      media.getMediaSchema.safeParse,
      media.uploadMediaSchema.safeParse, media.deleteMediaSchema.safeParse,
      objectTypes.listObjectTypesSchema.safeParse,
      objectTypes.getObjectTypeSchema.safeParse,
      objectTypes.createObjectTypeSchema.safeParse,
      objectTypes.updateObjectTypeSchema.safeParse,
      objectTypes.deleteObjectTypeSchema.safeParse,
      ai.generateTextSchema.safeParse, ai.generateImageSchema.safeParse,
      ai.generateVideoSchema.safeParse, z.object;
    repeat match goal with
           | |- context [prop (<[k := v]> o) ?k'] =>
               rewrite (Hsame k') by (vm_compute; repeat constructor)
           end;
    reflexivity.
Qed.

Lemma undeclared_ignored_witness :
  safeParse_of index.cosmic_objects_delete
    (JObj (<[js "force" := JBool true]> {[ js "id" := JStr (js "x") ]}))
  = safeParse_of index.cosmic_objects_delete (JObj {[ js "id" := JStr (js "x") ]}).
Proof.
  apply (undeclared_ignored index.cosmic_objects_delete
           {[ js "id" := JStr (js "x") ]} (js "force") (JBool true)).
  apply (bool_decide_unpack _). vm_compute. exact I.
Defined.

Lemma record_optional (o : gmap jsstring JsVal) (k : jsstring)
    (m : gmap jsstring JsVal) (r : option (gmap jsstring JsVal)) :
  o !! k = Some (JObj m) ->
  z.optional z.record (prop o k) = Some r ->
  r = Some (delete (js "__proto__") m).
Proof.
  intros Hk. unfold prop. rewrite Hk. cbn. congruence.
Qed.

(** X25. A key named [__proto__] in a free-form object of the arguments
    never reaches the backend: the validated [metadata] of a create, an
    update, an upload and an image or video generation, and the validated
    [query] of the object listing, are the object of the arguments
    without that key, every other key as it is; and a request that
    [cosmic_objects_create] sends carries the [metadata] so. *)
Theorem proto_key_dropped (m : gmap jsstring JsVal) :
  (forall o p, objects.listObjectsSchema.safeParse (JObj o) = Some p ->
     o !! js "query" = Some (JObj m) ->
     objects.listObjectsSchema.query p = Some (delete (js "__proto__") m))
  /\ (forall o p, objects.createObjectSchema.safeParse (JObj o) = Some p ->
        o !! js "metadata" = Some (JObj m) ->
        objects.createObjectSchema.metadata p = Some (delete (js "__proto__") m))
  /\ (forall o p, objects.updateObjectSchema.safeParse (JObj o) = Some p ->
        o !! js "metadata" = Some (JObj m) ->
        objects.updateObjectSchema.metadata p = Some (delete (js "__proto__") m))
  /\ (forall o p, media.uploadMediaSchema.safeParse (JObj o) = Some p ->
        o !! js "metadata" = Some (JObj m) ->
        media.uploadMediaSchema.metadata p = Some (delete (js "__proto__") m))
  /\ (forall o p, ai.generateImageSchema.safeParse (JObj o) = Some p ->
        o !! js "metadata" = Some (JObj m) ->
        ai.generateImageSchema.metadata p = Some (delete (js "__proto__") m))
  /\ (forall o p, ai.generateVideoSchema.safeParse (JObj o) = Some p ->
        o !! js "metadata" = Some (JObj m) ->
        ai.generateVideoSchema.metadata p = Some (delete (js "__proto__") m))
  /\ (forall X o w rq,
        o !! js "metadata" = Some (JObj m) ->
        rq ∈ new_calls (index.server X (js "cosmic_objects_create") (JObj o)) w ->
        exists sent : gmap jsstring JsVal,
          carried rq (js "metadata") = Some (JObj sent)
          /\ sent !! js "__proto__" = None
          /\ (forall k, k <> js "__proto__" -> sent !! k = m !! k)).
Proof.
  assert (forall o p, objects.createObjectSchema.safeParse (JObj o) = Some p ->
            o !! js "metadata" = Some (JObj m) ->
            objects.createObjectSchema.metadata p = Some (delete (js "__proto__") m))
    as Hcreate.
  { intros o p H Hm.
    unfold objects.createObjectSchema.safeParse, z.object in H. parsed H.
    cbn [objects.createObjectSchema.metadata]. eapply record_optional; eassumption. }
  split; [|split; [exact Hcreate|split; [|split; [|split; [|split]]]]].
  - intros o p H Hm.
    unfold objects.listObjectsSchema.safeParse, z.object in H. parsed H.
    cbn [objects.listObjectsSchema.query]. eapply record_optional; eassumption.
  - intros o p H Hm.
    unfold objects.updateObjectSchema.safeParse, z.object in H. parsed H.
    cbn [objects.updateObjectSchema.metadata]. eapply record_optional; eassumption.
  - intros o p H Hm.
    unfold media.uploadMediaSchema.safeParse, z.object in H. parsed H.
    cbn [media.uploadMediaSchema.metadata]. eapply record_optional; eassumption.
  - intros o p H Hm.
    unfold ai.generateImageSchema.safeParse, z.object in H. parsed H.
    cbn [ai.generateImageSchema.metadata]. eapply record_optional; eassumption.
  - intros o p H Hm.
    unfold ai.generateVideoSchema.safeParse, z.object in H. parsed H.
    cbn [ai.generateVideoSchema.metadata]. eapply record_optional; eassumption.
  - intros X o w rq Hm. unfold new_calls.
    rewrite (server_dispatch X index.cosmic_objects_create). cbn [exhausts].
    destruct (safeParse_of index.cosmic_objects_create (JObj o)) as [p|] eqn:E.
    + cbn [safeParse_of] in E. pose proof (Hcreate o p E Hm) as Hp.
      cbn [invoke handle decide]. fold (new_calls (objects.handleCreateObject X p) w).
      unfold objects.handleCreateObject.
      rewrite guarded_request_calls by apply _. intros Hrq. sent Hrq.
      rewrite Hp. exists (delete (js "__proto__") m).
      split; [vm_compute; reflexivity|].
      split; [apply lookup_delete_eq|].
      intros k Hk. apply lookup_delete_ne. congruence.
    + cbn. rewrite drop_all. intros Hrq. apply elem_of_nil in Hrq. destruct Hrq.
Qed.

Lemma proto_key_dropped_witness :
  exists sent : gmap jsstring JsVal,
    carried cleanPostRequest (js "metadata") = Some (JObj sent)
    /\ sent !! js "__proto__" = None
    /\ (forall k, k <> js "__proto__" ->
          sent !! k
          = obj [(js "__proto__", JObj (obj [(js "admin", JBool true)]));
                 (js "color", JStr (js "red"))] !! k).
Proof.
  destruct (proto_key_dropped
              (obj [(js "__proto__", JObj (obj [(js "admin", JBool true)]));
                    (js "color", JStr (js "red"))]))
    as (_ & _ & _ & _ & _ & _ & Hsent).
  apply (Hsent quiet pollutedPost world_rw cleanPostRequest).
  - vm_compute. reflexivity.
  - vm_compute. repeat constructor.
Defined.

(** ** The recursive metafield schema *)

Lemma children_fold {B} (g : JsVal -> B) (d : B) (o : gmap jsstring JsVal) :
  map_fold (fun k c acc => if bool_decide (k = js "children") then g c else acc)
    d o
  = match o !! js "children" with
    | Some c => g c
    | None => d
    end.
Proof.
  apply (map_fold_weak_ind
           (fun r (m : gmap jsstring JsVal) =>
              r = match m !! js "children" with
                  | Some c => g c
                  | None => d
                  end)).
  - rewrite lookup_empty. reflexivity.
  - intros k c m r Hk ->. case_bool_decide as E.
    + subst k. rewrite lookup_insert_eq. reflexivity.
    + rewrite lookup_insert_ne by exact E. reflexivity.
Qed.

Lemma prop_delete_ne (o : gmap jsstring JsVal) (k k' : jsstring) :
  k <> k' -> prop (delete k o) k' = prop o k'.
Proof. intros Hne. unfold prop. rewrite lookup_delete_ne by exact Hne. reflexivity. Qed.

Lemma prop_lookup (o : gmap jsstring JsVal) (k : jsstring) (v : JsVal) :
  o !! k = Some v -> prop o k = v.
Proof. unfold prop. intros ->. reflexivity. Qed.

Lemma JObj_inj (o o' : gmap jsstring JsVal) : JObj o = JObj o' -> o = o'.
Proof. intros [= ->]. reflexivity. Qed.

Lemma lookup_keep_ne (k k' : jsstring) (v : JsVal) (o : gmap jsstring JsVal) :
  k <> k' -> z.keep k v o !! k' = o !! k'.
Proof.
  intros Hne. unfold z.keep.
  destruct v; try reflexivity; apply lookup_insert_ne, Hne.
Qed.

(** X14. The metafield schema is recursive through [children]: a
    metafield whose [children] is an array is accepted exactly when it is
    accepted without its children and every child is accepted, at any
    depth; the accepted output holds under [children] the parsed children.
    A [children] that is neither an array nor absent is rejected, and so is
    a [type] that is a string outside the 15 kinds. *)
Theorem metafield_recursion (o : gmap jsstring JsVal) :
  (forall l, o !! js "children" = Some (JArr l) ->
     (is_Some (objectTypes.metafieldSchema (JObj o))
      <-> is_Some (objectTypes.metafieldSchema (JObj (delete (js "children") o)))
          /\ Forall (fun c => is_Some (objectTypes.metafieldSchema c)) l)
     /\ (forall o', objectTypes.metafieldSchema (JObj o) = Some (JObj o') ->
           exists l', mapM objectTypes.metafieldSchema l = Some l'
                      /\ o' !! js "children" = Some (JArr l')))
  /\ (forall c, o !! js "children" = Some c ->
        c <> JUndefined -> (forall l, c <> JArr l) ->
        objectTypes.metafieldSchema (JObj o) = None)
  /\ (forall s, o !! js "type" = Some (JStr s) ->
        s ∉ (fst <$> objectTypes.metafieldTypes) ->
        objectTypes.metafieldSchema (JObj o) = None).
Proof.
  split; [|split].
  - intros l Hl. split.
    + cbn [objectTypes.metafieldSchema]. rewrite !children_fold.
      rewrite Hl, lookup_delete_eq.
      rewrite !prop_delete_ne by keys_differ.
      destruct (z.string (prop o (js "key"))); cbn [mbind option_bind];
        [|split; [intros [? [=]] | intros [[? [=]] _]]].
      destruct (z.string (prop o (js "title"))); cbn [mbind option_bind];
        [|split; [intros [? [=]] | intros [[? [=]] _]]].
      destruct (z.enum objectTypes.metafieldTypes (prop o (js "type")));
        cbn [mbind option_bind];
        [|split; [intros [? [=]] | intros [[? [=]] _]]].
      destruct (z.optional z.boolean (prop o (js "required")));
        cbn [mbind option_bind];
        [|split; [intros [? [=]] | intros [[? [=]] _]]].
      destruct (z.optional z.unknown (prop o (js "value")));
        cbn [mbind option_bind];
        [|split; [intros [? [=]] | intros [[? [=]] _]]].
      destruct (z.optional (z.array objectTypes.metafieldOption)
                  (prop o (js "options")));
        cbn [mbind option_bind];
        [|split; [intros [? [=]] | intros [[? [=]] _]]].
      destruct (z.optional z.string (prop o (js "object_type")));
        cbn [mbind option_bind].
      * pose proof (mapM_is_Some objectTypes.metafieldSchema l) as Hall.
        unfold compose in Hall. rewrite <- Hall. clear Hall.
        destruct (mapM objectTypes.metafieldSchema l); cbn.
        -- split; [intros _; split; eauto | eauto].
        -- split; [intros [? [=]] | intros [_ [? [=]]]].
      * destruct (mapM objectTypes.metafieldSchema l); cbn;
          (split; [intros [? [=]] | intros [[? [=]] _]]).
    + intros o'. cbn [objectTypes.metafieldSchema]. rewrite children_fold, Hl.
      intros H. repeat (apply bind_Some in H as (? & ? & H)).
      apply (f_equal (default JUndefined)) in H. cbn [default] in H.
      apply JObj_inj in H. subst o'.
      match goal with
      | H : JArr <$> mapM _ l = Some _ |- _ =>
          apply fmap_Some in H as (l' & Hl' & ->)
      end.
      exists l'. split; [exact Hl'|].
      rewrite !lookup_keep_ne by keys_differ.
      unfold z.keep. apply lookup_insert_eq.
  - intros c Hc Hu Ha. cbn [objectTypes.metafieldSchema]. rewrite children_fold, Hc.
    destruct c; try (destruct Hu; reflexivity); try (destruct (Ha _ eq_refl));
      repeat match goal with
             | |- context [mbind _ ?m] =>
                 match m with
                 | None => fail 1
                 | Some _ => fail 1
                 | _ => destruct m; cbn [mbind option_bind]; [|reflexivity]
                 end
             end; reflexivity.
  - intros s Hs Hn. cbn [objectTypes.metafieldSchema].
    assert (z.enum objectTypes.metafieldTypes (prop o (js "type")) = None) as ->.
    { rewrite (prop_lookup _ _ _ Hs). unfold z.enum.
      destruct (List.find (fun p => bool_decide (fst p = s))
                  objectTypes.metafieldTypes) as [[s' m]|] eqn:E; [|reflexivity].
      apply find_some in E as [Hin E]. apply bool_decide_eq_true in E. cbn in E.
      subst s'. destruct Hn. apply list_elem_of_In in Hin.
      apply (list_elem_of_fmap_2 fst) in Hin. exact Hin. }
    destruct (z.string (prop o (js "key"))); [|reflexivity].
    destruct (z.string (prop o (js "title"))); reflexivity.
Qed.

Lemma parent_accepted (c : JsVal) :
  objectTypes.metafieldSchema c = Some c ->
  objectTypes.metafieldSchema
    (JObj (obj [(js "key", JStr (js "k")); (js "title", JStr (js "T"));
                (js "type", JStr (js "parent")); (js "children", JArr [c])]))
  = Some (JObj (obj [(js "key", JStr (js "k")); (js "title", JStr (js "T"));
                     (js "type", JStr (js "parent")); (js "children", JArr [c])])).
Proof.
  intros Hc. cbn [objectTypes.metafieldSchema]. rewrite children_fold.
  set (o := obj _).
  assert (o !! js "children" = Some (JArr [c])) as -> by (vm_compute; reflexivity).
  assert (prop o (js "key") = JStr (js "k")) as -> by (vm_compute; reflexivity).
  assert (prop o (js "title") = JStr (js "T")) as -> by (vm_compute; reflexivity).
  assert (prop o (js "type") = JStr (js "parent")) as -> by (vm_compute; reflexivity).
  assert (prop o (js "required") = JUndefined) as -> by (vm_compute; reflexivity).
  assert (prop o (js "value") = JUndefined) as -> by (vm_compute; reflexivity).
  assert (prop o (js "options") = JUndefined) as -> by (vm_compute; reflexivity).
  assert (prop o (js "object_type") = JUndefined) as -> by (vm_compute; reflexivity).
  cbn [mapM]. rewrite Hc. subst o. vm_compute. reflexivity.
Qed.

Lemma nested_valid (n : nat) :
  objectTypes.metafieldSchema (nested n) = Some (nested n).
Proof.
  induction n as [|n IH].
  - vm_compute. reflexivity.
  - cbn [nested]. apply parent_accepted, IH.
Qed.

(** The parse of a metafield nested [n] levels deep descends [n + 1]
    levels. *)
Lemma nested_levels (n : nat) : objectTypes.levels (nested n) = S n.
Proof.
  induction n as [|n IH]; cbn [nested objectTypes.levels]; rewrite children_fold.
  - reflexivity.
  - set (o := obj _).
    assert (o !! js "children" = Some (JArr [nested n])) as ->
      by (vm_compute; reflexivity).
    cbn [foldr]. rewrite IH, Nat.max_0_r. reflexivity.
Qed.

Lemma nestedType_descent (n : nat) : objectTypes.descent (nestedType n) = S n.
Proof.
  unfold objectTypes.descent, nestedType. set (o := obj _).
  assert (prop o (js "metafields") = JArr [nested n]) as ->
    by (vm_compute; reflexivity).
  cbn [foldr]. rewrite nested_levels, Nat.max_0_r. reflexivity.
Qed.

Lemma nestedType_parsed (n : nat) :
  objectTypes.createObjectTypeSchema.safeParse (nestedType n)
  = Some (nestedTypeParams n).
Proof.
  unfold objectTypes.createObjectTypeSchema.safeParse, z.object, nestedType.
  set (o := obj _).
  assert (prop o (js "title") = JStr (js "Pages")) as -> by (vm_compute; reflexivity).
  assert (prop o (js "slug") = JStr (js "pages")) as -> by (vm_compute; reflexivity).
  assert (prop o (js "singular") = JUndefined) as -> by (vm_compute; reflexivity).
  assert (prop o (js "metafields") = JArr [nested n]) as -> by (vm_compute; reflexivity).
  assert (prop o (js "options") = JUndefined) as -> by (vm_compute; reflexivity).
  unfold z.optional, z.array. cbn [mapM z.string mbind option_bind fmap option_fmap option_map].
  rewrite nested_valid. reflexivity.
Qed.

(** X15. Metafields nest as deep as the stack of the runtime lets a parse
    descend, and no deeper: for every [n], a call of [cosmic_types_create]
    whose one metafield, of kind [parent], is nested [n] levels deep is,
    when [n] is below the depth that the stack affords, the run of the
    handler on the arguments as they are, the nested metafield unchanged;
    from that depth on, the call comes back as the error envelope of the
    dispatcher with the message of the [RangeError], and nothing is
    sent. *)
Theorem nesting_within_stack (X : Externals) (n : nat) (w : World) :
  index.server X (js "cosmic_types_create") (nestedType n) w
  = if n <? stack X
    then handle X (CreateObjectType (nestedTypeParams n)) w
    else (Normal (mkResult
                    [mkText (js "Error executing tool cosmic_types_create: Maximum call stack size exceeded")]
                    (Some true)), w).
Proof.
  rewrite (server_dispatch X index.cosmic_types_create).
  cbn [exhausts safeParse_of]. rewrite nestedType_descent, nestedType_parsed.
  destruct (Nat.ltb_spec (stack X) (S n)), (Nat.ltb_spec n (stack X));
    first [lia | reflexivity].
Qed.

(** ** More on the media upload *)

Lemma mediaInput_DataUri (s mime data : jsstring) :
  DataUri s mime data ->
  media.mediaInput s = Some (JBuffer (media.Buffer_from_base64 data)).
Proof.
  intros H. unfold media.mediaInput. rewrite (DataUri_startsWith _ _ _ H).
  apply matchDataUri_Some in H. rewrite H. reflexivity.
Qed.

(** X16. The MIME type of an inline payload is parsed and dropped: two
    uploads whose [media] are data URIs with the same payload, and whose
    other parameters agree, behave alike in every state, whatever their
    MIME types are; the same request is sent, and the MIME type is in
    none. *)
Theorem mime_type_dropped (X : Externals) (p p' : media.uploadMediaSchema.infer)
    (w : World) (mime mime' data : jsstring) :
  DataUri (media.uploadMediaSchema.media p) mime data ->
  DataUri (media.uploadMediaSchema.media p') mime' data ->
  media.uploadMediaSchema.folder p = media.uploadMediaSchema.folder p' ->
  media.uploadMediaSchema.metadata p = media.uploadMediaSchema.metadata p' ->
  media.uploadMediaSchema.trigger_webhook p
  = media.uploadMediaSchema.trigger_webhook p' ->
  media.handleUploadMedia X p w = media.handleUploadMedia X p' w.
Proof.
  intros H H' Hf Hm Ht. unfold media.handleUploadMedia.
  rewrite (mediaInput_DataUri _ _ _ H), (mediaInput_DataUri _ _ _ H'), Hf, Hm, Ht.
  reflexivity.
Qed.

Lemma mime_type_dropped_witness :
  media.handleUploadMedia quiet inlinePng world_rw
  = media.handleUploadMedia quiet inlineGif world_rw.
Proof.
  apply (mime_type_dropped quiet inlinePng inlineGif world_rw
           (js "image/png") (js "image/gif") (js "Zm9v"));
    try reflexivity; apply matchDataUri_Some; reflexivity.
Defined.

(** X17. Only the form [data:<mime>;base64,<data>] of a data URI is taken:
    a [media] string [data:<m>;<rest>] whose first [;] is not followed by
    [base64,] (a data URI with a parameter such as [;charset=utf-8]), a
    [data:] string without any [;] (a payload that is not base64), and a
    base64 payload with a line break in it, get the error envelope about
    the format, and nothing is sent. *)
Theorem data_uri_variants_rejected (X : Externals)
    (p : media.uploadMediaSchema.infer) (w : World) (m rest : jsstring) :
  write_enabled w = true -> configured w = true ->
  media.semicolon ∉ m ->
  (media.uploadMediaSchema.media p = js "data:" ++ m ++ media.semicolon :: rest
   /\ media.after (js "base64,") rest = None)
  \/ media.uploadMediaSchema.media p = js "data:" ++ m
  \/ (exists c before after,
        media.uploadMediaSchema.media p
        = js "data:" ++ m ++ js ";base64," ++ before ++ c :: after
        /\ media.lineTerminator c = true) ->
  fst (media.handleUploadMedia X p w) = Normal (failure formatError)
  /\ new_calls (media.handleUploadMedia X p) w = [].
Proof.
  intros W C Hm Hshape. apply (upload_rejects X p w W C).
  unfold media.mediaInput.
  assert (media.matchDataUri (media.uploadMediaSchema.media p) = None) as ->.
  { apply matchDataUri_None. intros mime data (E & _ & Hsemi & H).
    destruct Hshape as [[E' Hrest]|[E'|(c & before & rest' & E' & Hc)]];
      rewrite E' in E; apply app_inv_head in E.
    - assert (media.run (m ++ media.semicolon :: rest)
              = (m, media.semicolon :: rest)) as R1 by (apply run_stops, Hm).
      assert (media.run (mime ++ media.semicolon :: (js "base64," ++ data))
              = (mime, media.semicolon :: (js "base64," ++ data))) as R2
        by (apply run_stops, Hsemi).
      change (js ";base64," ++ data)
        with (media.semicolon :: (js "base64," ++ data)) in E.
      rewrite E, R2 in R1.
      assert (rest = js "base64," ++ data) as Hrest'
        by (apply (f_equal snd) in R1; cbn [snd] in R1;
            apply (f_equal (drop 1)) in R1; symmetry; exact R1).
      apply after_Some in Hrest'. congruence.
    - apply Hm. rewrite E. apply elem_of_app. right.
      change (js ";base64," ++ data)
        with (media.semicolon :: (js "base64," ++ data)).
      apply elem_of_cons. left. reflexivity.
    - assert (media.run (m ++ media.semicolon
                           :: (js "base64," ++ before ++ c :: rest'))
              = (m, media.semicolon :: (js "base64," ++ before ++ c :: rest')))
        as R1 by (apply run_stops, Hm).
      assert (media.run (mime ++ media.semicolon :: (js "base64," ++ data))
              = (mime, media.semicolon :: (js "base64," ++ data))) as R2
        by (apply run_stops, Hsemi).
      change (js ";base64," ++ before ++ c :: rest')
        with (media.semicolon :: (js "base64," ++ before ++ c :: rest')) in E.
      change (js ";base64," ++ data)
        with (media.semicolon :: (js "base64," ++ data)) in E.
      rewrite E, R2 in R1.
      assert (data = before ++ c :: rest') as ->
        by (apply (f_equal snd) in R1; cbn [snd] in R1;
            apply (f_equal (drop 8)) in R1; exact R1).
      destruct H as [_ Hlt].
      rewrite Hlt in Hc; [discriminate Hc|].
      apply elem_of_app. right. apply elem_of_cons. left. reflexivity. }
  assert (media.startsWith (media.uploadMediaSchema.media p) (js "data:") = true)
    as -> by (apply startsWith_true;
              destruct Hshape as [[-> _]|[->|(? & ? & ? & -> & _)]]; eauto).
  reflexivity.
Qed.

Lemma data_uri_variants_rejected_witness :
  fst (media.handleUploadMedia quiet inlineCharset world_rw)
  = Normal (failure formatError)
  /\ new_calls (media.handleUploadMedia quiet inlineCharset) world_rw = [].
Proof.
  apply (data_uri_variants_rejected quiet inlineCharset world_rw
           (js "text/plain") (js "charset=utf-8;base64,Zm9v")).
  - reflexivity.
  - reflexivity.
  - apply (bool_decide_unpack _). vm_compute. exact I.
  - left. split; reflexivity.
Defined.

Lemma sextets_skip (a b : jsstring) (c : N) :
  media.unbase64 (media.lowByte c) = None -> media.lowByte c <> 61%N ->
  media.sextets (a ++ c :: b) = media.sextets (a ++ b).
Proof.
  intros Hc H61. induction a as [|x a IH]; cbn [app media.sextets].
  - rewrite Hc. destruct (N.eqb_spec (media.lowByte c) 61); [contradiction|reflexivity].
  - rewrite IH. reflexivity.
Qed.

Lemma sextets_stop (a b : jsstring) (c : N) :
  media.lowByte c = 61%N ->
  media.sextets (a ++ c :: b) = media.sextets a.
Proof.
  intros Hc. induction a as [|x a IH]; cbn [app media.sextets].
  - rewrite Hc. reflexivity.
  - rewrite IH. reflexivity.
Qed.

Lemma sextets_none (data : jsstring) :
  Forall (fun c => media.unbase64 (media.lowByte c) = None) data ->
  media.sextets data = [].
Proof.
  induction 1 as [|c data Hc _ IH]; cbn [media.sextets]; [reflexivity|].
  rewrite Hc, IH. destruct (N.eqb (media.lowByte c) 61); reflexivity.
Qed.

(** X24. The upload never refuses a payload for not being base64: every
    [media] string of the shape [data:<mime>;base64,<data>] is sent, as
    bytes. In the payload a code unit whose low byte is in neither
    alphabet is passed over, and what follows the first [=] is not read;
    a payload without any base64 character is sent as the empty
    buffer. *)
Theorem payload_never_refused (X : Externals) (p : media.uploadMediaSchema.infer)
    (w : World) (mime data : jsstring) :
  write_enabled w = true -> configured w = true ->
  DataUri (media.uploadMediaSchema.media p) mime data ->
  new_calls (media.handleUploadMedia X p) w
  = [uploadRequest p (JBuffer (media.Buffer_from_base64 data))]
  /\ (forall a c b, data = a ++ c :: b ->
        media.unbase64 (media.lowByte c) = None -> media.lowByte c <> 61%N ->
        media.Buffer_from_base64 data = media.Buffer_from_base64 (a ++ b))
  /\ (forall a c b, data = a ++ c :: b -> media.lowByte c = 61%N ->
        media.Buffer_from_base64 data = media.Buffer_from_base64 a)
  /\ (Forall (fun c => media.unbase64 (media.lowByte c) = None) data ->
      media.Buffer_from_base64 data = []).
Proof.
  intros W C Hshape. split; [|split; [|split]].
  - apply (upload_forwards X p w _ W C), (mediaInput_DataUri _ _ _ Hshape).
  - intros a c b -> Hc H61. unfold media.Buffer_from_base64.
    rewrite (sextets_skip a b c Hc H61). reflexivity.
  - intros a c b -> Hc. unfold media.Buffer_from_base64.
    rewrite (sextets_stop a b c Hc). reflexivity.
  - intros Hnone. unfold media.Buffer_from_base64.
    rewrite (sextets_none data Hnone). reflexivity.
Qed.

Lemma payload_never_refused_witness :
  new_calls (media.handleUploadMedia quiet inlineNoise) world_rw
  = [uploadRequest inlineNoise (JBuffer [])].
Proof.
  destruct (payload_never_refused quiet inlineNoise world_rw
              (js "image/png") (js "!?*="))
    as (Hsent & _ & _ & Hnone).
  - reflexivity.
  - reflexivity.
  - apply matchDataUri_Some. reflexivity.
  - rewrite Hsent, Hnone; [reflexivity|]. repeat constructor.
Defined.

(** ** More on the requests of the handlers *)

(** X18. In the object listing, a non-empty [type] parameter is written
    into the query under [type] and wins over a [type] of the caller's own
    [query] object; an empty [type] is no filter; every other key of the
    caller's query is passed on as it is. *)
Theorem list_type_filter (X : Externals) (p : objects.listObjectsSchema.infer)
    (w : World) (rq : BackendCall) :
  rq ∈ new_calls (objects.handleListObjects X p) w ->
  exists q : gmap jsstring JsVal,
    args rq = [JObj q]
    /\ (forall k, k <> js "type" ->
          q !! k = default ∅ (objects.listObjectsSchema.query p) !! k)
    /\ q !! js "type"
       = if truthy_string (objects.listObjectsSchema.type p)
         then JStr <$> objects.listObjectsSchema.type p
         else default ∅ (objects.listObjectsSchema.query p) !! js "type".
Proof.
  unfold objects.handleListObjects. rewrite request_calls by apply _. intros Hrq. sent Hrq.
  rewrite truthy_status.
  destruct (objects.listObjectsSchema.type p) as [[|c s]|],
           (objects.listObjectsSchema.props p),
           (objects.listObjectsSchema.sort p) as [[|c1 s1]|],
           (objects.listObjectsSchema.depth p),
           (truthy_number (objects.listObjectsSchema.limit p)),
           (truthy_number (objects.listObjectsSchema.skip p));
    (eexists; split; [reflexivity|]; split;
     [intros k Hk; rewrite ?lookup_insert_ne by congruence; reflexivity
     |cbn [truthy_string fmap option_fmap option_map];
      rewrite ?lookup_insert_eq; reflexivity]).
Qed.

Lemma list_type_filter_witness :
  exists q : gmap jsstring JsVal,
    args (refine (refine (sdk objects_ find
                            [JObj {[ js "type" := JStr (js "posts");
                                     js "locale" := JStr (js "en") ]}])
                    limit_ (JNum 10%Q)) status_ (JStr (js "any")))
    = [JObj q]
    /\ (forall k, k <> js "type" ->
          q !! k = default ∅ (objects.listObjectsSchema.query listPosts) !! k)
    /\ q !! js "type"
       = if truthy_string (objects.listObjectsSchema.type listPosts)
         then JStr <$> objects.listObjectsSchema.type listPosts
         else default ∅ (objects.listObjectsSchema.query listPosts) !! js "type".
Proof.
  apply (list_type_filter quiet listPosts world_ro).
  vm_compute. repeat constructor.
Defined.

Lemma positive_truthy (q : Q) : (1 <= q)%Q -> truthy_number q = true.
Proof.
  intros H. unfold truthy_number. destruct (Qeq_bool q 0) eqn:E; [|reflexivity].
  apply Qeq_bool_iff in E. rewrite E in H. vm_compute in H. destruct H. reflexivity.
Qed.

(** X19. On every validated input of the object listing, the request
    carries the [limit] refiner, with a value between 1 and 100, and the
    [status] refiner (by default [any]); the [skip] refiner is there only
    when [skip] is not zero. *)
Theorem list_refiners (X : Externals) (v : JsVal)
    (p : objects.listObjectsSchema.infer) (w : World) (rq : BackendCall) :
  objects.listObjectsSchema.safeParse v = Some p ->
  rq ∈ new_calls (objects.handleListObjects X p) w ->
  chain_field (chain rq) (js "limit")
  = Some (JNum (objects.listObjectsSchema.limit p))
  /\ (1 <= objects.listObjectsSchema.limit p)%Q
  /\ (objects.listObjectsSchema.limit p <= 100)%Q
  /\ chain_field (chain rq) (js "status")
     = Some (JStr (StatusAny_str (objects.listObjectsSchema.status p)))
  /\ chain_field (chain rq) (js "skip")
     = if Qeq_bool (objects.listObjectsSchema.skip p) 0 then None
       else Some (JNum (objects.listObjectsSchema.skip p)).
Proof.
  intros Hv Hrq.
  destruct (listObjects_ranges v p Hv) as (H1 & H100 & _).
  revert Hrq. unfold objects.handleListObjects. rewrite request_calls by apply _.
  intros Hrq. sent Hrq. rewrite truthy_status, (positive_truthy _ H1).
  unfold truthy_number.
  split; [|split; [exact H1|split; [exact H100|]]];
    destruct (objects.listObjectsSchema.type p) as [[|c s]|],
             (objects.listObjectsSchema.props p),
             (objects.listObjectsSchema.sort p) as [[|c1 s1]|],
             (objects.listObjectsSchema.depth p),
             (Qeq_bool (objects.listObjectsSchema.skip p) 0),
             (objects.listObjectsSchema.status p);
    try split; reflexivity.
Qed.

Lemma list_refiners_witness :
  chain_field
    (chain (refine (refine (sdk objects_ find [JObj ∅]) limit_ (JNum 10%Q))
              status_ (JStr (js "any")))) (js "limit")
  = Some (JNum 10%Q)
  /\ chain_field
       (chain (refine (refine (sdk objects_ find [JObj ∅]) limit_ (JNum 10%Q))
                 status_ (JStr (js "any")))) (js "skip")
     = None.
Proof.
  destruct (list_refiners quiet (JObj ∅)
              (objects.listObjectsSchema.mk None any 10%Q 0%Q None None None None)
              world_ro
              (refine (refine (sdk objects_ find [JObj ∅]) limit_ (JNum 10%Q))
                 status_ (JStr (js "any"))))
    as (Hlimit & _ & _ & _ & Hskip).
  - reflexivity.
  - vm_compute. repeat constructor.
  - split; [exact Hlimit | exact Hskip].
Defined.

(** X20. When [cosmic_objects_get] has no usable [id] and its tests let
    the call through, the lookup is by slug and type, and both are
    non-empty strings in the request: the query is exactly
    [{ type, slug }], never with an [undefined] in it, and no [id]. *)
Theorem get_by_slug_request (X : Externals) (p : objects.getObjectSchema.infer)
    (w : World) (rq : BackendCall) :
  truthy_string (objects.getObjectSchema.id p) = false ->
  rq ∈ new_calls (objects.handleGetObject X p) w ->
  exists (t s : jsstring),
    objects.getObjectSchema.type p = Some t /\ t <> []
    /\ objects.getObjectSchema.slug p = Some s /\ s <> []
    /\ args rq = [JObj (obj [(js "type", JStr t); (js "slug", JStr s)])]
    /\ resource rq = objects_ /\ method rq = findOne.
Proof.
  intros Hid. unfold objects.handleGetObject. rewrite truthy_status.
  destruct (objects.getObjectSchema.id p) as [[|c0 s0]|]; try discriminate Hid;
    destruct (objects.getObjectSchema.slug p) as [[|c1 s1]|],
             (objects.getObjectSchema.type p) as [[|c2 s2]|];
    cbn [truthy_string negb andb];
    first [ rewrite return_calls | rewrite request_calls by apply _ ];
    intros Hrq; sent Hrq;
    (eexists _, _; split; [reflexivity|]; split; [discriminate|];
     split; [reflexivity|]; split; [discriminate|];
     destruct (objects.getObjectSchema.props p); repeat split).
Qed.

Lemma get_by_slug_request_witness :
  exists (t s : jsstring),
    objects.getObjectSchema.type bySlug = Some t /\ t <> []
    /\ objects.getObjectSchema.slug bySlug = Some s /\ s <> []
    /\ args (getBySlugRequest (js "posts") (js "hello") any)
       = [JObj (obj [(js "type", JStr t); (js "slug", JStr s)])]
    /\ resource (getBySlugRequest (js "posts") (js "hello") any) = objects_
    /\ method (getBySlugRequest (js "posts") (js "hello") any) = findOne.
Proof.
  apply (get_by_slug_request quiet bySlug world_ro).
  - reflexivity.
  - vm_compute. repeat constructor.
Defined.

(** X21. The duration of a video, validated as one of the strings [4],
    [6] and [8], is sent as the number 4, 6 or 8, never as a string; a
    duration left out is sent as [undefined]. *)
Theorem video_duration_number (X : Externals) (p : ai.generateVideoSchema.infer)
    (w : World) (rq : BackendCall) :
  rq ∈ new_calls (ai.handleGenerateVideo X p) w ->
  carried rq (js "duration")
  = Some (match ai.generateVideoSchema.duration p with
          | Some d => JNum (seconds d)
          | None => JUndefined
          end)
  /\ method rq = generateVideo.
Proof.
  unfold ai.handleGenerateVideo. rewrite guarded_request_calls by apply _.
  intros Hrq. sent Hrq.
  destruct (ai.generateVideoSchema.duration p) as [[| |]|];
    split; vm_compute; reflexivity.
Qed.

Lemma video_duration_number_witness :
  carried (sdk ai_ generateVideo [JObj (obj
             [(js "prompt", JStr (js "a tide")); (js "model", JUndefined);
              (js "duration", JNum (inject_Z 6)); (js "resolution", JUndefined);
              (js "folder", JUndefined); (js "metadata", JUndefined)])])
    (js "duration")
  = Some (JNum (inject_Z 6))
  /\ method (sdk ai_ generateVideo [JObj (obj
               [(js "prompt", JStr (js "a tide")); (js "model", JUndefined);
                (js "duration", JNum (inject_Z 6)); (js "resolution", JUndefined);
                (js "folder", JUndefined); (js "metadata", JUndefined)])])
     = generateVideo.
Proof.
  apply (video_duration_number quiet sixSeconds world_rw).
  vm_compute. repeat constructor.
Defined.

(** X22. A success envelope is never made up: when a handler returns an
    envelope without the error flag, it has sent exactly one request and
    the backend has answered it; every other envelope of a handler has the
    error flag set to true. *)
Theorem success_means_answered (X : Externals) (i : Invocation) (w : World)
    (r : ToolResult) :
  fst (handle X i w) = Normal r ->
  (isError r = None /\
   exists rq a, new_calls (handle X i) w = [rq]
                /\ backend X (calls w) rq = Normal a)
  \/ isError r = Some true.
Proof.
  assert (forall rq0 k,
            Tail X (tool i) k ->
            fst (readHandler X rq0 k (catchOf (tool i)) w) = Normal r ->
            (isError r = None /\
             exists rq a,
               new_calls (readHandler X rq0 k (catchOf (tool i))) w = [rq]
               /\ backend X (calls w) rq = Normal a)
            \/ isError r = Some true) as Hread.
  { intros rq0 k Hk. unfold new_calls.
    destruct (readHandler_run X rq0 k (catchOf (tool i)) w (Tail_Pure _ _ _ Hk))
      as [[_ E]|(c & _ & _ & E)]; rewrite E; cbn [fst snd calls].
    - intros [= <-]. right. reflexivity.
    - rewrite drop_app_length.
      destruct (backend X (calls w) rq0) as [a|e] eqn:Eb; intros [= <-].
      + destruct (Tail_envelope X (tool i) k a Hk)
          as [(f & _ & _ & ->)|(_ & v & -> & _)].
        * right. reflexivity.
        * destruct (envelopeOf_flag X (tool i) v) as [Hv|[Hv _]].
          -- left. split; [exact Hv | eauto].
          -- right. exact Hv.
      + right. reflexivity. }
  destruct (handle_shape X i) as [rq0 k _ _ Hk|rq0 k _ Hk| t _ | _].
  - apply Hread, Hk.
  - unfold new_calls. rewrite writeHandler_run. destruct (write_enabled w).
    + apply Hread, Hk.
    + intros [= <-]. right. reflexivity.
  - intros [= <-]. right. reflexivity.
  - destruct (writeRefusal_run (failure formatError) (catchOf (tool i)) w)
      as [[_ E]|[(_ & _ & E)|(c & _ & _ & _ & E)]]; rewrite E;
      intros [= <-]; right; reflexivity.
Qed.

Lemma success_means_answered_witness :
  (isError (success (Some [])) = None /\
   exists rq a, new_calls (handle quiet ListObjectTypes) world_ro = [rq]
                /\ backend quiet (calls world_ro) rq = Normal a)
  \/ isError (success (Some [])) = Some true.
Proof.
  apply (success_means_answered quiet ListObjectTypes world_ro (success (Some []))).
  reflexivity.
Defined.

Lemma serve_snoc (X : Externals) (requests : list (jsstring * JsVal))
    (r : jsstring * JsVal) (w : World) :
  serve X (requests ++ [r]) w
  = snd (index.server X (fst r) (snd r) (serve X requests w)).
Proof. unfold serve. rewrite fold_left_app. reflexivity. Qed.

(** X23. Over any sequence of calls the server keeps its history: the
    environment is never changed, the requests performed before remain, in
    order, at the front of those performed after, at most one request is
    added per call, and a client that exists at the start is still the
    client at the end. *)
Theorem server_history (X : Externals) (requests : list (jsstring * JsVal))
    (w : World) :
  env (serve X requests w) = env w
  /\ (exists l, calls (serve X requests w) = calls w ++ l
                /\ length l <= length requests)
  /\ (forall c, cosmicClient w = Some c ->
                cosmicClient (serve X requests w) = Some c).
Proof.
  induction requests as [|r requests IH] using rev_ind.
  - split; [reflexivity|]. split; [|auto].
    exists []. rewrite app_nil_r. split; [reflexivity | cbn; lia].
  - rewrite serve_snoc.
    destruct IH as (Henv & (l & Hcalls & Hlen) & Hclient).
    destruct (server_Step X (fst r) (snd r) (serve X requests w))
      as (Henv' & (l' & Hcalls' & Hlen') & Hclient').
    split; [congruence|]. split.
    + exists (l ++ l'). rewrite Hcalls', Hcalls, app_assoc.
      split; [reflexivity|]. rewrite !length_app. cbn. lia.
    + intros c Hc. apply Hclient', Hclient, Hc.
Qed.
